(** * ToneCraft: the audio graph, the parameter controller and the export
      pipeline of [src/app/page.tsx]

    The component [AudioEqualizer] keeps its data in React state
    ([eqSettings], [bypass], [isPlaying], [currentFile]) and in refs
    ([audioRef], [objectUrlRef], [audioNodesRef]).  Every handler is embedded
    as a function on one explicit [State] record; the browser objects the
    handlers talk to (the Web Audio graph, the blob URL registry, the media
    element) are fields of that record too.

    Numbers.  Audio parameters and equaliser gains are finite JavaScript
    numbers; they are embedded as exact rationals ([Q]), so the rounding of
    IEEE arithmetic is not part of the model.  Values that the code may see as
    [NaN] or an infinity (the media duration, PCM samples) are of type
    [number], which adds those three values to [Q].

    Closures.  A callback reads React state through the closure of the
    render that created it; [connectAudioGraph] and [applyEQSettings] take
    the captured value as an argument, and each caller passes the value its
    own closure holds.

    The browser.  What the browser decides (whether a constructor or a
    promise fails, what a file decodes to, what a graph renders) is an
    argument of the handlers; an exception or a rejected promise is [None]. *)

From Stdlib Require Import ZArith QArith Ascii String.
From stdpp Require Import gmap list strings.

Local Open Scope Z_scope.

(** ** The stages of the signal chain *)

(** The six nodes of [AudioNodes] that own an output. *)
Inductive Stage : Set :=
  | SourceNode | BassNode | MidNode | TrebleNode | MasterGainNode | CompNode.

(** What an output can be connected to: another stage, or the
    [destination] of the context (which has no output of its own). *)
Inductive Target : Set :=
  | ToStage (n : Stage)
  | Destination.

#[global] Instance Stage_eq_dec : EqDecision Stage.
Proof. solve_decision. Defined.

#[global] Instance Target_eq_dec : EqDecision Target.
Proof. solve_decision. Defined.

Definition Stage_to_nat (n : Stage) : nat :=
  match n with
  | SourceNode => 0 | BassNode => 1 | MidNode => 2
  | TrebleNode => 3 | MasterGainNode => 4 | CompNode => 5
  end%nat.

Definition Stage_of_nat (i : nat) : option Stage :=
  match i with
  | 0 => Some SourceNode | 1 => Some BassNode | 2 => Some MidNode
  | 3 => Some TrebleNode | 4 => Some MasterGainNode | 5 => Some CompNode
  | _ => None
  end%nat.

#[global] Instance Stage_countable : Countable Stage.
Proof.
  refine (inj_countable Stage_to_nat Stage_of_nat _).
  intros []; reflexivity.
Defined.

#[global] Instance Target_countable : Countable Target.
Proof.
  refine (inj_countable
            (fun t => match t with ToStage n => Some n | Destination => None end)
            (fun o => Some match o with Some n => ToStage n | None => Destination end)
            _).
  intros []; reflexivity.
Defined.

(** A connection [a.connect(b)]. *)
Definition Edge : Type := Stage * Target.

(** The connections of one audio context. *)
Abbreviation Connections := (gset Edge).

(** [a.connect(b)]: connecting twice is the same as connecting once. *)
Definition connect (a : Stage) (b : Target) (g : Connections) : Connections :=
  g ∪ {[ (a, b) ]}.

(** [a.disconnect()]: drops every outgoing connection of [a]. *)
Definition disconnect (a : Stage) (g : Connections) : Connections :=
  filter (fun e : Edge => e.1 ≠ a) g.

(** The two topologies of section 4.1 of the specification. *)
Definition bypass_path : Connections :=
  {[ (SourceNode, Destination) ]}.

Definition full_chain : Connections :=
  {[ (SourceNode, ToStage BassNode); (BassNode, ToStage MidNode);
     (MidNode, ToStage TrebleNode); (TrebleNode, ToStage CompNode);
     (CompNode, ToStage MasterGainNode); (MasterGainNode, Destination) ]}.

Definition topology (bypass : bool) : Connections :=
  if bypass then bypass_path else full_chain.

(** ** Web Audio nodes and their parameters *)

(** Half the sample rate of a context, the upper end of the nominal range
    of a filter frequency. *)
Definition nyquist (sampleRate : Z) : Q := Qred (sampleRate # 2).

Inductive BiquadFilterType : Set :=
  | lowpass | highpass | bandpass | lowshelf | highshelf | peaking | notch | allpass.

Module Biquad.
Record t : Type := mk {
  type : BiquadFilterType;
  frequency : Q;
  q : Q;
  gain : Q
}.
(** [createBiquadFilter()] *)
Definition create : t :=
  {| type := lowpass; frequency := 350; q := 1; gain := 0 |}.
Definition set_type (v : BiquadFilterType) (n : t) : t :=
  {| type := v; frequency := frequency n; q := q n; gain := gain n |}.
(** [node.frequency.value = v] for a node of a context with the given
    sample rate: the nominal range of the parameter is [[0, sampleRate / 2]],
    and a value outside of it is clamped to the range. *)
Definition set_frequency (sampleRate : Z) (v : Q) (n : t) : t :=
  let top := nyquist sampleRate in
  {| type := type n;
     frequency := if Qle_bool v 0 then 0 else if Qle_bool top v then top else v;
     q := q n; gain := gain n |}.
Definition set_q (v : Q) (n : t) : t :=
  {| type := type n; frequency := frequency n; q := v; gain := gain n |}.
Definition set_gain (v : Q) (n : t) : t :=
  {| type := type n; frequency := frequency n; q := q n; gain := v |}.
End Biquad.

Module Gain.
Record t : Type := mk { gain : Q }.
(** [createGain()] *)
Definition create : t := {| gain := 1 |}.
Definition set_gain (v : Q) (_ : t) : t := {| gain := v |}.
End Gain.

Module Compressor.
Record t : Type := mk {
  threshold : Q;
  knee : Q;
  ratio : Q;
  attack : Q;
  release : Q
}.
(** [createDynamicsCompressor()] *)
Definition create : t :=
  {| threshold := -24; knee := 30; ratio := 12;
     attack := 0.003; release := 0.25 |}.
Definition set_threshold (v : Q) (n : t) : t :=
  {| threshold := v; knee := knee n; ratio := ratio n;
     attack := attack n; release := release n |}.
Definition set_knee (v : Q) (n : t) : t :=
  {| threshold := threshold n; knee := v; ratio := ratio n;
     attack := attack n; release := release n |}.
Definition set_ratio (v : Q) (n : t) : t :=
  {| threshold := threshold n; knee := knee n; ratio := v;
     attack := attack n; release := release n |}.
Definition set_attack (v : Q) (n : t) : t :=
  {| threshold := threshold n; knee := knee n; ratio := ratio n;
     attack := v; release := release n |}.
Definition set_release (v : Q) (n : t) : t :=
  {| threshold := threshold n; knee := knee n; ratio := ratio n;
     attack := attack n; release := v |}.
End Compressor.

(** [createMediaElementSource(audioRef.current)]: the node has no parameter. *)
Inductive MediaElementAudioSourceNode : Set := mediaElementSource.

Inductive AudioContextState : Set := suspended | running.

(** What the code reads of an [AudioContext]. *)
Record AudioContext : Type := {
  sampleRate : Z;
  destinationChannelCount : Z;
  state : AudioContextState
}.

(** [interface AudioNodes] *)
Record AudioNodes : Type := {
  source : option MediaElementAudioSourceNode;
  bassFilter : option Biquad.t;
  midFilter : option Biquad.t;
  trebleFilter : option Biquad.t;
  masterGain : option Gain.t;
  comp : option Compressor.t;
  context : option AudioContext
}.

(** [interface EQSettings] *)
Record EQSettings : Type := {
  bass : Q;
  mid : Q;
  treble : Q
}.

(** [keyof EQSettings] *)
Inductive Band : Set := Bass | Mid | Treble.

#[global] Instance Band_eq_dec : EqDecision Band.
Proof. solve_decision. Defined.

Definition band_value (t : Band) (e : EQSettings) : Q :=
  match t with Bass => bass e | Mid => mid e | Treble => treble e end.

(** ** JavaScript numbers that may be [NaN] or infinite *)

Inductive number : Type :=
  | Num (q : Q)
  | NaN
  | Infinity
  | NegInfinity.

Definition Qltb (a b : Q) : bool := negb (Qle_bool b a).

(** [a < b] on JavaScript numbers: false as soon as one side is [NaN]. *)
Definition js_lt (a b : number) : bool :=
  match a, b with
  | NaN, _ | _, NaN => false
  | Num x, Num y => Qltb x y
  | NegInfinity, NegInfinity => false
  | NegInfinity, _ => true
  | _, NegInfinity => false
  | Infinity, _ => false
  | Num _, Infinity => true
  end.

(** [Math.min(a, b)] and [Math.max(a, b)]: [NaN] if one argument is. *)
Definition Math_min (a b : number) : number :=
  match a, b with
  | NaN, _ | _, NaN => NaN
  | _, _ => if js_lt b a then b else a
  end.

Definition Math_max (a b : number) : number :=
  match a, b with
  | NaN, _ | _, NaN => NaN
  | _, _ => if js_lt a b then b else a
  end.

Definition Qsign (x : Q) : comparison := (Qnum x ?= 0)%Z.

(** [a * b] where the product of two finite operands is a double, as it is
    for a sample of a [Float32Array] and a 16-bit constant; the infinities
    and [NaN] as in IEEE arithmetic. *)
Definition js_mul (a b : number) : number :=
  let inf (negative : bool) := if negative then NegInfinity else Infinity in
  let by_sign (negative : bool) (x : Q) :=
    match Qsign x with
    | Eq => NaN
    | Gt => inf negative
    | Lt => inf (negb negative)
    end in
  match a, b with
  | NaN, _ | _, NaN => NaN
  | Num x, Num y => Num (x * y)
  | Infinity, Num y => by_sign false y
  | NegInfinity, Num y => by_sign true y
  | Num x, Infinity => by_sign false x
  | Num x, NegInfinity => by_sign true x
  | Infinity, Infinity | NegInfinity, NegInfinity => Infinity
  | Infinity, NegInfinity | NegInfinity, Infinity => NegInfinity
  end.

(** The integer nearest to [n / d], ties to the even one, for [0 <= n]
    and [0 < d]. *)
Definition round_half_even (n d : Z) : Z :=
  let k := n / d in
  match 2 * (n mod d) ?= d with
  | Lt => k
  | Gt => k + 1
  | Eq => if Z.even k then k else k + 1
  end.

(** The exponent [e] with [2 ^ e <= n / d < 2 ^ (e + 1)], for [0 < n] and
    [0 < d]. *)
Definition binade (n d : Z) : Z :=
  let e := Z.log2 n - Z.log2 d in
  if decide (d * 2 ^ Z.max 0 e ≤ n * 2 ^ Z.max 0 (- e)) then e else e - 1.

(** The double nearest to a rational, as IEEE arithmetic rounds a result:
    53 significant bits, to nearest with ties to even, exponents down to
    [-1074], an infinity from [2 ^ 1024] on.  (The sign of a zero is not
    kept.) *)
Definition round_double (x : Q) : number :=
  let n := Z.abs (Qnum x) in
  let d := Z.pos (Qden x) in
  if decide (n = 0) then Num 0
  else
    let shift := Z.max (binade n d - 52) (-1074) in
    let up := 2 ^ Z.max 0 shift in
    let down := 2 ^ Z.max 0 (- shift) in
    let m := round_half_even (n * down) (d * up) in
    if decide (2 ^ 1024 * down ≤ m * up)
    then if decide (Qnum x < 0) then NegInfinity else Infinity
    else Num (Qred (Z.sgn (Qnum x) * m * up # Z.to_pos down)).

(** [a * b] on doubles: the exact product, rounded. *)
Definition double_mul (a b : number) : number :=
  match js_mul a b with
  | Num x => round_double x
  | special => special
  end.

(** Truncation towards zero, the first step of every integer conversion. *)
Definition Qtrunc (x : Q) : Z := Z.quot (Qnum x) (Z.pos (Qden x)).

(** The integer part a modular conversion starts from: 0 for [NaN] and the
    infinities. *)
Definition ToIntegerOrZero (x : number) : Z :=
  match x with
  | Num q => Qtrunc q
  | _ => 0
  end.

(** [ToUint32], as applied to the [length] argument of
    [OfflineAudioContext] (an [unsigned long]). *)
Definition ToUint32 (x : number) : Z := ToIntegerOrZero x mod 2 ^ 32.

(** [ToInt16] *)
Definition ToInt16 (x : number) : Z :=
  let m := ToIntegerOrZero x mod 2 ^ 16 in
  if decide (m < 2 ^ 15) then m else m - 2 ^ 16.

(** ** [ArrayBuffer] and [DataView] *)

(** A byte is a [Z] in [0, 256); a buffer is the list of its bytes. *)
Abbreviation Bytes := (list Z).

(** [new ArrayBuffer(n)]: [n] zero bytes, or a [RangeError] ([None]) if
    [n] is no valid length or the browser refuses the allocation;
    [allocates] tells which lengths the browser grants. *)
Definition ArrayBuffer (allocates : Z → bool) (n : Z) : option Bytes :=
  if decide (0 ≤ n < 2 ^ 53)
  then if allocates n then Some (replicate (Z.to_nat n) 0) else None
  else None.

(** The [n] bytes of [v] modulo [2 ^ (8 n)], least significant first. *)
Fixpoint le_bytes (n : nat) (v : Z) : Bytes :=
  match n with
  | O => []
  | S n' => v mod 256 :: le_bytes n' (v / 256)
  end.

Definition raw_bytes (n : nat) (v : Z) (littleEndian : bool) : Bytes :=
  if littleEndian then le_bytes n v else reverse (le_bytes n v).

(** Storing raw bytes through a view: a [RangeError] ([None]) when the
    bytes do not fit, else the bytes replace those at [byteOffset]. *)
Definition setViewValue (byteOffset : Z) (raw : Bytes) (view : Bytes) : option Bytes :=
  if decide (0 ≤ byteOffset ∧ byteOffset + Z.of_nat (length raw) ≤ Z.of_nat (length view))
  then Some (list_inserts (Z.to_nat byteOffset) raw view)
  else None.

Definition setUint8 (byteOffset value : Z) (view : Bytes) : option Bytes :=
  setViewValue byteOffset (raw_bytes 1 value true) view.

Definition setUint16 (byteOffset value : Z) (littleEndian : bool) (view : Bytes)
  : option Bytes :=
  setViewValue byteOffset (raw_bytes 2 value littleEndian) view.

Definition setUint32 (byteOffset value : Z) (littleEndian : bool) (view : Bytes)
  : option Bytes :=
  setViewValue byteOffset (raw_bytes 4 value littleEndian) view.

Definition setInt16 (byteOffset : Z) (value : number) (littleEndian : bool)
    (view : Bytes) : option Bytes :=
  setViewValue byteOffset (raw_bytes 2 (ToInt16 value) littleEndian) view.

(** [string.charCodeAt(i)] for the ASCII strings of the header. *)
Definition charCode (c : ascii) : Z := Z.of_N (N_of_ascii c).

(** ** [AudioBuffer] *)

Module AudioBuffer.
Record t : Type := mk {
  length : Z;
  numberOfChannels : Z;
  sampleRate : Z;
  (** [getChannelData(channel)[i]] *)
  getChannelData : Z -> Z -> number
}.
End AudioBuffer.

(** ** [audioBufferToCompressedAudio] *)

(** A [for] loop over a list of indices that threads a state and stops at
    the first exception. *)
Fixpoint for_each {A S : Type} (body : S -> A -> option S) (l : list A) (s : S)
  : option S :=
  match l with
  | [] => Some s
  | x :: l' => match body s x with
               | Some s' => for_each body l' s'
               | None => None
               end
  end.

(** [writeString(offset, string)] *)
Fixpoint writeString (offset : Z) (s : string) (view : Bytes) : option Bytes :=
  match s with
  | EmptyString => Some view
  | String c s' =>
      view' ← setUint8 offset (charCode c) view;
      writeString (offset + 1) s' view'
  end.

(** The right-hand side of [const sample = ...] followed by the value
    handed to [setInt16].  The samples of a [Float32Array] have 24
    significant bits, so both products are exact in double precision, as
    they are in [Q]. *)
Definition sample_value (x : number) : number :=
  let sample := Math_max (Num (-1)) (Math_min (Num 1) x) in
  if js_lt sample (Num 0) then js_mul sample (Num 32768) else js_mul sample (Num 32767).

Definition write_channel (buffer : AudioBuffer.t) (i : Z) (st : Bytes * Z) (channel : Z)
  : option (Bytes * Z) :=
  let '(view, offset) := st in
  view' ← setInt16 offset (sample_value (AudioBuffer.getChannelData buffer channel i)) true view;
  Some (view', offset + 2).

Definition write_frame (buffer : AudioBuffer.t) (st : Bytes * Z) (i : Z)
  : option (Bytes * Z) :=
  for_each (write_channel buffer i) (seqZ 0 (AudioBuffer.numberOfChannels buffer)) st.

Definition audioBufferToCompressedAudio (allocates : Z → bool) (buffer : AudioBuffer.t)
  : option Bytes :=
  let length := AudioBuffer.length buffer in
  let numberOfChannels := AudioBuffer.numberOfChannels buffer in
  let sampleRate := AudioBuffer.sampleRate buffer in
  view ← ArrayBuffer allocates (44 + length * numberOfChannels * 2);
  view ← writeString 0 "RIFF" view;
  view ← setUint32 4 (36 + length * numberOfChannels * 2) true view;
  view ← writeString 8 "WAVE" view;
  view ← writeString 12 "fmt " view;
  view ← setUint32 16 16 true view;
  view ← setUint16 20 1 true view;
  view ← setUint16 22 numberOfChannels true view;
  view ← setUint32 24 sampleRate true view;
  view ← setUint32 28 (sampleRate * numberOfChannels * 2) true view;
  view ← setUint16 32 (numberOfChannels * 2) true view;
  view ← setUint16 34 16 true view;
  view ← writeString 36 "data" view;
  view ← setUint32 40 (length * numberOfChannels * 2) true view;
  st ← for_each (write_frame buffer) (seqZ 0 length) (view, 44);
  Some st.1.


(** ** The browser objects around the component *)

(** A blob URL made by [URL.createObjectURL]; each call returns a new one. *)
Definition Url : Set := nat.

(** The calls made to [URL.createObjectURL] and [URL.revokeObjectURL], in
    the order they were made. *)
Inductive UrlEvent : Set :=
  | Created (u : Url)
  | Revoked (u : Url).

#[global] Instance UrlEvent_eq_dec : EqDecision UrlEvent.
Proof. solve_decision. Defined.

(** What the code uses of a selected [File]: its name, its bytes, and the
    duration the media element reports once the file is its source. *)
Record File : Type := {
  name : string;
  content : Bytes;
  mediaDuration : number
}.

(** What the code uses of the [<audio>] element. *)
Record HTMLAudioElement : Type := {
  src : option Url;
  duration : number;
  paused : bool;
  currentTime : Q
}.

(** What the user gets to see. [console] output is not modelled. *)
Inductive Effect : Type :=
  | Alert (message : string)
  | Download (filename : string) (content : Bytes).

(** ** The state of the component *)

Record State : Type := {
  (** [useState] *)
  isPlaying : bool;
  currentFile : string;
  eqSettings : EQSettings;
  bypass : bool;
  audioContextSuspended : bool;
  (** [useRef] *)
  audioRef : option HTMLAudioElement;
  objectUrlRef : option Url;
  audioNodesRef : AudioNodes;
  (** the connections between the nodes of [audioNodesRef] *)
  connections : Connections;
  (** the blob URL registry of the page *)
  nextUrl : Url;
  urlLog : list UrlEvent
}.

Definition set_isPlaying (v : bool) (s : State) : State :=
  {| isPlaying := v; currentFile := currentFile s; eqSettings := eqSettings s;
     bypass := bypass s; audioContextSuspended := audioContextSuspended s;
     audioRef := audioRef s; objectUrlRef := objectUrlRef s;
     audioNodesRef := audioNodesRef s; connections := connections s;
     nextUrl := nextUrl s; urlLog := urlLog s |}.
Definition set_currentFile (v : string) (s : State) : State :=
  {| isPlaying := isPlaying s; currentFile := v; eqSettings := eqSettings s;
     bypass := bypass s; audioContextSuspended := audioContextSuspended s;
     audioRef := audioRef s; objectUrlRef := objectUrlRef s;
     audioNodesRef := audioNodesRef s; connections := connections s;
     nextUrl := nextUrl s; urlLog := urlLog s |}.
Definition set_eqSettings (v : EQSettings) (s : State) : State :=
  {| isPlaying := isPlaying s; currentFile := currentFile s; eqSettings := v;
     bypass := bypass s; audioContextSuspended := audioContextSuspended s;
     audioRef := audioRef s; objectUrlRef := objectUrlRef s;
     audioNodesRef := audioNodesRef s; connections := connections s;
     nextUrl := nextUrl s; urlLog := urlLog s |}.
Definition set_bypass (v : bool) (s : State) : State :=
  {| isPlaying := isPlaying s; currentFile := currentFile s;
     eqSettings := eqSettings s; bypass := v;
     audioContextSuspended := audioContextSuspended s; audioRef := audioRef s;
     objectUrlRef := objectUrlRef s; audioNodesRef := audioNodesRef s;
     connections := connections s; nextUrl := nextUrl s; urlLog := urlLog s |}.
Definition set_audioContextSuspended (v : bool) (s : State) : State :=
  {| isPlaying := isPlaying s; currentFile := currentFile s;
     eqSettings := eqSettings s; bypass := bypass s; audioContextSuspended := v;
     audioRef := audioRef s; objectUrlRef := objectUrlRef s;
     audioNodesRef := audioNodesRef s; connections := connections s;
     nextUrl := nextUrl s; urlLog := urlLog s |}.
Definition set_audioRef (v : option HTMLAudioElement) (s : State) : State :=
  {| isPlaying := isPlaying s; currentFile := currentFile s;
     eqSettings := eqSettings s; bypass := bypass s;
     audioContextSuspended := audioContextSuspended s; audioRef := v;
     objectUrlRef := objectUrlRef s; audioNodesRef := audioNodesRef s;
     connections := connections s; nextUrl := nextUrl s; urlLog := urlLog s |}.
Definition set_objectUrlRef (v : option Url) (s : State) : State :=
  {| isPlaying := isPlaying s; currentFile := currentFile s;
     eqSettings := eqSettings s; bypass := bypass s;
     audioContextSuspended := audioContextSuspended s; audioRef := audioRef s;
     objectUrlRef := v; audioNodesRef := audioNodesRef s; connections := connections s;
     nextUrl := nextUrl s; urlLog := urlLog s |}.
Definition set_audioNodesRef (v : AudioNodes) (s : State) : State :=
  {| isPlaying := isPlaying s; currentFile := currentFile s;
     eqSettings := eqSettings s; bypass := bypass s;
     audioContextSuspended := audioContextSuspended s; audioRef := audioRef s;
     objectUrlRef := objectUrlRef s; audioNodesRef := v; connections := connections s;
     nextUrl := nextUrl s; urlLog := urlLog s |}.
Definition set_connections (v : Connections) (s : State) : State :=
  {| isPlaying := isPlaying s; currentFile := currentFile s;
     eqSettings := eqSettings s; bypass := bypass s;
     audioContextSuspended := audioContextSuspended s; audioRef := audioRef s;
     objectUrlRef := objectUrlRef s; audioNodesRef := audioNodesRef s;
     connections := v; nextUrl := nextUrl s; urlLog := urlLog s |}.
Definition set_nextUrl (v : Url) (s : State) : State :=
  {| isPlaying := isPlaying s; currentFile := currentFile s;
     eqSettings := eqSettings s; bypass := bypass s;
     audioContextSuspended := audioContextSuspended s; audioRef := audioRef s;
     objectUrlRef := objectUrlRef s; audioNodesRef := audioNodesRef s;
     connections := connections s; nextUrl := v; urlLog := urlLog s |}.
Definition set_urlLog (v : list UrlEvent) (s : State) : State :=
  {| isPlaying := isPlaying s; currentFile := currentFile s;
     eqSettings := eqSettings s; bypass := bypass s;
     audioContextSuspended := audioContextSuspended s; audioRef := audioRef s;
     objectUrlRef := objectUrlRef s; audioNodesRef := audioNodesRef s;
     connections := connections s; nextUrl := nextUrl s; urlLog := v |}.

Definition no_nodes : AudioNodes :=
  {| source := None; bassFilter := None; midFilter := None; trebleFilter := None;
     masterGain := None; comp := None; context := None |}.

(** The component right after it is mounted. *)
Definition initial_state : State :=
  {| isPlaying := false;
     currentFile := "";
     eqSettings := {| bass := 0; mid := 0; treble := 0 |};
     bypass := false;
     audioContextSuspended := false;
     audioRef := Some {| src := None; duration := NaN; paused := true; currentTime := 0 |};
     objectUrlRef := None;
     audioNodesRef := no_nodes;
     connections := ∅;
     nextUrl := 0%nat;
     urlLog := [] |}.

(** [URL.createObjectURL(...)] *)
Definition createObjectURL (s : State) : Url * State :=
  let url := nextUrl s in
  (url, set_urlLog (urlLog s ++ [Created url]) (set_nextUrl (S url) s)).

(** [URL.revokeObjectURL(url)] *)
Definition revokeObjectURL (url : Url) (s : State) : State :=
  set_urlLog (urlLog s ++ [Revoked url]) s.

(** ** The live audio graph *)

(** [connectAudioGraph], as a closure that captured [bypass]. *)
Definition connectAudioGraph (bypass : bool) (s : State) : State :=
  match audioNodesRef s with
  | {| source := Some _; bassFilter := Some _; midFilter := Some _;
       trebleFilter := Some _; masterGain := Some _; comp := Some _;
       context := Some _ |} =>
      (* Disconnect existing connections; [disconnect()] does not throw. *)
      let g := connections s in
      let g := disconnect SourceNode g in
      let g := disconnect BassNode g in
      let g := disconnect MidNode g in
      let g := disconnect TrebleNode g in
      let g := disconnect MasterGainNode g in
      let g := disconnect CompNode g in
      if bypass then
        set_connections (connect SourceNode Destination g) s
      else
        let g := connect SourceNode (ToStage BassNode) g in
        let g := connect BassNode (ToStage MidNode) g in
        let g := connect MidNode (ToStage TrebleNode) g in
        let g := connect TrebleNode (ToStage CompNode) g in
        let g := connect CompNode (ToStage MasterGainNode) g in
        let g := connect MasterGainNode Destination g in
        set_connections g s
  | _ => s
  end.

(** The value of [bypass] in the first render, [useState(false)]. *)
Definition initial_bypass : bool := false.

(** [initializeAudioContext].  [fresh] is the outcome of
    [new AudioContext()] and [createMediaElementSource]: the new context, or
    [None] when one of them throws (the [catch] block only logs).

    The callback is memoised with an empty dependency list, so the
    [connectAudioGraph] it calls is the closure of the first render, which
    captured [initial_bypass]. *)
Definition initializeAudioContext (fresh : option AudioContext) (s : State) : State :=
  match audioRef s with
  | None => s
  | Some _ =>
      match context (audioNodesRef s) with
      | Some _ => s
      | None =>
          match fresh with
          | None => s
          | Some audioContext =>
              let source := mediaElementSource in
              let bassFilter := Biquad.create in
              let bassFilter := Biquad.set_type lowshelf bassFilter in
              let bassFilter :=
                Biquad.set_frequency (sampleRate audioContext) 100 bassFilter in
              let midFilter := Biquad.create in
              let midFilter := Biquad.set_type peaking midFilter in
              let midFilter :=
                Biquad.set_frequency (sampleRate audioContext) 1000 midFilter in
              let midFilter := Biquad.set_q 1.0 midFilter in
              let trebleFilter := Biquad.create in
              let trebleFilter := Biquad.set_type highshelf trebleFilter in
              let trebleFilter :=
                Biquad.set_frequency (sampleRate audioContext) 8000 trebleFilter in
              let masterGain := Gain.create in
              let masterGain := Gain.set_gain 0.85 masterGain in
              let comp := Compressor.create in
              let comp := Compressor.set_threshold (-12) comp in
              let comp := Compressor.set_knee 6 comp in
              let comp := Compressor.set_ratio 3 comp in
              let comp := Compressor.set_attack 0.003 comp in
              let comp := Compressor.set_release 0.25 comp in
              let nodes :=
                {| source := Some source; bassFilter := Some bassFilter;
                   midFilter := Some midFilter; trebleFilter := Some trebleFilter;
                   masterGain := Some masterGain; comp := Some comp;
                   context := Some audioContext |} in
              (* the nodes of a new context are not connected to anything *)
              connectAudioGraph initial_bypass
                (set_connections ∅ (set_audioNodesRef nodes s))
          end
      end
  end.

(** [applyEQSettings], as a closure that captured [eqSettings]. *)
Definition applyEQSettings (eqSettings : EQSettings) (s : State) : State :=
  let nodes := audioNodesRef s in
  match bassFilter nodes, midFilter nodes, trebleFilter nodes with
  | Some bassFilter, Some midFilter, Some trebleFilter =>
      set_audioNodesRef
        {| source := source nodes;
           bassFilter := Some (Biquad.set_gain (bass eqSettings) bassFilter);
           midFilter := Some (Biquad.set_gain (mid eqSettings) midFilter);
           trebleFilter := Some (Biquad.set_gain (treble eqSettings) trebleFilter);
           masterGain := masterGain nodes; comp := comp nodes;
           context := context nodes |} s
  | _, _, _ => s
  end.

(** [setEqSettings((prev) => ({ ...prev, [type]: value[0] }))] *)
Definition updateEQValue (type : Band) (value : Q) (s : State) : State :=
  let prev := eqSettings s in
  set_eqSettings
    match type with
    | Bass => {| bass := value; mid := mid prev; treble := treble prev |}
    | Mid => {| bass := bass prev; mid := value; treble := treble prev |}
    | Treble => {| bass := bass prev; mid := mid prev; treble := value |}
    end s.

Definition resetEQ (s : State) : State :=
  set_eqSettings {| bass := 0; mid := 0; treble := 0 |} s.

(** ** File loading and playback *)

Definition set_src (url : Url) (file : File) (el : HTMLAudioElement) : HTMLAudioElement :=
  {| src := Some url; duration := mediaDuration file; paused := true; currentTime := 0 |}.

Definition set_paused (v : bool) (el : HTMLAudioElement) : HTMLAudioElement :=
  {| src := src el; duration := duration el; paused := v; currentTime := currentTime el |}.

Definition set_currentTime (v : Q) (el : HTMLAudioElement) : HTMLAudioElement :=
  {| src := src el; duration := duration el; paused := paused el; currentTime := v |}.

(** [handleFileUpload]; [file] is [event.target.files?.[0]].  Assigning
    [src] makes the element load the file: it is paused at position 0 and
    reports the duration of the new file. *)
Definition handleFileUpload (file : option File) (s : State) : State :=
  match file with
  | None => s
  | Some file =>
      match audioRef s with
      | None => s
      | Some _ =>
          (* Clean up previous object URL *)
          let s := match objectUrlRef s with
                   | Some previous => revokeObjectURL previous s
                   | None => s
                   end in
          let '(url, s) := createObjectURL s in
          let s := set_objectUrlRef (Some url) s in
          let s := set_audioRef (set_src url file <$> audioRef s) s in
          let s := set_currentFile (name file) s in
          set_isPlaying false s
      end
  end.

(** The cleanup of the unmount effect, after which React clears the ref of
    the unmounted [<audio>] element. *)
Definition unmount (s : State) : State :=
  let s := match objectUrlRef s with
           | Some url => revokeObjectURL url s
           | None => s
           end in
  set_audioRef None s.

Definition set_context_state (v : AudioContextState) (s : State) : State :=
  let nodes := audioNodesRef s in
  set_audioNodesRef
    {| source := source nodes; bassFilter := bassFilter nodes;
       midFilter := midFilter nodes; trebleFilter := trebleFilter nodes;
       masterGain := masterGain nodes; comp := comp nodes;
       context :=
         (fun c => {| sampleRate := sampleRate c;
                      destinationChannelCount := destinationChannelCount c;
                      state := v |}) <$> context nodes |} s.

Definition context_suspended (s : State) : bool :=
  match context (audioNodesRef s) with
  | Some {| state := suspended |} => true
  | _ => false
  end.

(** [ctx.resume()] followed by [setAudioContextSuspended(false)]; [None]
    when the promise is rejected. *)
Definition resume (ok : bool) (s : State) : option State :=
  if ok then Some (set_audioContextSuspended false (set_context_state running s))
  else None.

(** [resumeAudio] *)
Definition resumeAudio (ok : bool) (s : State) : State :=
  if context_suspended s then default s (resume ok s) else s.

(** What the browser answers during one [togglePlayPause]. *)
Record PlayOracle : Type := {
  newContext : option AudioContext;
  resumeOk : bool;
  playOk : bool;
  resumeAgainOk : bool
}.

(** [audioRef.current.play()] and [pause()], with the [play] and [pause]
    listeners that keep [isPlaying] in step. *)
Definition play (ok : bool) (s : State) : option State :=
  if ok then Some (set_isPlaying true (set_audioRef (set_paused false <$> audioRef s) s))
  else None.

Definition pause (s : State) : State :=
  set_isPlaying false (set_audioRef (set_paused true <$> audioRef s) s).

(** Where a [try] block stands: still running, or left by an exception. *)
Inductive Try : Type :=
  | Running (s : State)
  | Thrown (s : State).

Definition try_bind (t : Try) (k : State -> Try) : Try :=
  match t with
  | Running s => k s
  | Thrown s => Thrown s
  end.

Definition attempt (s : State) (step : option State) : Try :=
  match step with
  | Some s' => Running s'
  | None => Thrown s
  end.

(** [togglePlayPause] *)
Definition togglePlayPause (o : PlayOracle) (s : State) : State :=
  match audioRef s with
  | None => s
  | Some _ =>
      let body :=
        try_bind (Running (initializeAudioContext (newContext o) s)) (fun s =>
        try_bind (if context_suspended s then attempt s (resume (resumeOk o) s)
                  else Running s) (fun s =>
        match audioRef s with
        | Some el => if paused el then attempt s (play (playOk o) s)
                     else Running (pause s)
        | None => Thrown s
        end)) in
      match body with
      | Running s => s
      | Thrown s =>
          (* catch: try once more to resume a suspended context *)
          if context_suspended s then default s (resume (resumeAgainOk o) s) else s
      end
  end.

(** [stopAudio] *)
Definition stopAudio (s : State) : State :=
  match audioRef s with
  | None => s
  | Some _ =>
      let s := set_audioRef (set_currentTime 0 <$> (set_paused true <$> audioRef s)) s in
      set_isPlaying false s
  end.

(** ** Offline rendering and export *)

Module OfflineAudioContext.
Record t : Type := mk {
  numberOfChannels : Z;
  length : Z;
  sampleRate : Z
}.
End OfflineAudioContext.

(** The graph [saveAudio] builds inside the offline context. *)
Module Offline.
Record graph : Type := mk {
  buffer : AudioBuffer.t;  (** [source.buffer] *)
  bassFilter : Biquad.t;
  midFilter : Biquad.t;
  trebleFilter : Biquad.t;
  masterGain : Gain.t;
  comp : Compressor.t;
  connections : Connections
}.
End Offline.

(** What the browser does for [saveAudio]; [None] stands for an exception
    or a rejected promise. *)
Record Platform : Type := {
  (** the dimensions [new OfflineAudioContext(...)] accepts *)
  offlineSupported : Z -> Z -> Z -> bool;
  (** [fetch(url)] then [response.arrayBuffer()] *)
  fetch : option Url -> option Bytes;
  (** [decodeAudioData] of a context with the given sample rate *)
  decodeAudioData : Z -> Bytes -> option AudioBuffer.t;
  (** [startRendering()]: the samples per channel and index *)
  startRendering : OfflineAudioContext.t -> Offline.graph -> option (Z -> Z -> number);
  (** the lengths for which [new ArrayBuffer(n)] is granted *)
  allocates : Z -> bool
}.

(** [new OfflineAudioContext(numberOfChannels, length, sampleRate)]: [length]
    is an [unsigned long], and a length of 0 is not supported. *)
Definition newOfflineAudioContext (platform : Platform)
    (numberOfChannels : Z) (length : number) (sampleRate : Z)
  : option OfflineAudioContext.t :=
  let length := ToUint32 length in
  if decide (length = 0) then None
  else if offlineSupported platform numberOfChannels length sampleRate
  then Some {| OfflineAudioContext.numberOfChannels := numberOfChannels;
               OfflineAudioContext.length := length;
               OfflineAudioContext.sampleRate := sampleRate |}
  else None.

(** The offline context of [saveAudio]. *)
Definition offlineContextFor (platform : Platform) (audioContext : AudioContext)
    (el : HTMLAudioElement) : option OfflineAudioContext.t :=
  newOfflineAudioContext platform
    (destinationChannelCount audioContext)
    (double_mul (Num (inject_Z (sampleRate audioContext))) (duration el))
    (sampleRate audioContext).

(** The nodes [saveAudio] creates in the offline context, configures and
    connects, with the decoded file as the buffer of the source. *)
Definition offlineGraph (offlineContext : OfflineAudioContext.t)
    (eqSettings : EQSettings) (audioBuffer : AudioBuffer.t) : Offline.graph :=
  let sampleRate := OfflineAudioContext.sampleRate offlineContext in
  let bassFilter := Biquad.create in
  let midFilter := Biquad.create in
  let trebleFilter := Biquad.create in
  let masterGain := Gain.create in
  let comp := Compressor.create in
  (* Configure filters with current EQ settings *)
  let bassFilter := Biquad.set_type lowshelf bassFilter in
  let bassFilter := Biquad.set_frequency sampleRate 100 bassFilter in
  let bassFilter := Biquad.set_gain (bass eqSettings) bassFilter in
  let midFilter := Biquad.set_type peaking midFilter in
  let midFilter := Biquad.set_frequency sampleRate 1000 midFilter in
  let midFilter := Biquad.set_q 1.0 midFilter in
  let midFilter := Biquad.set_gain (mid eqSettings) midFilter in
  let trebleFilter := Biquad.set_type highshelf trebleFilter in
  let trebleFilter := Biquad.set_frequency sampleRate 8000 trebleFilter in
  let trebleFilter := Biquad.set_gain (treble eqSettings) trebleFilter in
  (* Configure master gain and compressor *)
  let masterGain := Gain.set_gain 0.85 masterGain in
  let comp := Compressor.set_threshold (-12) comp in
  let comp := Compressor.set_knee 6 comp in
  let comp := Compressor.set_ratio 3 comp in
  let comp := Compressor.set_attack 0.003 comp in
  let comp := Compressor.set_release 0.25 comp in
  (* Connect the audio graph *)
  let g : Connections := ∅ in
  let g := connect SourceNode (ToStage BassNode) g in
  let g := connect BassNode (ToStage MidNode) g in
  let g := connect MidNode (ToStage TrebleNode) g in
  let g := connect TrebleNode (ToStage CompNode) g in
  let g := connect CompNode (ToStage MasterGainNode) g in
  let g := connect MasterGainNode Destination g in
  {| Offline.buffer := audioBuffer;
     Offline.bassFilter := bassFilter; Offline.midFilter := midFilter;
     Offline.trebleFilter := trebleFilter; Offline.masterGain := masterGain;
     Offline.comp := comp; Offline.connections := g |}.

(** The [try] block of [saveAudio] up to [startRendering()]: the rendered
    buffer has the dimensions of the offline context. *)
Definition renderOffline (platform : Platform) (eqSettings : EQSettings)
    (audioContext : AudioContext) (el : HTMLAudioElement) : option AudioBuffer.t :=
  let originalSrc := src el in
  offlineContext ← offlineContextFor platform audioContext el;
  response ← fetch platform originalSrc;
  audioBuffer ← decodeAudioData platform (OfflineAudioContext.sampleRate offlineContext) response;
  let graph := offlineGraph offlineContext eqSettings audioBuffer in
  samples ← startRendering platform offlineContext graph;
  Some {| AudioBuffer.length := OfflineAudioContext.length offlineContext;
          AudioBuffer.numberOfChannels := OfflineAudioContext.numberOfChannels offlineContext;
          AudioBuffer.sampleRate := OfflineAudioContext.sampleRate offlineContext;
          AudioBuffer.getChannelData := samples |}.

Definition load_first : string := "Please load an audio file first".
Definition save_failed : string := "Error saving audio. Please try again.".

(** [saveAudio] *)
Definition saveAudio (platform : Platform) (s : State) : State * list Effect :=
  match audioRef s, context (audioNodesRef s) with
  | Some el, Some audioContext =>
      let audioBlob :=
        renderedBuffer ← renderOffline platform (eqSettings s) audioContext el;
        audioBufferToCompressedAudio (allocates platform) renderedBuffer in
      match audioBlob with
      | Some audioBlob =>
          (* Create download link *)
          let '(url, s) := createObjectURL s in
          let download := Download ("processed_" +:+ currentFile s) audioBlob in
          (revokeObjectURL url s, [download])
      | None => (s, [Alert save_failed])
      end
  | _, _ => (s, [Alert load_first])
  end.

(** ** The component as a transition system *)

(** A change of [eqSettings] or [bypass] re-renders the component and runs
    the effect that depends on it, with the closures of the new render. *)

(** [setGain] of section 4.2: the slider handler and its effect. *)
Definition setGain (type : Band) (value : Q) (s : State) : State :=
  let s := updateEQValue type value s in
  applyEQSettings (eqSettings s) s.

(** [reset] of section 4.2: the reset button and its effect. *)
Definition reset (s : State) : State :=
  let s := resetEQ s in
  applyEQSettings (eqSettings s) s.

(** The bypass button, [setBypass(!bypass)], and its effect. *)
Definition toggleBypass (s : State) : State :=
  let s := set_bypass (negb (bypass s)) s in
  connectAudioGraph (bypass s) s.

Inductive Event : Type :=
  | FileChosen (file : option File)
  | PlayPauseClicked (o : PlayOracle)
  | StopClicked
  | BypassClicked
  | ResumeClicked (ok : bool)
  | SaveClicked
  | SliderChanged (type : Band) (value : Q)
  | ResetClicked
  | MediaEnded
  | MediaError
  | Unmounted.

(** One event.  The controls are rendered (and the sliders enabled) only
    while [currentFile] is not empty, the resume button only while
    [audioContextSuspended]; nothing happens after the component is
    unmounted. *)
Definition step (platform : Platform) (s : State) (ev : Event) : State * list Effect :=
  match audioRef s with
  | None => (s, [])
  | Some el =>
      match ev with
      | FileChosen file => (handleFileUpload file s, [])
      | Unmounted => (unmount s, [])
      | MediaEnded =>
          if paused el then (s, []) else (pause s, [])
      | MediaError =>
          match objectUrlRef s with
          | Some _ => (s, [Alert "Error loading audio file. Please try a different file."])
          | None => (s, [])
          end
      | _ =>
          if decide (currentFile s = "") then (s, [])
          else
            match ev with
            | PlayPauseClicked o => (togglePlayPause o s, [])
            | StopClicked => (stopAudio s, [])
            | BypassClicked => (toggleBypass s, [])
            | ResumeClicked ok =>
                if audioContextSuspended s then (resumeAudio ok s, []) else (s, [])
            | SaveClicked => saveAudio platform s
            | SliderChanged type value => (setGain type value s, [])
            | ResetClicked => (reset s, [])
            | _ => (s, [])
            end
      end
  end.

(** A sequence of events, with everything shown to the user on the way. *)
Fixpoint run (platform : Platform) (s : State) (evs : list Event)
  : State * list Effect :=
  match evs with
  | [] => (s, [])
  | ev :: evs' =>
      let '(s', shown) := step platform s ev in
      let '(s'', shown') := run platform s' evs' in
      (s'', shown ++ shown')
  end.

Definition reachable (platform : Platform) (s : State) : Prop :=
  ∃ evs, (run platform initial_state evs).1 = s.

(** ** The layout of the exported file, as section 4.4 words it *)

Definition string_bytes (s : string) : Bytes :=
  charCode <$> list_ascii_of_string s.

(** The 44-byte header: chunk markers, format tag, channel count, sample
    rate, byte rate, block align, bit depth and data length. *)
Definition wav_header (length numberOfChannels sampleRate : Z) : Bytes :=
  string_bytes "RIFF" ++ le_bytes 4 (36 + length * numberOfChannels * 2) ++
  string_bytes "WAVE" ++
  string_bytes "fmt " ++ le_bytes 4 16 ++
  le_bytes 2 1 ++ le_bytes 2 numberOfChannels ++
  le_bytes 4 sampleRate ++ le_bytes 4 (sampleRate * numberOfChannels * 2) ++
  le_bytes 2 (numberOfChannels * 2) ++ le_bytes 2 16 ++
  string_bytes "data" ++ le_bytes 4 (length * numberOfChannels * 2).

(** The 16-bit sample stored for a float sample. *)
Definition pcm16 (x : number) : Z := ToInt16 (sample_value x).

(** One frame: the samples of all channels at index [i], channel 0 first. *)
Definition pcm_frame (buffer : AudioBuffer.t) (i : Z) : Bytes :=
  flat_map (fun channel =>
              le_bytes 2 (pcm16 (AudioBuffer.getChannelData buffer channel i)))
           (seqZ 0 (AudioBuffer.numberOfChannels buffer)).

Definition pcm_data (buffer : AudioBuffer.t) : Bytes :=
  flat_map (pcm_frame buffer) (seqZ 0 (AudioBuffer.length buffer)).

(** Reading an unsigned little-endian field back. *)
Definition le_decode (l : Bytes) : Z :=
  foldr (fun b acc => b + 256 * acc) 0 l.

(** Reading a signed 16-bit little-endian field back. *)
Definition int16_decode (l : Bytes) : Z :=
  let u := le_decode l in
  if decide (u < 2 ^ 15) then u else u - 2 ^ 16.

(** The [n] bytes at byte offset [off]. *)
Definition field (off : Z) (n : nat) (l : Bytes) : Bytes :=
  take n (drop (Z.to_nat off) l).

(** Clamping to [-1, 1]. *)
Definition clamp (x : Q) : Q :=
  if Qle_bool x (-1) then -1 else if Qle_bool 1 x then 1 else x.

(** Scaling to the signed 16-bit range: negative samples by 32768, the
    others by 32767. *)
Definition scale (x : Q) : Q :=
  if Qltb x 0 then x * 32768 else x * 32767.

(** ** The signal chain, as section 4.1 words it *)

(** The fixed parameters of the five effect stages. *)
Definition fixed_parameters (b m t : Biquad.t) (g : Gain.t) (c : Compressor.t) : Prop :=
  Biquad.type b = lowshelf ∧ Biquad.frequency b = 100%Q ∧
  Biquad.type m = peaking ∧ Biquad.frequency m = 1000%Q ∧ Biquad.q m = 1.0%Q ∧
  Biquad.type t = highshelf ∧ Biquad.frequency t = 8000%Q ∧
  Compressor.threshold c = (-12)%Q ∧ Compressor.knee c = 6%Q ∧
  Compressor.ratio c = 3%Q ∧ Compressor.attack c = 0.003%Q ∧
  Compressor.release c = 0.25%Q ∧
  Gain.gain g = 0.85%Q.

(** Section 3: all fields populated, or all empty. *)
Definition fully_populated (n : AudioNodes) : Prop :=
  is_Some (source n) ∧ is_Some (bassFilter n) ∧ is_Some (midFilter n) ∧
  is_Some (trebleFilter n) ∧ is_Some (masterGain n) ∧ is_Some (comp n) ∧
  is_Some (context n).

Definition fully_empty (n : AudioNodes) : Prop :=
  source n = None ∧ bassFilter n = None ∧ midFilter n = None ∧
  trebleFilter n = None ∧ masterGain n = None ∧ comp n = None ∧
  context n = None.

(** A frequency as a filter of a context with the given sample rate takes
    it: at most half the sample rate. *)
Definition limited (sampleRate : Z) (f : Q) : Q :=
  if Qle_bool (nyquist sampleRate) f then nyquist sampleRate else f.

(** The parameters of the five effect stages in a context with the given
    sample rate: those of section 4.1, the three frequencies limited to
    half the sample rate. *)
Definition chain_parameters (sampleRate : Z) (b m t : Biquad.t) (g : Gain.t)
    (c : Compressor.t) : Prop :=
  Biquad.type b = lowshelf ∧ Biquad.frequency b = limited sampleRate 100 ∧
  Biquad.type m = peaking ∧ Biquad.frequency m = limited sampleRate 1000 ∧
  Biquad.q m = 1.0%Q ∧
  Biquad.type t = highshelf ∧ Biquad.frequency t = limited sampleRate 8000 ∧
  Compressor.threshold c = (-12)%Q ∧ Compressor.knee c = 6%Q ∧
  Compressor.ratio c = 3%Q ∧ Compressor.attack c = 0.003%Q ∧
  Compressor.release c = 0.25%Q ∧
  Gain.gain g = 0.85%Q.

(** The live nodes carry these parameters. *)
Definition live_parameters (s : State) : Prop :=
  ∃ b m t g c x,
    bassFilter (audioNodesRef s) = Some b ∧ midFilter (audioNodesRef s) = Some m ∧
    trebleFilter (audioNodesRef s) = Some t ∧ masterGain (audioNodesRef s) = Some g ∧
    comp (audioNodesRef s) = Some c ∧ context (audioNodesRef s) = Some x ∧
    chain_parameters (sampleRate x) b m t g c.

(** The live nodes carry the parameters of section 4.1 as they are
    written there. *)
Definition live_parameters_fixed (s : State) : Prop :=
  ∃ b m t g c,
    bassFilter (audioNodesRef s) = Some b ∧ midFilter (audioNodesRef s) = Some m ∧
    trebleFilter (audioNodesRef s) = Some t ∧ masterGain (audioNodesRef s) = Some g ∧
    comp (audioNodesRef s) = Some c ∧ fixed_parameters b m t g c.

(** The live graph is the full chain of section 4.1, the frequencies
    limited to half the sample rate. *)
Definition live_chain (s : State) : Prop :=
  fully_populated (audioNodesRef s) ∧ live_parameters s ∧ connections s = full_chain.

(** The live graph is the full chain with the parameters exactly as
    section 4.1 has them. *)
Definition live_chain_fixed (s : State) : Prop :=
  fully_populated (audioNodesRef s) ∧ live_parameters_fixed s ∧
  connections s = full_chain.

(** The offline graph is the full chain, with the parameters of a context
    of the given sample rate. *)
Definition offline_chain (sampleRate : Z) (g : Offline.graph) : Prop :=
  chain_parameters sampleRate (Offline.bassFilter g) (Offline.midFilter g)
    (Offline.trebleFilter g) (Offline.masterGain g) (Offline.comp g) ∧
  Offline.connections g = full_chain.

(** The six [disconnect()] calls of [connectAudioGraph]. *)
Definition disconnect_all (g : Connections) : Connections :=
  disconnect CompNode (disconnect MasterGainNode (disconnect TrebleNode
    (disconnect MidNode (disconnect BassNode (disconnect SourceNode g))))).

(** The six [connect] calls of the full chain. *)
Definition connect_chain (g : Connections) : Connections :=
  connect MasterGainNode Destination
    (connect CompNode (ToStage MasterGainNode)
       (connect TrebleNode (ToStage CompNode)
          (connect MidNode (ToStage TrebleNode)
             (connect BassNode (ToStage MidNode)
                (connect SourceNode (ToStage BassNode) g))))).

(** The gain the live filter of a band has, if the filter exists. *)
Definition live_gain (type : Band) (s : State) : option Q :=
  Biquad.gain <$>
    match type with
    | Bass => bassFilter (audioNodesRef s)
    | Mid => midFilter (audioNodesRef s)
    | Treble => trebleFilter (audioNodesRef s)
    end.

(** ** Blob URLs, as section 5 words their life cycle *)

Definition created (log : list UrlEvent) : list Url :=
  omap (fun e => match e with Created u => Some u | Revoked _ => None end) log.

Definition revoked (log : list UrlEvent) : list Url :=
  omap (fun e => match e with Revoked u => Some u | Created _ => None end) log.

(** The URLs that are created and not released. *)
Definition unreleased (log : list UrlEvent) : list Url :=
  filter (fun u => u ∉ revoked log) (created log).

(** ** Invariants of the reachable states *)

(** The node record is empty and nothing is connected, or it is populated
    with the fixed parameters and wired as one of the two topologies. *)
Definition graph_inv (s : State) : Prop :=
  (audioNodesRef s = no_nodes ∧ connections s = ∅) ∨
  (fully_populated (audioNodesRef s) ∧ live_parameters s ∧
   (connections s = full_chain ∨ connections s = bypass_path)).

(** With bypass off, a populated record is wired as the full chain. *)
Definition enhanced_inv (s : State) : Prop :=
  fully_populated (audioNodesRef s) → bypass s = false → connections s = full_chain.

(** The [i]-th event of [evs] is the one that creates the graph. *)
Definition created_at (platform : Platform) (evs : list Event) (i : nat) : Prop :=
  fully_empty (audioNodesRef (run platform initial_state (take i evs)).1) ∧
  fully_populated (audioNodesRef (run platform initial_state (take (S i) evs)).1).

(** The [j]-th event of [evs] is a click on the play button, with the
    answers [o] of the browser. *)
Definition playback_attempt (platform : Platform) (evs : list Event) (j : nat)
    (o : PlayOracle) : Prop :=
  evs !! j = Some (PlayPauseClicked o) ∧
  is_Some (audioRef (run platform initial_state (take j evs)).1) ∧
  currentFile (run platform initial_state (take j evs)).1 ≠ "".

(** The registry of blob URLs is well formed: no URL is created or
    revoked twice, only created URLs are revoked, and URLs are handed out in
    increasing order. *)
Definition registry_ok (log : list UrlEvent) (next : Url) : Prop :=
  NoDup (created log) ∧ NoDup (revoked log) ∧
  (∀ u, u ∈ created log → (u < next)%nat) ∧
  (∀ u, u ∈ revoked log → u ∈ created log).

(** While the component is mounted, the only URL not yet released is the
    one of the loaded file; after the unmount there is none. *)
Definition url_inv (s : State) : Prop :=
  registry_ok (urlLog s) (nextUrl s) ∧
  unreleased (urlLog s)
  = match audioRef s with
    | Some _ => option_list (objectUrlRef s)
    | None => []
    end.

(** A file was loaded before anything else could happen: the controls
    appear, and a context exists, only after a load, and the source of the
    media element is the URL of the loaded file. *)
Definition file_inv (s : State) : Prop :=
  (currentFile s ≠ "" → is_Some (objectUrlRef s)) ∧
  (is_Some (context (audioNodesRef s)) → is_Some (objectUrlRef s)) ∧
  (∀ el, audioRef s = Some el → src el = objectUrlRef s).

(** ** The export, as sections 4.4 and 7 word it *)

(** The [try] block of [saveAudio] is left by an exception: in the
    constructor of the offline context, in [fetch], in [decodeAudioData], in
    [startRendering] or in the serialisation. *)
Inductive export_fails (platform : Platform) (eqSettings : EQSettings)
    (audioContext : AudioContext) (el : HTMLAudioElement) : Prop :=
  | constructor_throws :
      offlineContextFor platform audioContext el = None →
      export_fails platform eqSettings audioContext el
  | fetch_throws (offlineContext : OfflineAudioContext.t) :
      offlineContextFor platform audioContext el = Some offlineContext →
      fetch platform (src el) = None →
      export_fails platform eqSettings audioContext el
  | decode_throws (offlineContext : OfflineAudioContext.t) (response : Bytes) :
      offlineContextFor platform audioContext el = Some offlineContext →
      fetch platform (src el) = Some response →
      decodeAudioData platform (OfflineAudioContext.sampleRate offlineContext) response
      = None →
      export_fails platform eqSettings audioContext el
  | render_throws (offlineContext : OfflineAudioContext.t) (response : Bytes)
      (audioBuffer : AudioBuffer.t) :
      offlineContextFor platform audioContext el = Some offlineContext →
      fetch platform (src el) = Some response →
      decodeAudioData platform (OfflineAudioContext.sampleRate offlineContext) response
      = Some audioBuffer →
      startRendering platform offlineContext
        (offlineGraph offlineContext eqSettings audioBuffer)
      = None →
      export_fails platform eqSettings audioContext el
  | serialisation_throws (renderedBuffer : AudioBuffer.t) :
      renderOffline platform eqSettings audioContext el = Some renderedBuffer →
      audioBufferToCompressedAudio (allocates platform) renderedBuffer = None →
      export_fails platform eqSettings audioContext el.

(** Nothing that [saveAudio] is not supposed to touch has changed. *)
Definition session_untouched (s s' : State) : Prop :=
  eqSettings s' = eqSettings s ∧ bypass s' = bypass s ∧
  audioNodesRef s' = audioNodesRef s ∧ connections s' = connections s ∧
  audioRef s' = audioRef s ∧ isPlaying s' = isPlaying s ∧
  currentFile s' = currentFile s ∧ objectUrlRef s' = objectUrlRef s.

(** The dimensions of the offline context are those of the decoded file. *)
Definition matches_decode (offlineContext : OfflineAudioContext.t)
    (decoded : AudioBuffer.t) : Prop :=
  OfflineAudioContext.numberOfChannels offlineContext
  = AudioBuffer.numberOfChannels decoded ∧
  OfflineAudioContext.length offlineContext = AudioBuffer.length decoded ∧
  OfflineAudioContext.sampleRate offlineContext = AudioBuffer.sampleRate decoded.

(** [bytes] is the file of section 4.4 for [buffer]: the size, the chunk
    markers, the header fields read back as numbers, the samples read back
    as signed 16-bit numbers at their interleaved positions. *)
Definition wav_file (buffer : AudioBuffer.t) (bytes : Bytes) : Prop :=
  let L := AudioBuffer.length buffer in
  let C := AudioBuffer.numberOfChannels buffer in
  let R := AudioBuffer.sampleRate buffer in
  Z.of_nat (length bytes) = 44 + L * C * 2 ∧
  Forall (fun b => 0 ≤ b < 256) bytes ∧
  field 0 4 bytes = string_bytes "RIFF" ∧
  field 8 4 bytes = string_bytes "WAVE" ∧
  field 12 4 bytes = string_bytes "fmt " ∧
  field 36 4 bytes = string_bytes "data" ∧
  le_decode (field 20 2 bytes) = 1 ∧
  le_decode (field 22 2 bytes) = C ∧
  le_decode (field 24 4 bytes) = R ∧
  le_decode (field 28 4 bytes) = R * C * 2 ∧
  le_decode (field 32 2 bytes) = C * 2 ∧
  le_decode (field 34 2 bytes) = 16 ∧
  le_decode (field 40 4 bytes) = L * C * 2 ∧
  ∀ i channel, 0 ≤ i < L → 0 ≤ channel < C →
    int16_decode (field (44 + 2 * (i * C + channel)) 2 bytes)
    = pcm16 (AudioBuffer.getChannelData buffer channel i).

(** [bytes] has the layout of section 4.4 for [buffer], each numeric
    field of the header holding its value modulo the width of the field. *)
Definition wav_layout (buffer : AudioBuffer.t) (bytes : Bytes) : Prop :=
  let L := AudioBuffer.length buffer in
  let C := AudioBuffer.numberOfChannels buffer in
  let R := AudioBuffer.sampleRate buffer in
  Z.of_nat (length bytes) = 44 + L * C * 2 ∧
  Forall (fun b => 0 ≤ b < 256) bytes ∧
  field 0 4 bytes = string_bytes "RIFF" ∧
  field 8 4 bytes = string_bytes "WAVE" ∧
  field 12 4 bytes = string_bytes "fmt " ∧
  field 36 4 bytes = string_bytes "data" ∧
  le_decode (field 20 2 bytes) = 1 ∧
  le_decode (field 22 2 bytes) = C mod 2 ^ 16 ∧
  le_decode (field 24 4 bytes) = R mod 2 ^ 32 ∧
  le_decode (field 28 4 bytes) = (R * C * 2) mod 2 ^ 32 ∧
  le_decode (field 32 2 bytes) = (C * 2) mod 2 ^ 16 ∧
  le_decode (field 34 2 bytes) = 16 ∧
  le_decode (field 40 4 bytes) = (L * C * 2) mod 2 ^ 32 ∧
  ∀ i channel, 0 ≤ i < L → 0 ≤ channel < C →
    int16_decode (field (44 + 2 * (i * C + channel)) 2 bytes)
    = pcm16 (AudioBuffer.getChannelData buffer channel i).

(** The values of the header fit their fields. *)
Definition header_fits (buffer : AudioBuffer.t) : Prop :=
  let L := AudioBuffer.length buffer in
  let C := AudioBuffer.numberOfChannels buffer in
  let R := AudioBuffer.sampleRate buffer in
  0 ≤ R < 2 ^ 32 ∧ C * 2 < 2 ^ 16 ∧ R * C * 2 < 2 ^ 32 ∧ L * C * 2 < 2 ^ 32.

(** The size of the buffer [audioBufferToCompressedAudio] allocates. *)
Definition file_size (buffer : AudioBuffer.t) : Z :=
  44 + AudioBuffer.length buffer * AudioBuffer.numberOfChannels buffer * 2.

(** The graph is created at the first attempt to play. *)
Definition created_at_first_attempt (platform : Platform) (evs : list Event) : Prop :=
  ∀ i, created_at platform evs i →
       ∀ j o, (j < i)%nat → ¬ playback_attempt platform evs j o.

(** What playback leaves alone: the blob URLs, the loaded file, the
    settings, the bypass flag and the source of the media element. *)
Definition kept (s s' : State) : Prop :=
  urlLog s' = urlLog s ∧ nextUrl s' = nextUrl s ∧
  objectUrlRef s' = objectUrlRef s ∧ currentFile s' = currentFile s ∧
  eqSettings s' = eqSettings s ∧ bypass s' = bypass s ∧
  src <$> audioRef s' = src <$> audioRef s.

(** ** Concrete inputs *)

Module Example.

(** A two-second file. *)
Definition file : File :=
  {| name := "tone.mp3"; content := [73; 68; 51]; mediaDuration := Num 2 |}.

Definition audioContext : AudioContext :=
  {| sampleRate := 48000; destinationChannelCount := 2; state := running |}.

(** A browser in which nothing fails during playback. *)
Definition oracle : PlayOracle :=
  {| newContext := Some audioContext; resumeOk := true; playOk := true;
     resumeAgainOk := true |}.

(** A mono decode at the rate of the context, and a renderer that feeds
    the source through unchanged. *)
Definition decoded (sampleRate : Z) : AudioBuffer.t :=
  {| AudioBuffer.length := 2 * sampleRate;
     AudioBuffer.numberOfChannels := 1;
     AudioBuffer.sampleRate := sampleRate;
     AudioBuffer.getChannelData := fun _ _ => Num 0.5 |}.

Definition platform : Platform :=
  {| offlineSupported := fun _ _ _ => true;
     fetch := fun url => match url with Some _ => Some (content file) | None => None end;
     decodeAudioData := fun sampleRate _ => Some (decoded sampleRate);
     startRendering := fun _ graph =>
       Some (fun _ i => AudioBuffer.getChannelData (Offline.buffer graph) 0 i);
     allocates := fun _ => true |}.

(** The same browser, but [fetch] is rejected. *)
Definition offline_platform : Platform :=
  {| offlineSupported := offlineSupported platform;
     fetch := fun _ => None;
     decodeAudioData := decodeAudioData platform;
     startRendering := startRendering platform;
     allocates := allocates platform |}.

(** The same browser, but it refuses every allocation of a buffer. *)
Definition cramped_platform : Platform :=
  {| offlineSupported := offlineSupported platform;
     fetch := fetch platform;
     decodeAudioData := decodeAudioData platform;
     startRendering := startRendering platform;
     allocates := fun _ => false |}.

(** A context at 8 kHz, as a narrow-band audio device gives it. *)
Definition narrowband : AudioContext :=
  {| sampleRate := 8000; destinationChannelCount := 2; state := running |}.

Definition narrowband_oracle : PlayOracle :=
  {| newContext := Some narrowband; resumeOk := true; playOk := true;
     resumeAgainOk := true |}.

(** A browser in which [new AudioContext()] throws. *)
Definition failing : PlayOracle :=
  {| newContext := None; resumeOk := true; playOk := true; resumeAgainOk := true |}.

(** A file is loaded and playback was started once. *)
Definition playing : State :=
  (run platform initial_state
     [FileChosen (Some file); PlayPauseClicked oracle]).1.

(** Bypass is switched on before the first playback. *)
Definition bypass_then_play : list Event :=
  [FileChosen (Some file); BypassClicked; PlayPauseClicked oracle].

(** The bass slider is moved before the first playback. *)
Definition slide_then_play : list Event :=
  [FileChosen (Some file); SliderChanged Bass 10; PlayPauseClicked oracle].

(** The media element after [file] was loaded, and what the export of
    [playing] renders. *)
Definition element : HTMLAudioElement :=
  {| src := Some 0%nat; duration := Num 2; paused := false; currentTime := 0 |}.

Definition flat : EQSettings := {| bass := 0; mid := 0; treble := 0 |}.

Definition offlineContext : OfflineAudioContext.t :=
  {| OfflineAudioContext.numberOfChannels := 2;
     OfflineAudioContext.length := 96000;
     OfflineAudioContext.sampleRate := 48000 |}.

Definition rendered : AudioBuffer.t :=
  {| AudioBuffer.length := 96000;
     AudioBuffer.numberOfChannels := 2;
     AudioBuffer.sampleRate := 48000;
     AudioBuffer.getChannelData := fun _ i =>
       AudioBuffer.getChannelData
         (Offline.buffer (offlineGraph offlineContext flat (decoded 48000))) 0 i |}.

(** The first click on the play button finds no context to be had, the
    second one does. *)
Definition retry : list Event :=
  [FileChosen (Some file); PlayPauseClicked failing; PlayPauseClicked oracle].

(** Three tenths of a second, as a double, and a media element of that
    duration. *)
Definition short : number := round_double 0.3.

Definition brief : HTMLAudioElement :=
  {| src := Some 0%nat; duration := short; paused := false; currentTime := 0 |}.

(** Two channels, two frames, out-of-range and special samples. *)
Definition small_buffer : AudioBuffer.t :=
  {| AudioBuffer.length := 2;
     AudioBuffer.numberOfChannels := 2;
     AudioBuffer.sampleRate := 44100;
     AudioBuffer.getChannelData := fun channel i =>
       if decide (channel = 0) then Num 0.5
       else if decide (i = 0) then NaN else Num (-3) |}.

(** A mono buffer of [2 ^ 31] frames: 4 GiB of 16-bit samples. *)
Definition long_buffer : AudioBuffer.t :=
  {| AudioBuffer.length := 2 ^ 31;
     AudioBuffer.numberOfChannels := 1;
     AudioBuffer.sampleRate := 44100;
     AudioBuffer.getChannelData := fun _ _ => Num 0 |}.

End Example.

(** ** Playback, settings and wiring, as the user sees them *)

Definition load_failed : string :=
  "Error loading audio file. Please try a different file.".

(** The play button reads "Pause" exactly while the media element plays:
    [isPlaying] is set if and only if the element is not paused. *)
Definition playing_inv (s : State) : Prop :=
  ∀ el, audioRef s = Some el → isPlaying s = negb (paused el).

(** The live filters have the gains of the sliders. *)
Definition gains_applied (s : State) : Prop :=
  ∀ band, live_gain band s = Some (band_value band (eqSettings s)).

(** The live filters have the gain they are created with. *)
Definition gains_flat (s : State) : Prop :=
  ∀ band, live_gain band s = Some 0%Q.

(** The live graph is wired as the bypass button says. *)
Definition wired_as_flagged (s : State) : Prop :=
  connections s = topology (bypass s).

(** The graph exists and is wired as the bypass button says. *)
Definition wired (s : State) : Prop :=
  fully_populated (audioNodesRef s) ∧ wired_as_flagged s.

(** A click on the play button during which [new AudioContext()] and
    [createMediaElementSource] succeed. *)
Definition creates_context (ev : Event) : bool :=
  match ev with
  | PlayPauseClicked o => bool_decide (is_Some (newContext o))
  | _ => false
  end.

(** The file input reports a file. *)
Definition loads_file (ev : Event) : bool :=
  match ev with
  | FileChosen (Some _) => true
  | _ => false
  end.

Definition is_unmount (ev : Event) : bool :=
  match ev with
  | Unmounted => true
  | _ => false
  end.

(** A click on the play button goes through: no promise it awaits is
    rejected.  [resume()] is awaited only if the context is suspended
    after [initializeAudioContext], [play()] only if the element is paused. *)
Definition click_goes_through (o : PlayOracle) (s : State) (el : HTMLAudioElement) : bool :=
  (negb (context_suspended (initializeAudioContext (newContext o) s)) || resumeOk o)
  && (negb (paused el) || playOk o).

(** What [saveAudio] reads: the source and the duration of the media
    element, the sample rate and the channel count of the live context,
    the settings and the name of the file. *)
Definition export_inputs (s : State)
  : option (option Url * number) * option (Z * Z) * EQSettings * string :=
  ((fun el => (src el, duration el)) <$> audioRef s,
   (fun c => (sampleRate c, destinationChannelCount c)) <$> context (audioNodesRef s),
   eqSettings s,
   currentFile s).

(** The buffer [startRendering()] resolves to. *)
Definition rendering (offlineContext : OfflineAudioContext.t)
    (samples : Z → Z → number) : AudioBuffer.t :=
  {| AudioBuffer.length := OfflineAudioContext.length offlineContext;
     AudioBuffer.numberOfChannels := OfflineAudioContext.numberOfChannels offlineContext;
     AudioBuffer.sampleRate := OfflineAudioContext.sampleRate offlineContext;
     AudioBuffer.getChannelData := samples |}.

(** The number of frames the offline context is asked for. *)
Definition offline_length (audioContext : AudioContext) (el : HTMLAudioElement) : Z :=
  ToUint32 (double_mul (Num (inject_Z (sampleRate audioContext))) (duration el)).

(** Playback has taken the element to [position]. *)
Definition playback_reaches (position : Q) (s : State) : State :=
  set_audioRef (set_currentTime position <$> audioRef s) s.

(** ** The handlers, by what they write *)

(** [{ ...prev, [type]: value }] *)
Definition with_band (type : Band) (value : Q) (prev : EQSettings) : EQSettings :=
  match type with
  | Bass => {| bass := value; mid := mid prev; treble := treble prev |}
  | Mid => {| bass := bass prev; mid := value; treble := treble prev |}
  | Treble => {| bass := bass prev; mid := mid prev; treble := value |}
  end.

(** The node record after [applyEQSettings]. *)
Definition with_gains (e : EQSettings) (n : AudioNodes) : AudioNodes :=
  match bassFilter n, midFilter n, trebleFilter n with
  | Some b, Some m, Some t =>
      {| source := source n;
         bassFilter := Some (Biquad.set_gain (bass e) b);
         midFilter := Some (Biquad.set_gain (mid e) m);
         trebleFilter := Some (Biquad.set_gain (treble e) t);
         masterGain := masterGain n; comp := comp n; context := context n |}
  | _, _, _ => n
  end.

(** The guard of [connectAudioGraph]. *)
Definition populated (n : AudioNodes) : bool :=
  match n with
  | {| source := Some _; bassFilter := Some _; midFilter := Some _;
       trebleFilter := Some _; masterGain := Some _; comp := Some _;
       context := Some _ |} => true
  | _ => false
  end.

(** The connections after [connectAudioGraph]. *)
Definition rewired (b : bool) (n : AudioNodes) (g : Connections) : Connections :=
  if populated n
  then if b then connect SourceNode Destination (disconnect_all g)
       else connect_chain (disconnect_all g)
  else g.

(** ** More concrete inputs *)

Module Scenario.

(** A file is loaded and nothing else has happened. *)
Definition loaded : State :=
  (run Example.platform initial_state [FileChosen (Some Example.file)]).1.

Definition loadedElement : HTMLAudioElement :=
  {| src := Some 0%nat; duration := Num 2; paused := true; currentTime := 0 |}.

(** A context that starts suspended, and a browser in which the first
    [resume()] of a click is rejected and the second one is not. *)
Definition suspendedContext : AudioContext :=
  {| sampleRate := 48000; destinationChannelCount := 2; state := suspended |}.

Definition stubborn : PlayOracle :=
  {| newContext := Some suspendedContext; resumeOk := false; playOk := true;
     resumeAgainOk := true |}.

(** Playback was started and paused again. *)
Definition paused_again : State :=
  (run Example.platform initial_state
     [FileChosen (Some Example.file); PlayPauseClicked Example.oracle;
      PlayPauseClicked Example.oracle]).1.

(** One millisecond of audio, a context at 8 kHz, and a browser that
    decodes and renders it to silence. *)
Definition click : File :=
  {| name := "click.mp3"; content := [73; 68; 51];
     mediaDuration := round_double 0.001 |}.

Definition slowContext : AudioContext :=
  {| sampleRate := 8000; destinationChannelCount := 2; state := running |}.

Definition slow : PlayOracle :=
  {| newContext := Some slowContext; resumeOk := true; playOk := true;
     resumeAgainOk := true |}.

Definition silence : Z → Z → number := fun _ _ => Num 0.

Definition decodedClick : AudioBuffer.t :=
  {| AudioBuffer.length := 8;
     AudioBuffer.numberOfChannels := 1;
     AudioBuffer.sampleRate := 8000;
     AudioBuffer.getChannelData := silence |}.

Definition platform : Platform :=
  {| offlineSupported := fun _ _ _ => true;
     fetch := fun url => match url with Some _ => Some (content click) | None => None end;
     decodeAudioData := fun _ _ => Some decodedClick;
     startRendering := fun _ _ => Some silence;
     allocates := fun _ => true |}.

Definition clickPlaying : State :=
  (run platform initial_state [FileChosen (Some click); PlayPauseClicked slow]).1.

Definition clickElement : HTMLAudioElement :=
  {| src := Some 0%nat; duration := round_double 0.001; paused := false;
     currentTime := 0 |}.

Definition clickOffline : OfflineAudioContext.t :=
  {| OfflineAudioContext.numberOfChannels := 2;
     OfflineAudioContext.length := 8;
     OfflineAudioContext.sampleRate := 8000 |}.

(** A browser in which [new AudioContext()] throws. *)
Definition noContext : PlayOracle :=
  {| newContext := None; resumeOk := true; playOk := true; resumeAgainOk := true |}.

(** A file the browser cannot play: the element reports no duration. *)
Definition broken : File :=
  {| name := "broken.mp3"; content := []; mediaDuration := NaN |}.

Definition refused : PlayOracle :=
  {| newContext := Some Example.audioContext; resumeOk := true; playOk := false;
     resumeAgainOk := true |}.

Definition brokenLoaded : State :=
  (run Example.platform initial_state
     [FileChosen (Some broken); PlayPauseClicked refused]).1.

Definition brokenElement : HTMLAudioElement :=
  {| src := Some 0%nat; duration := NaN; paused := true; currentTime := 0 |}.

End Scenario.

(** * Proofs *)

(** ** Serialisation *)

Section Serialisation.

Lemma length_le_bytes n v : length (le_bytes n v) = n.
Proof. revert v. induction n as [|n IH]; intros v; simpl; [done | by rewrite IH]. Qed.

Lemma length_raw_bytes n v e : length (raw_bytes n v e) = n.
Proof. destruct e; simpl; rewrite ?length_reverse; apply length_le_bytes. Qed.

Lemma le_bytes_range n v : Forall (fun b => 0 ≤ b < 256) (le_bytes n v).
Proof.
  revert v. induction n as [|n IH]; intros v; simpl; constructor; auto.
  apply Z.mod_pos_bound. lia.
Qed.

Lemma le_decode_le_bytes n v : le_decode (le_bytes n v) = v mod 2 ^ (8 * Z.of_nat n).
Proof.
  revert v. induction n as [|n IH]; intros v.
  - simpl. by rewrite Z.mod_1_r.
  - cbn [le_bytes le_decode foldr]. fold (le_decode (le_bytes n (v / 256))).
    rewrite IH.
    replace (8 * Z.of_nat (S n)) with (8 + 8 * Z.of_nat n) by lia.
    rewrite Z.pow_add_r by lia. change (2 ^ 8) with 256.
    rewrite Z.rem_mul_r by lia. done.
Qed.

Lemma le_decode_le_bytes_small n v :
  0 ≤ v < 2 ^ (8 * Z.of_nat n) → le_decode (le_bytes n v) = v.
Proof. intros. rewrite le_decode_le_bytes. by apply Z.mod_small. Qed.

Lemma ToInt16_range x : - 2 ^ 15 ≤ ToInt16 x < 2 ^ 15.
Proof.
  unfold ToInt16.
  pose proof (Z.mod_pos_bound (ToIntegerOrZero x) (2 ^ 16) ltac:(lia)).
  case_decide; lia.
Qed.

Lemma int16_decode_le_bytes v :
  - 2 ^ 15 ≤ v < 2 ^ 15 → int16_decode (le_bytes 2 v) = v.
Proof.
  intros Hv. unfold int16_decode. rewrite le_decode_le_bytes.
  change (2 ^ (8 * Z.of_nat 2)) with (2 ^ 16).
  destruct (decide (0 ≤ v)).
  - rewrite Z.mod_small by lia. case_decide; lia.
  - replace (v mod 2 ^ 16) with (v + 2 ^ 16).
    + case_decide; lia.
    + apply Z.mod_unique with (q := -1); lia.
Qed.

(** A store right behind the bytes written so far, into a buffer whose
    remainder is still zero. *)
Lemma setViewValue_fill (written raw : Bytes) (k : nat) (off : Z) :
  off = Z.of_nat (length written) → (length raw ≤ k)%nat →
  setViewValue off raw (written ++ replicate k 0)
  = Some ((written ++ raw) ++ replicate (k - length raw) 0).
Proof.
  intros -> Hk. unfold setViewValue.
  rewrite decide_True.
  2:{ rewrite length_app, length_replicate. lia. }
  f_equal. rewrite Nat2Z.id.
  rewrite <- (Nat.add_0_r (length written)).
  rewrite list_inserts_app_r.
  replace k with (length raw + (k - length raw))%nat at 1 by lia.
  rewrite replicate_add.
  rewrite list_inserts_0_r by (by rewrite length_replicate).
  by rewrite <- app_assoc.
Qed.

Lemma writeString_fill (s : string) (written : Bytes) (k : nat) (off : Z) :
  off = Z.of_nat (length written) → (String.length s ≤ k)%nat →
  writeString off s (written ++ replicate k 0)
  = Some ((written ++ string_bytes s) ++ replicate (k - String.length s) 0).
Proof.
  revert written k off. induction s as [|c s IH]; intros written k off Hoff Hk.
  - simpl. unfold string_bytes. simpl. by rewrite app_nil_r, Nat.sub_0_r.
  - cbn [writeString]. unfold setUint8.
    cbn [String.length] in Hk.
    rewrite setViewValue_fill; [| done | rewrite length_raw_bytes; lia].
    cbn [mbind option_bind].
    rewrite IH.
    + unfold string_bytes, raw_bytes. simpl.
      rewrite <- !app_assoc. simpl.
      rewrite Z.mod_small.
      * by replace (k - 1 - String.length s)%nat with (k - S (String.length s))%nat by lia.
      * unfold charCode. pose proof (N_ascii_bounded c). lia.
    + rewrite length_app, length_raw_bytes. lia.
    + rewrite length_raw_bytes. lia.
Qed.

Lemma for_each_write_channel (buffer : AudioBuffer.t) (i : Z) (chans : list Z)
    (written : Bytes) (k : nat) :
  (2 * length chans ≤ k)%nat →
  for_each (write_channel buffer i) chans
    (written ++ replicate k 0, Z.of_nat (length written))
  = let written' :=
      written ++ flat_map (fun channel =>
                   le_bytes 2 (pcm16 (AudioBuffer.getChannelData buffer channel i))) chans in
    Some (written' ++ replicate (k - 2 * length chans) 0, Z.of_nat (length written')).
Proof.
  revert written k. induction chans as [|channel chans IH]; intros written k Hk.
  - simpl. by rewrite app_nil_r, Nat.sub_0_r.
  - cbn [for_each write_channel]. unfold setInt16.
    cbn [length] in Hk.
    rewrite setViewValue_fill; [| done | rewrite length_raw_bytes; lia].
    cbn [mbind option_bind].
    replace (Z.of_nat (length written) + 2)
      with (Z.of_nat (length (written ++ raw_bytes 2
              (ToInt16 (sample_value (AudioBuffer.getChannelData buffer channel i))) true)))
      by (rewrite length_app, length_raw_bytes; lia).
    rewrite IH by (rewrite length_raw_bytes; lia).
    cbv beta iota zeta. cbn [flat_map raw_bytes]. fold (pcm16 (AudioBuffer.getChannelData buffer channel i)).
    rewrite <- !app_assoc, length_le_bytes.
    cbn [length].
    by replace (k - 2 - 2 * length chans)%nat with (k - 2 * S (length chans))%nat by lia.
Qed.

Lemma length_pcm_frame (buffer : AudioBuffer.t) (i : Z) :
  length (pcm_frame buffer i) = (2 * Z.to_nat (AudioBuffer.numberOfChannels buffer))%nat.
Proof.
  unfold pcm_frame. rewrite <- (length_seqZ 0 (AudioBuffer.numberOfChannels buffer)).
  induction (seqZ 0 (AudioBuffer.numberOfChannels buffer)) as [|c l IH]; [done|].
  cbn [flat_map]. rewrite length_app, length_le_bytes, IH. simpl. lia.
Qed.

Lemma for_each_write_frame (buffer : AudioBuffer.t) (frames : list Z)
    (written : Bytes) (k : nat) :
  (2 * Z.to_nat (AudioBuffer.numberOfChannels buffer) * length frames ≤ k)%nat →
  for_each (write_frame buffer) frames
    (written ++ replicate k 0, Z.of_nat (length written))
  = let written' := written ++ flat_map (pcm_frame buffer) frames in
    Some (written' ++
            replicate (k - 2 * Z.to_nat (AudioBuffer.numberOfChannels buffer) * length frames) 0,
          Z.of_nat (length written')).
Proof.
  revert written k. induction frames as [|i frames IH]; intros written k Hk.
  - simpl. by rewrite app_nil_r, Nat.mul_0_r, Nat.sub_0_r.
  - cbn [for_each]. unfold write_frame at 1.
    cbn [length] in Hk.
    rewrite for_each_write_channel by (rewrite length_seqZ; nia).
    cbv beta iota zeta. fold (pcm_frame buffer i).
    rewrite IH by (rewrite length_seqZ; nia).
    cbv beta iota zeta. cbn [flat_map length]. rewrite <- !app_assoc, length_seqZ.
    set (c := Z.to_nat (AudioBuffer.numberOfChannels buffer)).
    by replace (k - 2 * c - 2 * c * length frames)%nat
      with (k - 2 * c * S (length frames))%nat by nia.
Qed.

Lemma length_pcm_data (buffer : AudioBuffer.t) :
  length (pcm_data buffer)
  = (2 * Z.to_nat (AudioBuffer.numberOfChannels buffer)
       * Z.to_nat (AudioBuffer.length buffer))%nat.
Proof.
  unfold pcm_data. rewrite <- (length_seqZ 0 (AudioBuffer.length buffer)).
  induction (seqZ 0 (AudioBuffer.length buffer)) as [|c l IH]; [simpl; lia|].
  cbn [flat_map]. rewrite length_app, length_pcm_frame, IH. simpl. lia.
Qed.

Lemma length_wav_header l c r : length (wav_header l c r) = 44%nat.
Proof. reflexivity. Qed.

Lemma setUint32_fill (written : Bytes) (k : nat) (off v : Z) :
  off = Z.of_nat (length written) → (4 ≤ k)%nat →
  setUint32 off v true (written ++ replicate k 0)
  = Some ((written ++ le_bytes 4 v) ++ replicate (k - 4) 0).
Proof. intros. unfold setUint32. by rewrite setViewValue_fill. Qed.

Lemma setUint16_fill (written : Bytes) (k : nat) (off v : Z) :
  off = Z.of_nat (length written) → (2 ≤ k)%nat →
  setUint16 off v true (written ++ replicate k 0)
  = Some ((written ++ le_bytes 2 v) ++ replicate (k - 2) 0).
Proof. intros. unfold setUint16. by rewrite setViewValue_fill. Qed.

Ltac fill_length := rewrite ?length_app, ?length_le_bytes; reflexivity.

Ltac fill :=
  first
    [ rewrite writeString_fill; [| fill_length | cbn [String.length]; lia]
    | rewrite setUint32_fill; [| fill_length | lia]
    | rewrite setUint16_fill; [| fill_length | lia] ];
  cbn [mbind option_bind String.length].

(** What [new ArrayBuffer(n)] gives when it gives something. *)
Lemma ArrayBuffer_Some (allocates : Z → bool) (n : Z) (view : Bytes) :
  ArrayBuffer allocates n = Some view → view = replicate (Z.to_nat n) 0.
Proof. unfold ArrayBuffer. repeat case_match; congruence. Qed.

(** The imperative writer produces exactly the layout of section 4.4, and
    it fails only if its buffer cannot be allocated: every write lies
    inside the buffer. *)
Lemma audioBufferToCompressedAudio_layout (allocates : Z → bool) (buffer : AudioBuffer.t) :
  0 ≤ AudioBuffer.length buffer → 0 ≤ AudioBuffer.numberOfChannels buffer →
  audioBufferToCompressedAudio allocates buffer
  = match ArrayBuffer allocates (file_size buffer) with
    | Some _ =>
        Some (wav_header (AudioBuffer.length buffer)
                (AudioBuffer.numberOfChannels buffer)
                (AudioBuffer.sampleRate buffer) ++ pcm_data buffer)
    | None => None
    end.
Proof.
  intros HL HC. unfold audioBufferToCompressedAudio, file_size. cbn zeta.
  set (L := AudioBuffer.length buffer) in *.
  set (C := AudioBuffer.numberOfChannels buffer) in *.
  set (R := AudioBuffer.sampleRate buffer).
  destruct (ArrayBuffer allocates (44 + L * C * 2)) as [view|] eqn:Hview; [|done].
  apply ArrayBuffer_Some in Hview. cbn [mbind option_bind].
  assert (Hn : view = [] ++ replicate (44 + 2 * Z.to_nat C * Z.to_nat L) 0).
  { rewrite Hview, app_nil_l. f_equal. apply Nat2Z.inj.
    rewrite Z2Nat.id by nia.
    rewrite Nat2Z.inj_add, !Nat2Z.inj_mul, !Z2Nat.id by lia. change (Z.of_nat 44) with 44. change (Z.of_nat 2) with 2. ring. }
  rewrite Hn. clear Hn Hview view.
  set (n := (2 * Z.to_nat C * Z.to_nat L)%nat).
  do 13 fill.
  match goal with
  | |- context [for_each ?f ?l (?w ++ ?r, 44)] =>
      change (for_each f l (w ++ r, 44))
        with (for_each f l (w ++ r, Z.of_nat (length w)))
  end.
  rewrite for_each_write_frame.
  2:{ rewrite length_seqZ. subst n L C. lia. }
  cbv beta iota zeta. cbn [mbind option_bind fst]. rewrite length_seqZ.
  fold (pcm_data buffer). fold L.
  match goal with
  | |- context [replicate ?m 0] => replace m with 0%nat by (subst n C; lia)
  end.
  cbn [replicate]. rewrite app_nil_r.
  unfold wav_header, pcm_data. fold L. by rewrite app_nil_l, <- !app_assoc.
Qed.

(** The [idx]-th chunk of a concatenation of chunks of equal size. *)
Lemma flat_map_chunk {A B : Type} (f : A → list B) (m : nat) (l : list A)
    (idx : nat) (x : A) :
  (∀ y, length (f y) = m) → l !! idx = Some x →
  take m (drop (idx * m) (flat_map f l)) = f x.
Proof.
  intros Hm. revert idx. induction l as [|y l IH]; intros [|idx] Hx; try done.
  - injection Hx as ->. change (0 * m)%nat with 0%nat. rewrite drop_0.
    cbn [flat_map]. by rewrite take_app_length'.
  - cbn [flat_map]. simpl in Hx.
    replace (S idx * m)%nat with (length (f y) + idx * m)%nat by (rewrite Hm; lia).
    rewrite drop_app_add. by apply IH.
Qed.

Lemma field_header (off : Z) (n : nat) (h body : Bytes) :
  0 ≤ off → (Z.to_nat off + n ≤ length h)%nat →
  field off n (h ++ body) = field off n h.
Proof.
  intros Hoff Hn. unfold field.
  rewrite drop_app_le by lia. rewrite take_app_le; [done|].
  rewrite length_drop. lia.
Qed.

Lemma field_sample (buffer : AudioBuffer.t) (h : Bytes) (i channel : Z) :
  length h = 44%nat →
  0 ≤ i < AudioBuffer.length buffer →
  0 ≤ channel < AudioBuffer.numberOfChannels buffer →
  field (44 + 2 * (i * AudioBuffer.numberOfChannels buffer + channel)) 2
        (h ++ pcm_data buffer)
  = le_bytes 2 (pcm16 (AudioBuffer.getChannelData buffer channel i)).
Proof.
  intros Hh Hi Hc. unfold field.
  set (C := AudioBuffer.numberOfChannels buffer) in *.
  replace (Z.to_nat (44 + 2 * (i * C + channel)))
    with (length h + (Z.to_nat i * (2 * Z.to_nat C) + Z.to_nat channel * 2))%nat.
  2:{ rewrite Hh. apply Nat2Z.inj.
      rewrite Z2Nat.id by nia.
      rewrite !Nat2Z.inj_add, !Nat2Z.inj_mul, !Z2Nat.id by lia.
      change (Z.of_nat 44) with 44. change (Z.of_nat 2) with 2. ring. }
  rewrite drop_app_add. rewrite <- drop_drop.
  rewrite take_drop_commute.
  assert (Hframe : take (2 * Z.to_nat C) (drop (Z.to_nat i * (2 * Z.to_nat C)) (pcm_data buffer))
                   = pcm_frame buffer i).
  { unfold pcm_data. apply flat_map_chunk.
    - intros y. apply length_pcm_frame.
    - rewrite lookup_seqZ. split; lia. }
  assert (Hle : (Z.to_nat channel * 2 + 2 ≤ 2 * Z.to_nat C)%nat) by lia.
  rewrite <- (Nat.min_l _ _ Hle), <- take_take, Hframe.
  rewrite <- take_drop_commute.
  unfold pcm_frame. fold C.
  apply (flat_map_chunk
           (fun channel => le_bytes 2 (pcm16 (AudioBuffer.getChannelData buffer channel i)))).
  - intros y. apply length_le_bytes.
  - rewrite lookup_seqZ. split; lia.
Qed.

(** Conversion of a finite sample. *)
Lemma Qle_bool_true a b : Qle_bool a b = true → (a <= b)%Q.
Proof. apply Qle_bool_iff. Qed.

Lemma sample_value_finite (x : Q) : sample_value (Num x) = Num (scale (clamp x)).
Proof.
  unfold sample_value, clamp, scale, Math_min, Math_max, js_lt, Qltb.
  destruct (Qle_bool 1 x) eqn:H1; cbn [negb].
  - destruct (Qle_bool x (-1)) eqn:H2.
    + apply Qle_bool_true in H1, H2.
      pose proof (Qle_trans _ _ _ H1 H2) as H. by compute in H.
    + reflexivity.
  - destruct (Qle_bool x (-1)) eqn:H2; cbn [negb]; [reflexivity|].
    by destruct (Qle_bool 0 x).
Qed.

Lemma clamp_range (x : Q) : (-1 <= clamp x <= 1)%Q.
Proof.
  unfold clamp.
  destruct (Qle_bool x (-1)) eqn:H1; [split; by compute|].
  destruct (Qle_bool 1 x) eqn:H2; [split; by compute|].
  split.
  - apply Qlt_le_weak, Qnot_le_lt. intros H. apply Qle_bool_iff in H. congruence.
  - apply Qlt_le_weak, Qnot_le_lt. intros H. apply Qle_bool_iff in H. congruence.
Qed.

Lemma Qtrunc_bounds (a b : Z) (x : Q) :
  (inject_Z a <= x <= inject_Z b)%Q → a ≤ Qtrunc x ≤ b.
Proof.
  destruct x as [n d]. unfold Qle, Qtrunc, inject_Z. cbn [Qnum Qden].
  intros [Ha Hb].
  pose proof (Z.quot_rem' n (Z.pos d)) as Hqr.
  pose proof (Pos2Z.is_pos d) as Hd.
  assert (Hr : - Z.pos d < Z.rem n (Z.pos d) < Z.pos d).
  { pose proof (Z.rem_bound_abs n (Z.pos d) ltac:(lia)). lia. }
  set (r := Z.rem n (Z.pos d)) in *. set (q := Z.quot n (Z.pos d)) in *.
  set (p := Z.pos d) in *. clearbody r q p. subst n. split.
  - assert (p * a < p * (q + 1)) by lia. nia.
  - assert (p * (q - 1) < p * b) by lia. nia.
Qed.

Lemma scale_clamp_range (x : Q) :
  (inject_Z (-32768) <= scale (clamp x) <= inject_Z 32767)%Q.
Proof.
  pose proof (clamp_range x) as [Hlo Hhi]. revert Hlo Hhi.
  generalize (clamp x). intros [n d]. unfold scale, Qltb.
  destruct (Qle_bool 0 (n # d)) eqn:H0.
  - apply Qle_bool_iff in H0. revert H0. cbn [negb].
    unfold Qle, Qmult, inject_Z. cbn [Qnum Qden]. intros. split; nia.
  - assert (H : (n # d < 0)%Q).
    { apply Qnot_le_lt. intros H. apply Qle_bool_iff in H. congruence. }
    revert H. cbn [negb]. unfold Qle, Qlt, Qmult, inject_Z. cbn [Qnum Qden].
    intros. split; nia.
Qed.

Lemma pcm16_finite (x : Q) : pcm16 (Num x) = Qtrunc (scale (clamp x)).
Proof.
  unfold pcm16. rewrite sample_value_finite. unfold ToInt16, ToIntegerOrZero.
  pose proof (Qtrunc_bounds _ _ _ (scale_clamp_range x)) as H.
  destruct (decide (0 ≤ Qtrunc (scale (clamp x)))).
  - rewrite Z.mod_small by lia. rewrite decide_True; lia.
  - replace (Qtrunc (scale (clamp x)) mod 2 ^ 16)
      with (Qtrunc (scale (clamp x)) + 2 ^ 16)
      by (apply Z.mod_unique with (q := -1); lia).
    rewrite decide_False; lia.
Qed.

End Serialisation.

(** ** The live graph *)

Section Graph.

Lemma disconnect_all_empty (g : Connections) : disconnect_all g = ∅.
Proof.
  apply leibniz_equiv. apply elem_of_equiv_empty. intros [a b].
  unfold disconnect_all, disconnect. rewrite !elem_of_filter. cbn [fst].
  destruct a; tauto.
Qed.

Lemma chain_connected : connect_chain ∅ = full_chain.
Proof. unfold connect_chain, connect, full_chain. apply leibniz_equiv. set_solver. Qed.

Lemma bypass_connected : connect SourceNode Destination ∅ = bypass_path.
Proof. unfold connect, bypass_path. apply leibniz_equiv. set_solver. Qed.

Lemma topologies_differ : bypass_path ≠ full_chain.
Proof.
  intros H. assert (Hin : (BassNode, ToStage MidNode) ∈ bypass_path).
  { rewrite H. unfold full_chain. set_solver. }
  unfold bypass_path in Hin. set_solver.
Qed.

(** On a populated record, a rewire is the six [disconnect()] calls
    followed by the [connect] calls of one topology. *)
Lemma connectAudioGraph_steps (b : bool) (s : State) :
  fully_populated (audioNodesRef s) →
  connectAudioGraph b s
  = set_connections
      (if b then connect SourceNode Destination (disconnect_all (connections s))
       else connect_chain (disconnect_all (connections s))) s.
Proof.
  intros (Hs & Hb & Hm & Ht & Hg & Hc & Hx). unfold connectAudioGraph.
  destruct (audioNodesRef s) as [so bf mf tf mg co cx]. cbn in *.
  destruct Hs as [so' Hs], Hb as [bf' Hb], Hm as [mf' Hm], Ht as [tf' Ht],
    Hg as [mg' Hg], Hc as [co' Hc], Hx as [cx' Hx].
  subst so bf mf tf mg co cx. cbv zeta. by destruct b.
Qed.

(** So it forgets the previous connections. *)
Lemma connectAudioGraph_populated (b : bool) (s : State) :
  fully_populated (audioNodesRef s) →
  connectAudioGraph b s = set_connections (topology b) s.
Proof.
  intros Hp. rewrite connectAudioGraph_steps by done.
  rewrite disconnect_all_empty. destruct b; cbn [topology].
  - by rewrite bypass_connected.
  - by rewrite chain_connected.
Qed.

Lemma connectAudioGraph_empty (b : bool) (s : State) :
  context (audioNodesRef s) = None → connectAudioGraph b s = s.
Proof.
  intros H. unfold connectAudioGraph.
  destruct (audioNodesRef s) as [so bf mf tf mg co cx]. cbn in *. subst cx.
  by repeat case_match.
Qed.

End Graph.

(** ** Reachable states *)

Section Reachable.

Context (platform : Platform).

Lemma run_app (s : State) (evs1 evs2 : list Event) :
  run platform s (evs1 ++ evs2)
  = let '(s1, shown1) := run platform s evs1 in
    let '(s2, shown2) := run platform s1 evs2 in
    (s2, shown1 ++ shown2).
Proof.
  revert s. induction evs1 as [|ev evs1 IH]; intros s.
  - cbn [app run]. by destruct (run platform s evs2).
  - cbn [app run]. destruct (step platform s ev) as [s' shown].
    rewrite IH. destruct (run platform s' evs1) as [s1 shown1].
    destruct (run platform s1 evs2) as [s2 shown2]. by rewrite app_assoc.
Qed.

Lemma run_app_state (s : State) (evs1 evs2 : list Event) :
  (run platform s (evs1 ++ evs2)).1
  = (run platform (run platform s evs1).1 evs2).1.
Proof.
  rewrite run_app. destruct (run platform s evs1) as [s1 shown1]. cbn [fst].
  by destruct (run platform s1 evs2).
Qed.

Lemma run_snoc_state (s : State) (evs : list Event) (ev : Event) :
  (run platform s (evs ++ [ev])).1 = (step platform (run platform s evs).1 ev).1.
Proof.
  rewrite run_app_state. cbn [run].
  by destruct (step platform (run platform s evs).1 ev).
Qed.

Lemma reachable_initial : reachable platform initial_state.
Proof. by exists []. Qed.

Lemma reachable_step (s : State) (ev : Event) :
  reachable platform s → reachable platform (step platform s ev).1.
Proof. intros [evs <-]. exists (evs ++ [ev]). apply run_snoc_state. Qed.

Lemma reachable_run (s : State) (evs : list Event) :
  reachable platform s → reachable platform (run platform s evs).1.
Proof.
  intros [evs0 <-]. exists (evs0 ++ evs). apply run_app_state.
Qed.

(** Induction over the events that lead to a state. *)
Lemma reachable_ind (P : State → Prop) :
  P initial_state →
  (∀ s ev, reachable platform s → P s → P (step platform s ev).1) →
  ∀ s, reachable platform s → P s.
Proof.
  intros Hinit Hstep s [evs <-].
  induction evs as [|ev evs IH] using rev_ind; [done|].
  rewrite run_snoc_state. apply Hstep; [by eexists | done].
Qed.

End Reachable.

(** ** The graph invariant *)

Section GraphInvariant.

Lemma graph_inv_frame (s s' : State) :
  audioNodesRef s' = audioNodesRef s → connections s' = connections s →
  graph_inv s → graph_inv s'.
Proof.
  unfold graph_inv, live_parameters. intros -> ->. done.
Qed.

Lemma graph_inv_applyEQSettings (e : EQSettings) (s : State) :
  graph_inv s → graph_inv (applyEQSettings e s).
Proof.
  unfold applyEQSettings. intros H.
  destruct (bassFilter (audioNodesRef s)) as [b|] eqn:Hb; [|done].
  destruct (midFilter (audioNodesRef s)) as [m|] eqn:Hm; [|done].
  destruct (trebleFilter (audioNodesRef s)) as [t|] eqn:Ht; [|done].
  destruct H as [[H _]|(Hp & Hl & Hc)].
  { rewrite H in Hb. done. }
  right. unfold fully_populated, live_parameters in *. cbn.
  destruct Hp as (? & ? & ? & ? & ? & ? & ?).
  destruct Hl as (b' & m' & t' & g & c & x & Hb' & Hm' & Ht' & Hg & Hco & Hx & Hfix).
  split_and!; eauto.
  exists (Biquad.set_gain (bass e) b), (Biquad.set_gain (mid e) m),
    (Biquad.set_gain (treble e) t), g, c, x.
  assert (b' = b) as -> by congruence. assert (m' = m) as -> by congruence.
  assert (t' = t) as -> by congruence.
  split_and!; done.
Qed.

Lemma graph_inv_connectAudioGraph (b : bool) (s : State) :
  graph_inv s → graph_inv (connectAudioGraph b s).
Proof.
  intros [[H1 H2]|(Hp & Hl & Hc)].
  - rewrite connectAudioGraph_empty; [by left | by rewrite H1].
  - rewrite connectAudioGraph_populated by done.
    right. split_and!; [done | done |]. cbn. destruct b; auto.
Qed.

Lemma graph_inv_set_context_state (v : AudioContextState) (s : State) :
  graph_inv s → graph_inv (set_context_state v s).
Proof.
  intros [[H1 H2]|(Hp & Hl & Hc)].
  - left. unfold set_context_state. rewrite H1. done.
  - right. unfold fully_populated, live_parameters in *. cbn.
    destruct Hl as (b & m & t & g & c & x & Hb & Hm & Ht & Hg & Hco & Hx & Hfix).
    destruct Hp as (? & ? & ? & ? & ? & ? & ?). rewrite Hx. cbn.
    split_and!; eauto. exists b, m, t, g, c. eexists. split_and!; done.
Qed.

Lemma graph_inv_initializeAudioContext (fresh : option AudioContext) (s : State) :
  graph_inv s → graph_inv (initializeAudioContext fresh s).
Proof.
  intros H. unfold initializeAudioContext.
  repeat case_match; try done.
  rewrite connectAudioGraph_populated.
  2:{ cbn. unfold fully_populated. cbn. split_and!; eauto. }
  right. cbn. unfold fully_populated, live_parameters, chain_parameters. cbn.
  split_and!; eauto.
  do 6 eexists. split_and!; reflexivity.
Qed.

End GraphInvariant.

(** ** Properties of the graph that every event preserves *)

(** A property of the nodes, their connections and the bypass flag is an
    invariant of [step] as soon as the four operations that write to them
    preserve it. *)
Section GraphProperty.

Context (platform : Platform).
Variable I : State → Prop.
Hypothesis I_frame : ∀ s s',
  audioNodesRef s' = audioNodesRef s → connections s' = connections s →
  bypass s' = bypass s → I s → I s'.
Hypothesis I_applyEQSettings : ∀ e s, I s → I (applyEQSettings e s).
Hypothesis I_toggleBypass : ∀ s, I s → I (toggleBypass s).
Hypothesis I_set_context_state : ∀ v s, I s → I (set_context_state v s).
Hypothesis I_initializeAudioContext : ∀ fresh s, I s → I (initializeAudioContext fresh s).

(** A setter of a field other than the nodes and their connections. *)
Ltac frame :=
  match goal with
  | |- I (?f ?v ?s) =>
      apply (I_frame s (f v s)); [reflexivity | reflexivity | reflexivity |]
  end.

Local Hint Extern 1 (I _) => frame : core.
Local Hint Resolve I_applyEQSettings I_set_context_state
  I_initializeAudioContext : core.

Lemma property_togglePlayPause (o : PlayOracle) (s : State) :
  I s → I (togglePlayPause o s).
Proof.
  intros H. unfold togglePlayPause. destruct (audioRef s); [|done].
  pose proof (I_initializeAudioContext (newContext o) s H) as H1.
  revert H1. generalize (initializeAudioContext (newContext o) s). intros s1 H1.
  unfold try_bind, attempt, resume, play, pause, default.
  repeat case_match; simplify_eq; eauto 10.
Qed.

Lemma property_handleFileUpload (file : option File) (s : State) :
  I s → I (handleFileUpload file s).
Proof.
  intros H. unfold handleFileUpload, createObjectURL, revokeObjectURL.
  repeat case_match; simplify_eq; eauto 10.
Qed.

Lemma saveAudio_same_graph (s : State) :
  audioNodesRef (saveAudio platform s).1 = audioNodesRef s ∧
  connections (saveAudio platform s).1 = connections s ∧
  bypass (saveAudio platform s).1 = bypass s.
Proof.
  unfold saveAudio, createObjectURL, revokeObjectURL.
  repeat case_match; simplify_eq; done.
Qed.

Lemma property_step (s : State) (ev : Event) : I s → I (step platform s ev).1.
Proof.
  intros H. unfold step.
  destruct (audioRef s) as [el|] eqn:Hel; [|done].
  destruct ev; cbn [fst];
    try (destruct (decide (currentFile s = "")); cbn [fst]; [done|]).
  - by apply property_handleFileUpload.
  - by apply property_togglePlayPause.
  - unfold stopAudio. rewrite Hel. eauto 10.
  - by apply I_toggleBypass.
  - unfold resumeAudio, resume, default.
    repeat case_match; simplify_eq; cbn [fst]; eauto 10.
  - destruct (saveAudio_same_graph s) as (? & ? & ?). by eapply I_frame.
  - unfold setGain, updateEQValue. cbv zeta. eauto 10.
  - unfold reset, resetEQ. cbv zeta. eauto 10.
  - unfold pause. case_match; cbn [fst]; eauto 10.
  - by case_match.
  - unfold unmount, revokeObjectURL. case_match; eauto 10.
Qed.

Lemma property_run (s : State) (evs : list Event) :
  I s → I (run platform s evs).1.
Proof.
  revert s. induction evs as [|ev evs IH]; intros s H; [done|].
  cbn [run]. pose proof (property_step s ev H) as H1.
  destruct (step platform s ev) as [s1 shown1]. specialize (IH s1 H1).
  by destruct (run platform s1 evs).
Qed.

End GraphProperty.

Section GraphInvariantStep.

Context (platform : Platform).

Lemma graph_inv_initial : graph_inv initial_state.
Proof. by left. Qed.

Lemma graph_inv_toggleBypass (s : State) : graph_inv s → graph_inv (toggleBypass s).
Proof.
  intros H. unfold toggleBypass. cbv zeta. apply graph_inv_connectAudioGraph.
  by apply (graph_inv_frame s).
Qed.

Lemma graph_inv_step (s : State) (ev : Event) :
  graph_inv s → graph_inv (step platform s ev).1.
Proof.
  apply property_step.
  - intros s0 s' Hn Hc _. by apply graph_inv_frame.
  - apply graph_inv_applyEQSettings.
  - apply graph_inv_toggleBypass.
  - apply graph_inv_set_context_state.
  - apply graph_inv_initializeAudioContext.
Qed.

Lemma reachable_graph_inv (s : State) : reachable platform s → graph_inv s.
Proof.
  apply reachable_ind; [apply graph_inv_initial|].
  intros. by apply graph_inv_step.
Qed.

Lemma connectAudioGraph_nodes (b : bool) (s : State) :
  audioNodesRef s = audioNodesRef (connectAudioGraph b s).
Proof. unfold connectAudioGraph. by repeat case_match. Qed.

(** Once a context exists, it stays. *)
Lemma has_context_run (s : State) (evs : list Event) :
  is_Some (context (audioNodesRef s)) →
  is_Some (context (audioNodesRef (run platform s evs).1)).
Proof.
  apply (property_run platform
           (fun s => is_Some (context (audioNodesRef s)))).
  - by intros ?? -> _ _.
  - intros e s0 [c H]. unfold applyEQSettings.
    repeat case_match; cbn; rewrite ?H; by eexists.
  - intros s0 H. unfold toggleBypass. cbv zeta.
    by rewrite <- connectAudioGraph_nodes.
  - intros v s0 [c H]. unfold set_context_state. cbn. rewrite H. by eexists.
  - intros fresh s0 [c H]. unfold initializeAudioContext. rewrite H.
    case_match; by eexists.
Qed.

Lemma reachable_populated (s : State) :
  reachable platform s → is_Some (context (audioNodesRef s)) →
  fully_populated (audioNodesRef s).
Proof.
  intros Hs Hc. destruct (reachable_graph_inv s Hs) as [[Hn _]|(Hp & _)]; [|done].
  rewrite Hn in Hc. by destruct Hc.
Qed.

Lemma reachable_all_or_nothing (s : State) :
  reachable platform s →
  fully_populated (audioNodesRef s) ∨ fully_empty (audioNodesRef s).
Proof.
  intros Hs. destruct (reachable_graph_inv s Hs) as [[Hn _]|(Hp & _)]; [|by left].
  right. rewrite Hn. done.
Qed.

Lemma no_nodes_not_populated : ¬ fully_populated no_nodes.
Proof. by intros [[? ?] _]. Qed.

Lemma applyEQSettings_empty (e : EQSettings) (s : State) :
  audioNodesRef s = no_nodes → applyEQSettings e s = s.
Proof. intros H. unfold applyEQSettings. by rewrite H. Qed.

Lemma set_context_state_empty (v : AudioContextState) (s : State) :
  audioNodesRef s = no_nodes → audioNodesRef (set_context_state v s) = no_nodes.
Proof. intros H. unfold set_context_state. by rewrite H. Qed.

(** The wiring agrees with the flag whenever bypass is off. *)
Lemma wiring_step (s : State) (ev : Event) :
  graph_inv s ∧ enhanced_inv s →
  graph_inv (step platform s ev).1 ∧ enhanced_inv (step platform s ev).1.
Proof.
  apply (property_step platform (fun s => graph_inv s ∧ enhanced_inv s)).
  - intros s0 s' Hn Hc Hb [Hg He]. split; [by apply (graph_inv_frame s0)|].
    unfold enhanced_inv. by rewrite Hn, Hc, Hb.
  - intros e s0 [Hg He]. split; [by apply graph_inv_applyEQSettings|].
    intros Hp Hb. destruct Hg as [[Hn _]|(Hp0 & _)].
    + rewrite applyEQSettings_empty, Hn in Hp by done.
      by apply no_nodes_not_populated in Hp.
    + replace (connections (applyEQSettings e s0)) with (connections s0)
        by (unfold applyEQSettings; by repeat case_match).
      apply He; [done|]. revert Hb. unfold applyEQSettings. by repeat case_match.
  - intros s0 [Hg He]. split; [by apply graph_inv_toggleBypass|].
    intros Hp Hb. unfold toggleBypass in *. cbv zeta in *.
    rewrite <- connectAudioGraph_nodes in Hp. cbn in Hp.
    rewrite connectAudioGraph_populated in Hb |- * by done.
    cbn in Hb |- *. by rewrite Hb.
  - intros v s0 [Hg He]. split; [by apply graph_inv_set_context_state|].
    intros Hp Hb. destruct Hg as [[Hn _]|(Hp0 & _)].
    + rewrite set_context_state_empty in Hp by done.
      by apply no_nodes_not_populated in Hp.
    + by apply He.
  - intros fresh s0 [Hg He]. split; [by apply graph_inv_initializeAudioContext|].
    unfold initializeAudioContext.
    destruct (audioRef s0); [|done].
    destruct (context (audioNodesRef s0)); [done|].
    destruct fresh as [c|]; [|done].
    cbv zeta. intros _ _.
    rewrite connectAudioGraph_populated; [done|].
    unfold fully_populated. cbn. split_and!; by eexists.
Qed.

Lemma reachable_enhanced (s : State) :
  reachable platform s → fully_populated (audioNodesRef s) → bypass s = false →
  connections s = full_chain.
Proof.
  intros Hs. assert (H : graph_inv s ∧ enhanced_inv s); [|by destruct H].
  revert s Hs. apply reachable_ind.
  - split; [apply graph_inv_initial|].
    intros Hp. by apply no_nodes_not_populated in Hp.
  - intros s ev _. apply wiring_step.
Qed.

End GraphInvariantStep.

(** ** Lazy construction of the graph *)

Section LazyInit.

Context (platform : Platform).

Lemma initializeAudioContext_noop (fresh : option AudioContext) (s : State) :
  is_Some (context (audioNodesRef s)) → initializeAudioContext fresh s = s.
Proof.
  intros [c H]. unfold initializeAudioContext. rewrite H. by case_match.
Qed.

Lemma initializeAudioContext_context (audioContext : AudioContext) (s : State) :
  is_Some (audioRef s) →
  is_Some (context (audioNodesRef (initializeAudioContext (Some audioContext) s))).
Proof.
  intros [el Hel]. unfold initializeAudioContext. rewrite Hel.
  destruct (context (audioNodesRef s)) eqn:Hc; [by rewrite Hc|].
  cbv zeta. rewrite <- connectAudioGraph_nodes. by eexists.
Qed.

(** What [togglePlayPause] does after [initializeAudioContext] keeps the
    context. *)
Lemma togglePlayPause_context (o : PlayOracle) (s : State) :
  is_Some (audioRef s) →
  is_Some (context (audioNodesRef (togglePlayPause o s)))
  ↔ is_Some (context (audioNodesRef (initializeAudioContext (newContext o) s))).
Proof.
  intros [el Hel]. unfold togglePlayPause. rewrite Hel.
  generalize (initializeAudioContext (newContext o) s). intros s1.
  unfold try_bind, attempt, resume, play, pause, default, set_context_state.
  repeat case_match; simplify_eq; cbn; rewrite ?fmap_is_Some; done.
Qed.

Lemma togglePlayPause_creates (o : PlayOracle) (audioContext : AudioContext) (s : State) :
  is_Some (audioRef s) → newContext o = Some audioContext →
  is_Some (context (audioNodesRef (togglePlayPause o s))).
Proof.
  intros Hel Ho. rewrite togglePlayPause_context by done. rewrite Ho.
  by apply initializeAudioContext_context.
Qed.

Lemma fully_empty_no_context (n : AudioNodes) : fully_empty n → context n = None.
Proof. by intros (_ & _ & _ & _ & _ & _ & H). Qed.

Lemma fully_populated_context (n : AudioNodes) :
  fully_populated n → is_Some (context n).
Proof. by intros (_ & _ & _ & _ & _ & _ & H). Qed.

(** Only a click on the play button whose constructors succeed gives the
    record a context. *)
Lemma step_creates (s : State) (ev : Event) :
  fully_empty (audioNodesRef s) →
  is_Some (context (audioNodesRef (step platform s ev).1)) →
  ∃ o audioContext,
    ev = PlayPauseClicked o ∧ newContext o = Some audioContext ∧
    is_Some (audioRef s) ∧ currentFile s ≠ "".
Proof.
  intros Hempty Hsome.
  pose proof (fully_empty_no_context _ Hempty) as Hnone.
  assert (Hbass : bassFilter (audioNodesRef s) = None) by apply Hempty.
  assert (Hkeep : ∀ s', audioNodesRef s' = audioNodesRef s →
                        ¬ is_Some (context (audioNodesRef s'))).
  { intros s' ->. rewrite Hnone. by intros [? ?]. }
  revert Hsome. unfold step.
  destruct (audioRef s) as [el|] eqn:Hel; [|intros H; by apply Hkeep in H].
  assert (Hkeep' : ∀ s', audioNodesRef s' = audioNodesRef s →
                         is_Some (context (audioNodesRef s')) →
                         ∃ o audioContext,
                           ev = PlayPauseClicked o ∧ newContext o = Some audioContext ∧
                           is_Some (Some el) ∧ currentFile s ≠ "").
  { intros s' Heq H. by apply Hkeep in H. }
  destruct ev; cbn [fst];
    try (destruct (decide (currentFile s = "")) as [Hcf|Hcf]; cbn [fst];
         [by apply Hkeep'|]).
  - apply Hkeep'. unfold handleFileUpload, createObjectURL, revokeObjectURL.
    by repeat case_match.
  - intros H. rewrite togglePlayPause_context in H by (by rewrite Hel).
    destruct (newContext o) as [c|] eqn:Ho.
    + exists o, c. split_and!; done.
    + exfalso. revert H. apply Hkeep.
      unfold initializeAudioContext. by rewrite Hel, Hnone.
  - apply Hkeep'. unfold stopAudio. by rewrite Hel.
  - apply Hkeep'. unfold toggleBypass. cbv zeta. by rewrite <- connectAudioGraph_nodes.
  - apply Hkeep'. unfold resumeAudio, context_suspended. rewrite Hnone.
    by case_match.
  - apply Hkeep'. apply saveAudio_same_graph.
  - apply Hkeep'. unfold setGain, applyEQSettings, updateEQValue. cbn. by rewrite Hbass.
  - apply Hkeep'. unfold reset, applyEQSettings, resetEQ. cbn. by rewrite Hbass.
  - apply Hkeep'. unfold pause. by case_match.
  - apply Hkeep'. by case_match.
  - apply Hkeep'. unfold unmount, revokeObjectURL. by case_match.
Qed.

(** The states along a run: a later prefix extends an earlier one. *)
Lemma run_take_le (evs : list Event) (i j : nat) :
  (i ≤ j)%nat →
  (run platform initial_state (take j evs)).1
  = (run platform (run platform initial_state (take i evs)).1
       (drop i (take j evs))).1.
Proof.
  intros Hij. rewrite <- run_app_state. f_equal. f_equal.
  rewrite <- (take_drop i (take j evs)) at 1. f_equal.
  rewrite take_take. f_equal. lia.
Qed.

Lemma context_kept (evs : list Event) (i j : nat) :
  (i ≤ j)%nat →
  is_Some (context (audioNodesRef (run platform initial_state (take i evs)).1)) →
  is_Some (context (audioNodesRef (run platform initial_state (take j evs)).1)).
Proof.
  intros Hij H. rewrite (run_take_le evs i j Hij). by apply has_context_run.
Qed.

Lemma created_at_unique (evs : list Event) (i j : nat) :
  created_at platform evs i → created_at platform evs j → i = j.
Proof.
  assert (Hlt : ∀ i j, created_at platform evs i → created_at platform evs j →
                       ¬ (i < j)%nat).
  { clear i j. intros i j [_ Hi] [Hj _] Hij.
    apply fully_populated_context in Hi. apply fully_empty_no_context in Hj.
    apply (context_kept evs (S i) j) in Hi; [|lia].
    rewrite Hj in Hi. by destruct Hi. }
  intros Hi Hj. pose proof (Hlt i j Hi Hj). pose proof (Hlt j i Hj Hi). lia.
Qed.

Lemma created_at_attempt (evs : list Event) (i : nat) :
  created_at platform evs i →
  ∃ o audioContext,
    playback_attempt platform evs i o ∧ newContext o = Some audioContext ∧
    ∀ j o', (j < i)%nat → playback_attempt platform evs j o' → newContext o' = None.
Proof.
  intros [Hempty' Hpop].
  pose proof (fully_empty_no_context _ Hempty') as Hempty.
  apply fully_populated_context in Hpop.
  destruct (evs !! i) as [ev|] eqn:Hev.
  2:{ apply lookup_ge_None in Hev.
      rewrite !take_ge in Hpop, Hempty by lia. rewrite Hempty in Hpop.
      by destruct Hpop. }
  rewrite (take_S_r _ _ _ Hev), run_snoc_state in Hpop.
  destruct (step_creates _ _ Hempty' Hpop) as (o & c & -> & Ho & Hel & Hcf).
  exists o, c. split_and!; [done..|].
  intros j o' Hj (Hev' & Hel' & Hcf').
  destruct (newContext o') as [c'|] eqn:Ho'; [exfalso|done].
  assert (Hs : is_Some (context (audioNodesRef
                 (run platform initial_state (take (S j) evs)).1))).
  { rewrite (take_S_r _ _ _ Hev'), run_snoc_state. unfold step.
    destruct Hel' as [el' Hel']. rewrite Hel'.
    rewrite decide_False by done. cbn [fst].
    eapply togglePlayPause_creates; [by rewrite Hel' | done]. }
  apply (context_kept evs (S j) i) in Hs; [|lia]. rewrite Hempty in Hs.
  by destruct Hs.
Qed.

End LazyInit.

(** ** Blob URLs *)

Section Urls.

Context (platform : Platform).

Lemma created_snoc_created (log : list UrlEvent) (u : Url) :
  created (log ++ [Created u]) = created log ++ [u].
Proof. unfold created. by rewrite omap_app. Qed.

Lemma created_snoc_revoked (log : list UrlEvent) (u : Url) :
  created (log ++ [Revoked u]) = created log.
Proof. unfold created. rewrite omap_app. cbn. by rewrite app_nil_r. Qed.

Lemma revoked_snoc_created (log : list UrlEvent) (u : Url) :
  revoked (log ++ [Created u]) = revoked log.
Proof. unfold revoked. rewrite omap_app. cbn. by rewrite app_nil_r. Qed.

Lemma revoked_snoc_revoked (log : list UrlEvent) (u : Url) :
  revoked (log ++ [Revoked u]) = revoked log ++ [u].
Proof. unfold revoked. by rewrite omap_app. Qed.

Lemma unreleased_snoc_created (log : list UrlEvent) (u : Url) :
  u ∉ revoked log → unreleased (log ++ [Created u]) = unreleased log ++ [u].
Proof.
  intros Hu. unfold unreleased.
  rewrite created_snoc_created, revoked_snoc_created, filter_app.
  by rewrite (filter_cons_True _ u []).
Qed.

Lemma unreleased_snoc_revoked (log : list UrlEvent) (u : Url) :
  unreleased (log ++ [Revoked u]) = filter (fun x => x ≠ u) (unreleased log).
Proof.
  unfold unreleased. rewrite created_snoc_revoked, revoked_snoc_revoked.
  rewrite list_filter_filter. apply list_filter_iff. intros x.
  rewrite not_elem_of_app, list_elem_of_singleton. tauto.
Qed.

Lemma filter_ne_fresh (l : list Url) (u : Url) :
  u ∉ l → filter (fun x => x ≠ u) l = l.
Proof.
  induction l as [|x l IH]; intros Hu; [done|].
  rewrite not_elem_of_cons in Hu. destruct Hu as [Hne Hu].
  rewrite filter_cons_True by done. by rewrite IH.
Qed.

Lemma unreleased_created (log : list UrlEvent) (u : Url) :
  u ∈ unreleased log → u ∈ created log ∧ u ∉ revoked log.
Proof. unfold unreleased. rewrite list_elem_of_filter. tauto. Qed.

Lemma registry_ok_create (log : list UrlEvent) (next : Url) :
  registry_ok log next →
  registry_ok (log ++ [Created next]) (S next) ∧
  (next ∉ created log) ∧
  unreleased (log ++ [Created next]) = unreleased log ++ [next].
Proof.
  intros (Hc & Hr & Hlt & Hsub).
  assert (Hfresh : next ∉ created log).
  { intros H. apply Hlt in H. lia. }
  assert (Hfresh' : next ∉ revoked log) by (intros H; by apply Hsub in H).
  unfold registry_ok.
  rewrite created_snoc_created, revoked_snoc_created.
  rewrite unreleased_snoc_created by done.
  split_and!; try done.
  - apply NoDup_app. split_and!; [done | | apply NoDup_singleton].
    intros x Hx. rewrite list_elem_of_singleton. by intros ->.
  - intros u. rewrite elem_of_app, list_elem_of_singleton.
    intros [H| ->]; [apply Hlt in H|]; lia.
  - intros u Hu. apply elem_of_app. left. by apply Hsub.
Qed.

Lemma registry_ok_revoke (log : list UrlEvent) (next u : Url) :
  registry_ok log next → u ∈ unreleased log →
  registry_ok (log ++ [Revoked u]) next ∧
  (u ∉ revoked log) ∧
  unreleased (log ++ [Revoked u]) = filter (fun x => x ≠ u) (unreleased log).
Proof.
  intros (Hc & Hr & Hlt & Hsub) Hin.
  apply unreleased_created in Hin. destruct Hin as [Hin Hnot].
  unfold registry_ok.
  rewrite created_snoc_revoked, revoked_snoc_revoked, unreleased_snoc_revoked.
  split_and!; try done.
  - apply NoDup_app. split_and!; [done | | apply NoDup_singleton].
    intros x Hx. rewrite list_elem_of_singleton. by intros ->.
  - intros x. rewrite elem_of_app, list_elem_of_singleton.
    intros [H| ->]; [by apply Hsub | done].
Qed.

Lemma url_inv_initial : url_inv initial_state.
Proof.
  unfold url_inv, registry_ok. cbn. split_and!.
  - apply NoDup_nil_2.
  - apply NoDup_nil_2.
  - intros u Hu. by apply elem_of_nil in Hu.
  - done.
  - done.
Qed.

(** The same registry, the same ref, the component still mounted. *)
Lemma url_inv_frame (s s' : State) :
  urlLog s' = urlLog s → nextUrl s' = nextUrl s →
  objectUrlRef s' = objectUrlRef s →
  (is_Some (audioRef s') ↔ is_Some (audioRef s)) →
  url_inv s → url_inv s'.
Proof.
  unfold url_inv. intros -> -> -> Hel H.
  replace (match audioRef s' with Some _ => option_list (objectUrlRef s) | None => [] end)
    with (match audioRef s with Some _ => option_list (objectUrlRef s) | None => [] end);
    [done|].
  destruct (audioRef s), (audioRef s'); try done.
  - destruct Hel as [_ Hel]. by destruct Hel.
  - destruct Hel as [Hel _]. by destruct Hel.
Qed.

(** A load releases the previous URL, if there is one, and then creates
    the new one. *)
Lemma handleFileUpload_urls (file : File) (s : State) :
  url_inv s → is_Some (audioRef s) →
  url_inv (handleFileUpload (Some file) s) ∧
  urlLog (handleFileUpload (Some file) s)
  = urlLog s ++ match objectUrlRef s with
                | Some previous => [Revoked previous; Created (nextUrl s)]
                | None => [Created (nextUrl s)]
                end ∧
  objectUrlRef (handleFileUpload (Some file) s) = Some (nextUrl s) ∧
  unreleased (urlLog (handleFileUpload (Some file) s)) = [nextUrl s].
Proof.
  intros [Hok Hun] [el Hel]. unfold handleFileUpload. rewrite Hel in *.
  unfold url_inv, createObjectURL, revokeObjectURL.
  destruct (objectUrlRef s) as [previous|] eqn:Hprev;
    cbn -[created revoked unreleased registry_ok] in *;
    rewrite ?Hel; cbn -[created revoked unreleased registry_ok].
  - assert (Hin : previous ∈ unreleased (urlLog s)) by (rewrite Hun; by left).
    destruct (registry_ok_revoke _ _ _ Hok Hin) as (Hok1 & Hnot & Hun1).
    rewrite Hun in Hun1. rewrite (filter_cons_False _ previous []) in Hun1
      by (by intros ?).
    destruct (registry_ok_create _ _ Hok1) as (Hok2 & Hfresh & Hun2).
    rewrite Hun1 in Hun2. rewrite <- app_assoc. cbn [app].
    rewrite <- app_assoc in Hok2, Hun2. cbn [app] in Hok2, Hun2.
    split_and!; done.
  - destruct (registry_ok_create _ _ Hok) as (Hok2 & Hfresh & Hun2).
    rewrite Hun in Hun2. split_and!; done.
Qed.

(** A successful export creates a URL for the blob and releases it at
    once; a failed one leaves the registry alone. *)
Lemma saveAudio_urls (s : State) :
  url_inv s → url_inv (saveAudio platform s).1.
Proof.
  intros Hinv. pose proof Hinv as [Hok Hun]. unfold saveAudio.
  destruct (audioRef s) as [el|] eqn:Hel; [|done].
  destruct (context (audioNodesRef s)) as [c|]; [|done].
  case_match; [|done].
  unfold url_inv, createObjectURL, revokeObjectURL.
  cbn -[created revoked unreleased registry_ok]. rewrite Hel.
  destruct (registry_ok_create _ _ Hok) as (Hok1 & Hfresh & Hun1).
  assert (Hin : nextUrl s ∈ unreleased (urlLog s ++ [Created (nextUrl s)])).
  { rewrite Hun1. apply elem_of_app. right. by left. }
  destruct (registry_ok_revoke _ _ _ Hok1 Hin) as (Hok2 & Hnot & Hun2).
  split; [done|]. rewrite Hun2, Hun1, filter_app.
  rewrite (filter_cons_False _ (nextUrl s) []) by (by intros ?).
  rewrite app_nil_r, <- Hun. apply filter_ne_fresh.
  intros Hx. apply unreleased_created in Hx. by destruct Hx.
Qed.

(** The unmount releases the URL of the loaded file. *)
Lemma unmount_urls (s : State) :
  url_inv s → is_Some (audioRef s) →
  url_inv (unmount s) ∧ unreleased (urlLog (unmount s)) = [].
Proof.
  intros [Hok Hun] [el Hel]. unfold unmount, url_inv, revokeObjectURL.
  rewrite Hel in Hun.
  destruct (objectUrlRef s) as [u|] eqn:Hu;
    cbn -[created revoked unreleased registry_ok] in *.
  - assert (Hin : u ∈ unreleased (urlLog s)) by (rewrite Hun; by left).
    destruct (registry_ok_revoke _ _ _ Hok Hin) as (Hok1 & Hnot & Hun1).
    rewrite Hun in Hun1. rewrite (filter_cons_False _ u []) in Hun1
      by (by intros ?).
    done.
  - done.
Qed.

Lemma kept_refl (s : State) : kept s s.
Proof. by unfold kept. Qed.

Lemma kept_trans (s1 s2 s3 : State) : kept s1 s2 → kept s2 s3 → kept s1 s3.
Proof.
  unfold kept. intros (-> & -> & -> & -> & -> & -> & ->) H. exact H.
Qed.

Lemma kept_resume (ok : bool) (s s' : State) : resume ok s = Some s' → kept s s'.
Proof. unfold resume. destruct ok; [|done]. by intros [= <-]. Qed.

Lemma kept_play (ok : bool) (s s' : State) : play ok s = Some s' → kept s s'.
Proof.
  unfold play. destruct ok; [|done]. intros [= <-].
  unfold kept. cbn. split_and!; try done. by destruct (audioRef s).
Qed.

Lemma kept_pause (s : State) : kept s (pause s).
Proof.
  unfold pause, kept. cbn. split_and!; try done. by destruct (audioRef s).
Qed.

Lemma kept_initializeAudioContext (fresh : option AudioContext) (s : State) :
  kept s (initializeAudioContext fresh s).
Proof.
  unfold initializeAudioContext, connectAudioGraph.
  destruct (audioRef s) as [el|] eqn:Hel; [|apply kept_refl].
  unfold kept. repeat case_match; simplify_eq; cbn; rewrite ?Hel; done.
Qed.

Lemma kept_catch (ok : bool) (s : State) :
  kept s (if context_suspended s then default s (resume ok s) else s).
Proof.
  destruct (context_suspended s); [|apply kept_refl].
  destruct (resume ok s) eqn:H; [|apply kept_refl]. by apply kept_resume in H.
Qed.

(** What [togglePlayPause] leaves alone. *)
Lemma togglePlayPause_frame (o : PlayOracle) (s : State) :
  kept s (togglePlayPause o s).
Proof.
  unfold togglePlayPause. destruct (audioRef s) as [el|] eqn:Hel; [|apply kept_refl].
  eapply kept_trans; [apply (kept_initializeAudioContext (newContext o))|].
  generalize (initializeAudioContext (newContext o) s). intros s1.
  unfold try_bind, attempt.
  assert (Hresume : ∃ s2, kept s1 s2 ∧
            ((if context_suspended s1
              then match resume (resumeOk o) s1 with
                   | Some s' => Running s' | None => Thrown s1 end
              else Running s1) = Running s2 ∨
             (if context_suspended s1
              then match resume (resumeOk o) s1 with
                   | Some s' => Running s' | None => Thrown s1 end
              else Running s1) = Thrown s2)).
  { destruct (context_suspended s1).
    - destruct (resume (resumeOk o) s1) as [s2|] eqn:H.
      + exists s2. split; [by apply kept_resume in H | by left].
      + exists s1. split; [apply kept_refl | by right].
    - exists s1. split; [apply kept_refl | by left]. }
  destruct Hresume as (s2 & H12 & [-> | ->]).
  - eapply kept_trans; [exact H12|].
    destruct (audioRef s2) as [el2|]; [|apply kept_catch].
    destruct (paused el2).
    + destruct (play (playOk o) s2) as [s3|] eqn:H; [by apply kept_play in H|].
      apply kept_catch.
    + apply kept_pause.
  - eapply kept_trans; [exact H12|]. apply kept_catch.
Qed.

Lemma fmap_src_is_Some (a b : option HTMLAudioElement) :
  src <$> a = src <$> b → (is_Some a ↔ is_Some b).
Proof. destruct a, b; cbn; try done. all: split; by eauto. Qed.

Lemma url_inv_step (s : State) (ev : Event) :
  url_inv s → url_inv (step platform s ev).1.
Proof.
  intros H. unfold step.
  destruct (audioRef s) as [el|] eqn:Hel; [|done].
  assert (Hmounted : is_Some (audioRef s)) by (by rewrite Hel).
  destruct ev; cbn [fst];
    try (destruct (decide (currentFile s = "")); cbn [fst]; [done|]).
  - destruct file as [file|]; [|done]. by apply handleFileUpload_urls.
  - destruct (togglePlayPause_frame o s) as (? & ? & ? & _ & _ & _ & Hsrc).
    apply fmap_src_is_Some in Hsrc. by eapply url_inv_frame.
  - unfold stopAudio. rewrite Hel.
    eapply url_inv_frame; [..|done]; first [done | by cbn; rewrite Hel].
  - eapply url_inv_frame; [..|done]; unfold toggleBypass, connectAudioGraph;
      repeat case_match; done.
  - unfold resumeAudio, resume, default, set_context_state.
    eapply url_inv_frame; [..|done]; repeat case_match; simplify_eq; done.
  - by apply saveAudio_urls.
  - eapply url_inv_frame; [..|done]; unfold setGain, applyEQSettings, updateEQValue;
      repeat case_match; done.
  - eapply url_inv_frame; [..|done]; unfold reset, applyEQSettings, resetEQ;
      repeat case_match; done.
  - case_match; cbn [fst]; [done|].
    eapply url_inv_frame; [..|done]; first [done | by cbn; rewrite Hel].
  - by case_match.
  - by apply unmount_urls.
Qed.

Lemma reachable_url_inv (s : State) : reachable platform s → url_inv s.
Proof.
  apply reachable_ind; [apply url_inv_initial|].
  intros. by apply url_inv_step.
Qed.

End Urls.

(** ** A file is loaded before anything else happens *)

Section FileLoaded.

Context (platform : Platform).

Lemma file_inv_initial : file_inv initial_state.
Proof.
  unfold file_inv. cbn. split_and!; [done | by intros [? ?] |].
  by intros el [= <-].
Qed.

Lemma file_inv_frame (s s' : State) :
  objectUrlRef s' = objectUrlRef s → currentFile s' = currentFile s →
  (is_Some (context (audioNodesRef s')) → is_Some (context (audioNodesRef s))) →
  src <$> audioRef s' = src <$> audioRef s →
  file_inv s → file_inv s'.
Proof.
  unfold file_inv. intros -> -> Hctx Hsrc (H1 & H2 & H3). split_and!; [done|auto|].
  intros el' Hel'. rewrite Hel' in Hsrc.
  destruct (audioRef s) as [el|]; [|done]. cbn in Hsrc.
  injection Hsrc as ->. by apply H3.
Qed.

Lemma file_inv_handleFileUpload (file : option File) (s : State) :
  file_inv s → file_inv (handleFileUpload file s).
Proof.
  intros H. unfold handleFileUpload.
  destruct file as [file|]; [|done].
  destruct (audioRef s) as [el|] eqn:Hel; [|done].
  unfold file_inv, createObjectURL, revokeObjectURL.
  destruct (objectUrlRef s); cbn; rewrite Hel; cbn;
    (split_and!; [by eexists | by eexists | by intros ? [= <-]]).
Qed.

Lemma file_inv_togglePlayPause (o : PlayOracle) (s : State) :
  currentFile s ≠ "" → file_inv s → file_inv (togglePlayPause o s).
Proof.
  intros Hcf H. destruct (togglePlayPause_frame o s) as (_ & _ & Hu & Hc & _ & _ & Hsrc).
  pose proof H as (H1 & H2 & H3).
  unfold file_inv. rewrite Hu, Hc. split_and!; [done | by auto |].
  intros el' Hel'. rewrite Hel' in Hsrc.
  destruct (audioRef s) as [el|]; [|done]. cbn in Hsrc.
  injection Hsrc as ->. by apply H3.
Qed.

(** [saveAudio] only ever touches the blob URL registry. *)
Lemma saveAudio_session (s : State) :
  session_untouched s (saveAudio platform s).1.
Proof.
  unfold saveAudio, session_untouched.
  destruct (audioRef s) as [el|] eqn:Hel; [|cbn; by rewrite ?Hel].
  destruct (context (audioNodesRef s)) as [c|] eqn:Hc; [|cbn; by rewrite ?Hel].
  case_match; [|cbn; by rewrite ?Hel].
  unfold createObjectURL, revokeObjectURL. cbn. by rewrite ?Hel.
Qed.

Lemma file_inv_step (s : State) (ev : Event) :
  file_inv s → file_inv (step platform s ev).1.
Proof.
  intros H. unfold step.
  destruct (audioRef s) as [el|] eqn:Hel; [|done].
  destruct ev; cbn [fst];
    try (destruct (decide (currentFile s = "")); cbn [fst]; [done|]).
  - by apply file_inv_handleFileUpload.
  - by apply file_inv_togglePlayPause.
  - unfold stopAudio. rewrite Hel.
    eapply file_inv_frame; [..|done]; first [done | by cbn; rewrite Hel].
  - eapply file_inv_frame; [..|done]; unfold toggleBypass; cbv zeta;
      rewrite <- ?connectAudioGraph_nodes; try done;
      unfold connectAudioGraph; repeat case_match; done.
  - unfold resumeAudio, resume, default, set_context_state.
    eapply file_inv_frame; [..|done]; repeat case_match; simplify_eq; cbn;
      rewrite ?fmap_is_Some; done.
  - destruct (saveAudio_session s) as (_ & _ & Hn & _ & Ha & _ & Hc & Hu).
    eapply file_inv_frame; [..|done]; by rewrite ?Hn, ?Ha.
  - eapply file_inv_frame; [..|done]; unfold setGain, applyEQSettings, updateEQValue;
      repeat case_match; done.
  - eapply file_inv_frame; [..|done]; unfold reset, applyEQSettings, resetEQ;
      repeat case_match; done.
  - case_match; cbn [fst]; [done|].
    eapply file_inv_frame; [..|done]; first [done | by cbn; rewrite Hel].
  - by case_match.
  - destruct H as (H1 & H2 & H3). unfold file_inv.
    replace (objectUrlRef (unmount s)) with (objectUrlRef s)
      by (unfold unmount, revokeObjectURL; by case_match).
    replace (currentFile (unmount s)) with (currentFile s)
      by (unfold unmount, revokeObjectURL; by case_match).
    replace (audioNodesRef (unmount s)) with (audioNodesRef s)
      by (unfold unmount, revokeObjectURL; by case_match).
    split_and!; [done..|]. intros el'. unfold unmount. by case_match.
Qed.

Lemma reachable_file_inv (s : State) : reachable platform s → file_inv s.
Proof.
  apply reachable_ind; [apply file_inv_initial|].
  intros. by apply file_inv_step.
Qed.

End FileLoaded.

(** ** Rounding to double precision *)

Lemma round_half_even_near (n d : Z) :
  0 ≤ n → 0 < d →
  0 ≤ round_half_even n d ∧ Z.abs (2 * (round_half_even n d * d - n)) ≤ d.
Proof.
  intros Hn Hd. unfold round_half_even. cbv zeta.
  pose proof (Z.div_mod n d ltac:(lia)) as Hdm.
  pose proof (Z.mod_pos_bound n d Hd) as Hm.
  assert (0 ≤ n / d) as Hq by (apply Z.div_pos; lia).
  destruct (Z.compare_spec (2 * (n mod d)) d); [destruct (Z.even (n / d))|..];
    split; nia.
Qed.

Lemma round_half_even_exact (k d : Z) : 0 < d → round_half_even (k * d) d = k.
Proof.
  intros Hd. unfold round_half_even. cbv zeta.
  rewrite Z.mod_mul, Z.div_mul by lia.
  destruct (Z.compare_spec (2 * 0) d); lia.
Qed.

Lemma binade_below (n d b : Z) :
  0 < n → 0 < d → 0 ≤ b → n < 2 ^ b * d → binade n d < b.
Proof.
  intros Hn Hd Hb Hlt.
  assert (Z.log2 n ≤ b + Z.log2 d) as Hlog.
  { rewrite <- Z.log2_mul_pow2 by lia. apply Z.log2_le_mono. lia. }
  unfold binade. cbv zeta. set (e := Z.log2 n - Z.log2 d) in *.
  case_decide as Hc; [|lia].
  destruct (decide (e = b)) as [->|]; [|lia].
  rewrite Z.max_r, Z.max_l in Hc by lia. change (2 ^ 0) with 1 in Hc. lia.
Qed.

(** A product below [2 ^ 32] is rounded by less than [2 ^ -22]. *)
Lemma round_double_near (x : Q) :
  (0 <= x)%Q → (x < inject_Z (2 ^ 32))%Q →
  ∃ r : Q, round_double x = Num r ∧ (0 <= r)%Q ∧
           (r <= x + (1 # 4194304))%Q ∧ (x - (1 # 4194304) <= r)%Q.
Proof.
  destruct x as [n d]. unfold Qle at 1, Qlt, inject_Z. cbn [Qnum Qden].
  intros Hn Hlt. unfold round_double. cbn [Qnum Qden]. cbv zeta.
  rewrite Z.abs_eq by lia.
  case_decide as Hz.
  { exists 0%Q. unfold Qle, Qplus, Qminus, Qopp. cbn. split_and!; [done|lia..]. }
  assert (binade n (Z.pos d) < 32) as Hb by (apply binade_below; lia).
  set (shift := Z.max (binade n (Z.pos d) - 52) (-1074)) in *.
  assert (shift ≤ -21) as Hs by lia.
  assert (-1074 ≤ shift) as Hs' by lia.
  rewrite (Z.max_l 0 shift), (Z.max_r 0 (- shift)) by lia.
  change (2 ^ 0) with 1. rewrite !Z.mul_1_r.
  set (down := 2 ^ (- shift)).
  assert (2 ^ 21 ≤ down) as Hdown by (apply Z.pow_le_mono_r; lia).
  destruct (round_half_even_near (n * down) (Z.pos d)) as [Hm0 Hm]; [nia|lia|].
  set (m := round_half_even (n * down) (Z.pos d)) in *.
  assert (m ≤ 2 ^ 32 * down) as Hsmall.
  { apply Z.lt_succ_r, (Z.mul_lt_mono_pos_r (Z.pos d)); [lia|]. nia. }
  rewrite decide_False; last first.
  { assert (2 ^ 33 ≤ 2 ^ 1024) as Hbig by (apply Z.pow_le_mono_r; lia).
    set (big := 2 ^ 1024) in *. intros Hc.
    assert (2 ^ 33 * down ≤ big * down) by (apply Z.mul_le_mono_nonneg_r; lia).
    lia. }
  eexists. split; [reflexivity|].
  replace (Z.sgn n) with 1 by lia. rewrite Z.mul_1_l.
  rewrite !Qred_correct.
  unfold Qminus, Qopp, Qplus, Qle. cbn [Qnum Qden].
  rewrite !Pos2Z.inj_mul, Z2Pos.id by lia.
  change (Z.pos 4194304) with (2 ^ 22).
  assert (2 ^ 21 * Z.pos d ≤ down * Z.pos d) as Hulp
    by (apply Z.mul_le_mono_nonneg_r; lia).
  split_and!; lia.
Qed.

(** A whole number of frames below [2 ^ 32] is not rounded. *)
Lemma round_double_whole (x : Q) (k : Z) :
  0 ≤ k < 2 ^ 32 → (x == inject_Z k)%Q →
  ∃ r : Q, round_double x = Num r ∧ (r == inject_Z k)%Q.
Proof.
  destruct x as [n d]. unfold Qeq at 1, inject_Z. cbn [Qnum Qden].
  intros Hk Hx. rewrite Z.mul_1_r in Hx. subst n.
  unfold round_double. cbn [Qnum Qden]. cbv zeta.
  rewrite Z.abs_eq by lia.
  case_decide as Hz.
  { exists 0%Q. split; [done|]. unfold Qeq. cbn. lia. }
  assert (binade (k * Z.pos d) (Z.pos d) < 32) as Hb by (apply binade_below; nia).
  set (shift := Z.max (binade (k * Z.pos d) (Z.pos d) - 52) (-1074)) in *.
  assert (shift ≤ -21) as Hs by lia.
  rewrite (Z.max_l 0 shift), (Z.max_r 0 (- shift)) by lia.
  change (2 ^ 0) with 1. rewrite !Z.mul_1_r.
  set (down := 2 ^ (- shift)).
  assert (2 ^ 21 ≤ down) as Hdown by (apply Z.pow_le_mono_r; lia).
  replace (k * Z.pos d * down) with (k * down * Z.pos d) by ring.
  rewrite round_half_even_exact by lia.
  assert (k * down ≤ 2 ^ 32 * down) as Hsmall
    by (apply Z.mul_le_mono_nonneg_r; lia).
  rewrite decide_False; last first.
  { assert (2 ^ 33 ≤ 2 ^ 1024) as Hbig by (apply Z.pow_le_mono_r; lia).
    set (big := 2 ^ 1024) in *. intros Hc.
    assert (2 ^ 33 * down ≤ big * down) by (apply Z.mul_le_mono_nonneg_r; lia).
    lia. }
  eexists. split; [reflexivity|].
  replace (Z.sgn (k * Z.pos d)) with 1 by nia. rewrite Z.mul_1_l.
  rewrite Qred_correct. unfold Qeq. cbn [Qnum Qden].
  rewrite Z2Pos.id by lia. ring.
Qed.

(** * The claims *)

(** ** The signal chain *)

Lemma limited_below (sampleRate : Z) (f : Q) :
  (f < inject_Z sampleRate / 2)%Q → limited sampleRate f = f.
Proof.
  intros H. unfold limited. destruct (Qle_bool (nyquist sampleRate) f) eqn:E; [|done].
  apply Qle_bool_true in E. unfold nyquist in E. rewrite Qred_correct in E.
  exfalso. destruct f as [n d].
  unfold Qle, Qlt, Qdiv, Qmult, Qinv, inject_Z in *. cbn in *. lia.
Qed.

(** In a context of 16 kHz or more the three frequencies are not
    limited: the parameters are those of section 4.1 as they stand. *)
Lemma chain_parameters_fixed (sampleRate : Z) (b m t : Biquad.t) (g : Gain.t)
    (c : Compressor.t) :
  16000 ≤ sampleRate →
  chain_parameters sampleRate b m t g c → fixed_parameters b m t g c.
Proof.
  intros HR (Hb1 & Hb2 & Hm1 & Hm2 & Hm3 & Ht1 & Ht2 & Hrest).
  unfold fixed_parameters. split_and!; try done.
  - rewrite Hb2. apply limited_below.
    unfold Qlt, Qdiv, Qmult, Qinv, inject_Z. cbn. lia.
  - rewrite Hm2. apply limited_below.
    unfold Qlt, Qdiv, Qmult, Qinv, inject_Z. cbn. lia.
  - rewrite Ht2. destruct (decide (sampleRate = 16000)) as [->|Hne]; [done|].
    apply limited_below. unfold Qlt, Qdiv, Qmult, Qinv, inject_Z. cbn. lia.
  - apply Hrest.
  - apply Hrest.
  - apply Hrest.
  - apply Hrest.
  - apply Hrest.
  - apply Hrest.
Qed.

Lemma offlineGraph_chain (offlineContext : OfflineAudioContext.t)
    (eqSettings : EQSettings) (audioBuffer : AudioBuffer.t) :
  offline_chain (OfflineAudioContext.sampleRate offlineContext)
    (offlineGraph offlineContext eqSettings audioBuffer) ∧
  Offline.buffer (offlineGraph offlineContext eqSettings audioBuffer) = audioBuffer.
Proof.
  unfold offline_chain, offlineGraph. cbv zeta. cbn [Offline.bassFilter Offline.midFilter
    Offline.trebleFilter Offline.masterGain Offline.comp Offline.connections
    Offline.buffer].
  split_and!; [|apply chain_connected|done].
  unfold chain_parameters. cbn. split_and!; reflexivity.
Qed.

Lemma initializeAudioContext_creates (audioContext : AudioContext) (s : State) :
  is_Some (audioRef s) → context (audioNodesRef s) = None →
  live_chain (initializeAudioContext (Some audioContext) s).
Proof.
  intros [el Hel] Hctx. unfold initializeAudioContext. rewrite Hel, Hctx.
  cbv zeta. rewrite connectAudioGraph_populated.
  2:{ unfold fully_populated. cbn. split_and!; eauto. }
  unfold live_chain, fully_populated, live_parameters, chain_parameters. cbn.
  split_and!; eauto.
  do 6 eexists. split_and!; reflexivity.
Qed.

Lemma live_chain_as_written (s : State) (audioContext : AudioContext) :
  context (audioNodesRef s) = Some audioContext → 16000 ≤ sampleRate audioContext →
  live_chain s → live_chain_fixed s.
Proof.
  intros Hc HR (Hp & (b & m & t & g & c & x & Hb & Hm & Ht & Hg & Hco & Hx & Hpar) & Hconn).
  split_and!; [done| |done].
  exists b, m, t, g, c. split_and!; try done.
  apply (chain_parameters_fixed (sampleRate x)); [|done]. congruence.
Qed.

(** Every render of [saveAudio] is a render of the chain: the graph
    handed to [startRendering()] is the one [saveAudio] has built in the
    offline context, whose sample rate is that of the live context. *)
Lemma renderOffline_chain (platform : Platform) (eqSettings : EQSettings)
    (audioContext : AudioContext) (el : HTMLAudioElement)
    (renderedBuffer : AudioBuffer.t) :
  renderOffline platform eqSettings audioContext el = Some renderedBuffer →
  ∃ offlineContext response audioBuffer,
    offlineContextFor platform audioContext el = Some offlineContext ∧
    fetch platform (src el) = Some response ∧
    decodeAudioData platform (OfflineAudioContext.sampleRate offlineContext) response
    = Some audioBuffer ∧
    startRendering platform offlineContext
      (offlineGraph offlineContext eqSettings audioBuffer)
    = Some (AudioBuffer.getChannelData renderedBuffer) ∧
    offline_chain (sampleRate audioContext)
      (offlineGraph offlineContext eqSettings audioBuffer).
Proof.
  unfold renderOffline. cbv zeta.
  destruct (offlineContextFor platform audioContext el) as [oc|] eqn:Ho; [|done].
  cbn [mbind option_bind].
  destruct (fetch platform (src el)) as [response|] eqn:Hf; [|done].
  cbn [mbind option_bind].
  destruct (decodeAudioData platform (OfflineAudioContext.sampleRate oc) response)
    as [ab|] eqn:Hd; [|done].
  cbn [mbind option_bind].
  destruct (startRendering platform oc (offlineGraph oc eqSettings ab))
    as [samples|] eqn:Hs; [|done].
  cbn [mbind option_bind]. intros [= <-].
  exists oc, response, ab. split_and!; [done..|].
  replace (sampleRate audioContext) with (OfflineAudioContext.sampleRate oc).
  - apply offlineGraph_chain.
  - unfold offlineContextFor, newOfflineAudioContext in Ho. cbv zeta in Ho.
    repeat case_match; simplify_eq. done.
Qed.

(** If none of the four steps of the browser fails, the chain is built
    and rendered. *)
Lemma renderOffline_renders (platform : Platform) (eqSettings : EQSettings)
    (audioContext : AudioContext) (el : HTMLAudioElement)
    (offlineContext : OfflineAudioContext.t) (response : Bytes)
    (audioBuffer : AudioBuffer.t) (samples : Z → Z → number) :
  offlineContextFor platform audioContext el = Some offlineContext →
  fetch platform (src el) = Some response →
  decodeAudioData platform (OfflineAudioContext.sampleRate offlineContext) response
  = Some audioBuffer →
  startRendering platform offlineContext
    (offlineGraph offlineContext eqSettings audioBuffer) = Some samples →
  renderOffline platform eqSettings audioContext el
  = Some (rendering offlineContext samples).
Proof.
  intros Ho Hf Hd Hr. unfold renderOffline. rewrite Ho. cbn. rewrite Hf. cbn.
  rewrite Hd. cbn. by rewrite Hr.
Qed.

Lemma saveAudio_download (platform : Platform) (s : State)
    (el : HTMLAudioElement) (audioContext : AudioContext)
    (renderedBuffer : AudioBuffer.t) (audioBlob : Bytes) :
  audioRef s = Some el → context (audioNodesRef s) = Some audioContext →
  renderOffline platform (eqSettings s) audioContext el = Some renderedBuffer →
  audioBufferToCompressedAudio (allocates platform) renderedBuffer = Some audioBlob →
  (saveAudio platform s).2 = [Download ("processed_" +:+ currentFile s) audioBlob].
Proof.
  intros Hel Hc Hr Hb. unfold saveAudio. rewrite Hel, Hc, Hr.
  cbn [mbind option_bind]. by rewrite Hb.
Qed.

(** C1, as stated, fails: in a context at 8 kHz the corner of the
    high-shelf filter is 4000 Hz, the upper end of the range of the
    parameter, not 8000 Hz. *)
Lemma treble_corner_limited :
  ¬ live_chain_fixed
      (run Example.platform initial_state
         [FileChosen (Some Example.file); PlayPauseClicked Example.narrowband_oracle]).1.
Proof.
  intros (_ & (b & m & t & g & c & _ & _ & Ht & _ & _ & Hfix) & _).
  vm_compute in Ht. injection Ht as <-.
  destruct Hfix as (_ & _ & _ & _ & _ & _ & Hf & _). by vm_compute in Hf.
Qed.

(** C1, amended.  Both constructed graphs are the chain source, bass
    low-shelf, mid peaking, treble high-shelf, compressor, master gain,
    destination, with Q 1.0, threshold -12, knee 6, ratio 3, attack 0.003,
    release 0.25, master gain 0.85 and the corner frequencies 100 Hz,
    1000 Hz and 8000 Hz, each limited to half the sample rate of the
    context: the live graph as [initializeAudioContext] builds it, the live
    graph of every reachable state in which bypass is off, the live graph
    after any [connectAudioGraph] with bypass off, and the offline graph of
    [saveAudio], which is the graph every render is made of and every
    download comes from, and which is built and rendered whenever the
    browser does not fail.  For a sample rate of 16 kHz or more the
    parameters are those of section 4.1 as they stand. *)
Theorem signal_chain_parameters :
  (∀ (audioContext : AudioContext) (s : State),
     is_Some (audioRef s) → context (audioNodesRef s) = None →
     live_chain (initializeAudioContext (Some audioContext) s)) ∧
  (∀ (platform : Platform) (s : State),
     reachable platform s → is_Some (context (audioNodesRef s)) →
     bypass s = false → live_chain s) ∧
  (∀ (platform : Platform) (s : State),
     reachable platform s → is_Some (context (audioNodesRef s)) →
     live_chain (connectAudioGraph false s)) ∧
  (∀ (platform : Platform) (s : State) (filename : string) (audioBlob : Bytes),
     Download filename audioBlob ∈ (saveAudio platform s).2 →
     ∃ el audioContext offlineContext response audioBuffer samples,
       audioRef s = Some el ∧ context (audioNodesRef s) = Some audioContext ∧
       offlineContextFor platform audioContext el = Some offlineContext ∧
       fetch platform (src el) = Some response ∧
       decodeAudioData platform (OfflineAudioContext.sampleRate offlineContext) response
       = Some audioBuffer ∧
       offline_chain (sampleRate audioContext)
         (offlineGraph offlineContext (eqSettings s) audioBuffer) ∧
       Offline.buffer (offlineGraph offlineContext (eqSettings s) audioBuffer)
       = audioBuffer ∧
       startRendering platform offlineContext
         (offlineGraph offlineContext (eqSettings s) audioBuffer) = Some samples ∧
       audioBufferToCompressedAudio (allocates platform)
         (rendering offlineContext samples) = Some audioBlob) ∧
  (∀ (platform : Platform) (s : State) (el : HTMLAudioElement)
     (audioContext : AudioContext) (offlineContext : OfflineAudioContext.t)
     (response : Bytes) (audioBuffer : AudioBuffer.t) (samples : Z → Z → number)
     (audioBlob : Bytes),
     audioRef s = Some el → context (audioNodesRef s) = Some audioContext →
     offlineContextFor platform audioContext el = Some offlineContext →
     fetch platform (src el) = Some response →
     decodeAudioData platform (OfflineAudioContext.sampleRate offlineContext) response
     = Some audioBuffer →
     startRendering platform offlineContext
       (offlineGraph offlineContext (eqSettings s) audioBuffer) = Some samples →
     audioBufferToCompressedAudio (allocates platform)
       (rendering offlineContext samples) = Some audioBlob →
     (saveAudio platform s).2
     = [Download ("processed_" +:+ currentFile s) audioBlob]) ∧
  (∀ (sampleRate : Z) (b m t : Biquad.t) (g : Gain.t) (c : Compressor.t),
     16000 ≤ sampleRate →
     chain_parameters sampleRate b m t g c → fixed_parameters b m t g c) ∧
  (∀ (s : State) (audioContext : AudioContext),
     context (audioNodesRef s) = Some audioContext →
     16000 ≤ sampleRate audioContext →
     live_chain s → live_chain_fixed s).
Proof.
  split_and!.
  - apply initializeAudioContext_creates.
  - intros platform s Hs Hctx Hb.
    destruct (reachable_graph_inv platform s Hs) as [[Hn _]|(Hp & Hl & _)].
    { rewrite Hn in Hctx. by destruct Hctx. }
    unfold live_chain. split_and!; [done..|].
    by apply (reachable_enhanced platform).
  - intros platform s Hs Hctx.
    destruct (reachable_graph_inv platform s Hs) as [[Hn _]|(Hp & Hl & _)].
    { rewrite Hn in Hctx. by destruct Hctx. }
    rewrite connectAudioGraph_populated by done.
    unfold live_chain. split_and!; done.
  - intros platform s filename audioBlob Hin. revert Hin. unfold saveAudio.
    destruct (audioRef s) as [el|] eqn:Hel;
      [|intros [=]%list_elem_of_singleton].
    destruct (context (audioNodesRef s)) as [c|] eqn:Hc;
      [|intros [=]%list_elem_of_singleton].
    destruct (renderOffline platform (eqSettings s) c el) as [rb|] eqn:Hr;
      [|intros [=]%list_elem_of_singleton].
    cbn [mbind option_bind].
    destruct (audioBufferToCompressedAudio (allocates platform) rb) as [blob|] eqn:Hb;
      [|intros [=]%list_elem_of_singleton].
    cbn [snd]. intros [= _ <-]%list_elem_of_singleton.
    destruct (renderOffline_chain _ _ _ _ _ Hr)
      as (oc & response & ab & Ho & Hf & Hd & Hs & Hch).
    assert (Hrb : rendering oc (AudioBuffer.getChannelData rb) = rb).
    { pose proof (renderOffline_renders platform _ _ _ _ _ _ _ Ho Hf Hd Hs) as Hr'.
      congruence. }
    exists el, c, oc, response, ab, (AudioBuffer.getChannelData rb).
    split_and!; [done | done | done | done | done | exact Hch
                | apply offlineGraph_chain | exact Hs | by rewrite Hrb].
  - intros platform s el c oc response ab samples blob Hel Hc Ho Hf Hd Hs Hb.
    apply (saveAudio_download platform s el c (rendering oc samples)); try done.
    by apply (renderOffline_renders platform _ _ _ _ response ab).
  - apply chain_parameters_fixed.
  - apply live_chain_as_written.
Qed.

Lemma signal_chain_parameters_witness :
  live_chain (initializeAudioContext (Some Example.audioContext) initial_state) ∧
  live_chain Example.playing ∧
  live_chain (connectAudioGraph false Example.playing) ∧
  live_chain_fixed Example.playing ∧
  ∃ audioBlob,
    (saveAudio Scenario.platform Scenario.clickPlaying).2
    = [Download ("processed_" +:+ currentFile Scenario.clickPlaying) audioBlob].
Proof.
  assert (Hr : reachable Example.platform Example.playing).
  { exists [FileChosen (Some Example.file); PlayPauseClicked Example.oracle].
    unfold Example.playing. reflexivity. }
  assert (Hc : is_Some (context (audioNodesRef Example.playing))).
  { vm_compute. eexists. reflexivity. }
  assert (Hl : live_chain Example.playing).
  { apply (proj1 (proj2 signal_chain_parameters) Example.platform);
      [exact Hr | exact Hc | by vm_compute]. }
  split_and!.
  - apply (proj1 signal_chain_parameters); [eexists; reflexivity | reflexivity].
  - exact Hl.
  - apply (proj1 (proj2 (proj2 signal_chain_parameters)) Example.platform);
      [exact Hr | exact Hc].
  - apply (proj2 (proj2 (proj2 (proj2 (proj2 (proj2 signal_chain_parameters)))))
             Example.playing Example.audioContext); [by vm_compute | by vm_compute | exact Hl].
  - eexists.
    apply (proj1 (proj2 (proj2 (proj2 (proj2 signal_chain_parameters))))
             Scenario.platform Scenario.clickPlaying Scenario.clickElement
             Scenario.slowContext Scenario.clickOffline (content Scenario.click)
             Scenario.decodedClick Scenario.silence).
    + by vm_compute.
    + by vm_compute.
    + by vm_compute.
    + reflexivity.
    + reflexivity.
    + reflexivity.
    + vm_compute. reflexivity.
Defined.

(** ** Rewiring *)

Lemma step_BypassClicked (platform : Platform) (s : State) :
  is_Some (audioRef s) → currentFile s ≠ "" →
  step platform s BypassClicked = (toggleBypass s, []).
Proof.
  intros [el Hel] Hcf. unfold step. rewrite Hel. by rewrite decide_False.
Qed.

Lemma toggleBypass_populated (s : State) :
  fully_populated (audioNodesRef s) →
  toggleBypass s
  = set_connections (topology (negb (bypass s))) (set_bypass (negb (bypass s)) s).
Proof.
  intros Hp. unfold toggleBypass. cbv zeta. by rewrite connectAudioGraph_populated.
Qed.

(** C5, at the failing input.  Bypass is switched on before the first
    playback.  The click on the play button then makes
    [initializeAudioContext] fill the node record and invoke
    [connectAudioGraph] on it, and this invocation connects the full chain
    although the bypass flag is set: it is the [connectAudioGraph] of the
    first render, which captured the flag as it was then.  What is
    connected is one of the two topologies, with no partial or double
    connection, but not the one of the flag; an invocation with the flag
    of the state connects the bypass path. *)
Theorem rewire_under_early_bypass :
  let s0 := (run Example.platform initial_state
               [FileChosen (Some Example.file); BypassClicked]).1 in
  let s := (step Example.platform s0 (PlayPauseClicked Example.oracle)).1 in
  fully_empty (audioNodesRef s0) ∧ bypass s0 = true ∧
  s = togglePlayPause Example.oracle s0 ∧
  fully_populated (audioNodesRef s) ∧ bypass s = true ∧
  connections s = full_chain ∧ connections s ≠ topology (bypass s) ∧
  connections (connectAudioGraph (bypass s) s) = bypass_path.
Proof.
  cbv zeta.
  set (s0 := (run Example.platform initial_state
                [FileChosen (Some Example.file); BypassClicked]).1).
  assert (Hs : (step Example.platform s0 (PlayPauseClicked Example.oracle)).1
               = togglePlayPause Example.oracle s0) by reflexivity.
  assert (Hp : fully_populated (audioNodesRef (togglePlayPause Example.oracle s0))).
  { vm_compute. repeat split; eexists; reflexivity. }
  assert (Hb : bypass (togglePlayPause Example.oracle s0) = true) by (by vm_compute).
  assert (Hc : connections (togglePlayPause Example.oracle s0) = full_chain)
    by (by vm_compute).
  rewrite Hs. split_and!.
  - by vm_compute.
  - by vm_compute.
  - done.
  - exact Hp.
  - exact Hb.
  - exact Hc.
  - rewrite Hc, Hb. cbn [topology]. intros Heq. by apply topologies_differ.
  - rewrite connectAudioGraph_populated by done. by rewrite Hb.
Qed.

(** ** Lazy construction *)

(** C9, as stated, fails: the graph is not always created at the first
    attempt to play.  In [Example.retry] the constructor of the context
    throws during the first click on the play button, which starts playback
    all the same; the graph is created by the second click. *)
Lemma graph_not_created_at_first_attempt :
  ¬ created_at_first_attempt Example.platform Example.retry.
Proof.
  intros H. apply (H 2%nat) with (j := 1%nat) (o := Example.failing).
  - split.
    + by vm_compute.
    + vm_compute. repeat split; eexists; reflexivity.
  - lia.
  - split_and!.
    + reflexivity.
    + vm_compute. eexists. reflexivity.
    + by vm_compute.
Qed.

(** C9, amended.  In every reachable state the node record is fully
    populated or fully empty; a call of [initializeAudioContext] while a
    context exists changes nothing; in a run at most one event creates the
    graph, that event is a click on the play button whose constructors
    succeeded, and every earlier click on it had its constructors throw:
    the graph is created by the first click during which the constructors
    do not throw, which need not be the first attempt to play; a click on
    the play button in a reachable state with a loaded file whose
    constructors succeed leaves the record populated. *)
Theorem nodes_all_or_nothing :
  (∀ (platform : Platform) (s : State),
     reachable platform s →
     fully_populated (audioNodesRef s) ∨ fully_empty (audioNodesRef s)) ∧
  (∀ (fresh : option AudioContext) (s : State),
     is_Some (context (audioNodesRef s)) → initializeAudioContext fresh s = s) ∧
  (∀ (platform : Platform) (evs : list Event) (i j : nat),
     created_at platform evs i → created_at platform evs j → i = j) ∧
  (∀ (platform : Platform) (evs : list Event) (i : nat),
     created_at platform evs i →
     ∃ o audioContext,
       playback_attempt platform evs i o ∧ newContext o = Some audioContext ∧
       ∀ j o', (j < i)%nat → playback_attempt platform evs j o' →
               newContext o' = None) ∧
  (∀ (platform : Platform) (s : State) (o : PlayOracle) (audioContext : AudioContext),
     reachable platform s → is_Some (audioRef s) → currentFile s ≠ "" →
     newContext o = Some audioContext →
     fully_populated (audioNodesRef (step platform s (PlayPauseClicked o)).1)).
Proof.
  split_and!.
  - apply reachable_all_or_nothing.
  - apply initializeAudioContext_noop.
  - apply created_at_unique.
  - apply created_at_attempt.
  - intros platform s o c Hs Hel Hcf Ho.
    apply (reachable_populated platform); [by apply reachable_step|].
    unfold step. destruct Hel as [el Hel]. rewrite Hel, decide_False by done.
    cbn [fst]. eapply togglePlayPause_creates; [by rewrite Hel | done].
Qed.

Lemma nodes_all_or_nothing_witness :
  (fully_populated (audioNodesRef Example.playing) ∨
   fully_empty (audioNodesRef Example.playing)) ∧
  initializeAudioContext None Example.playing = Example.playing.
Proof.
  split.
  - apply (proj1 nodes_all_or_nothing Example.platform).
    exists [FileChosen (Some Example.file); PlayPauseClicked Example.oracle].
    unfold Example.playing. reflexivity.
  - apply (proj1 (proj2 nodes_all_or_nothing)).
    vm_compute. eexists. reflexivity.
Defined.

(** ** Toggling bypass *)

(** After two toggles the graph is wired as the flag says. *)
Lemma toggleBypass_twice (s : State) :
  fully_populated (audioNodesRef s) →
  bypass (toggleBypass (toggleBypass s)) = bypass s ∧
  connections (toggleBypass (toggleBypass s)) = topology (bypass s).
Proof.
  intros Hp. rewrite (toggleBypass_populated s Hp).
  rewrite toggleBypass_populated by done. cbn. by rewrite negb_involutive.
Qed.

(** The round trip, from a state whose wiring agrees with the flag. *)
Lemma toggleBypass_round_trip (s : State) :
  fully_populated (audioNodesRef s) → connections s = topology (bypass s) →
  bypass (toggleBypass (toggleBypass s)) = bypass s ∧
  connections (toggleBypass (toggleBypass s)) = connections s.
Proof.
  intros Hp Hc. rewrite Hc. by apply toggleBypass_twice.
Qed.

(** In particular from every reachable state in which bypass is off. *)
Lemma toggleBypass_round_trip_enhanced (platform : Platform) (s : State) :
  reachable platform s → fully_populated (audioNodesRef s) → bypass s = false →
  bypass (toggleBypass (toggleBypass s)) = bypass s ∧
  connections (toggleBypass (toggleBypass s)) = connections s.
Proof.
  intros Hs Hp Hb. apply toggleBypass_round_trip; [done|].
  rewrite Hb. by apply (reachable_enhanced platform).
Qed.

(** C6, at the failing input.  Bypass is switched on before the first
    playback; [initializeAudioContext] then wires the full chain although
    the flag is set, and two further clicks on the bypass button end on the
    bypass path instead of the chain they started from. *)
Theorem bypass_round_trip_after_early_toggle :
  let s := (run Example.platform initial_state Example.bypass_then_play).1 in
  let s' := (run Example.platform s [BypassClicked; BypassClicked]).1 in
  fully_populated (audioNodesRef s) ∧
  bypass s = true ∧ connections s = full_chain ∧
  bypass s' = true ∧ connections s' = bypass_path ∧
  connections s' ≠ connections s.
Proof.
  cbv zeta.
  assert (H1 : connections (run Example.platform initial_state
                 Example.bypass_then_play).1 = full_chain) by (by vm_compute).
  assert (H2 : connections (run Example.platform
                 (run Example.platform initial_state Example.bypass_then_play).1
                 [BypassClicked; BypassClicked]).1 = bypass_path) by (by vm_compute).
  split_and!.
  - vm_compute. repeat split; eexists; reflexivity.
  - by vm_compute.
  - exact H1.
  - by vm_compute.
  - exact H2.
  - rewrite H1, H2. apply topologies_differ.
Qed.

(** ** Gain updates *)

Lemma step_SliderChanged (platform : Platform) (type : Band) (value : Q) (s : State) :
  is_Some (audioRef s) → currentFile s ≠ "" →
  step platform s (SliderChanged type value) = (setGain type value s, []).
Proof.
  intros [el Hel] Hcf. unfold step. rewrite Hel. by rewrite decide_False.
Qed.

(** The in-memory settings: the band takes the value, the others keep
    theirs. *)
Lemma setGain_settings (type other : Band) (value : Q) (s : State) :
  band_value type (eqSettings (setGain type value s)) = value ∧
  (other ≠ type →
   band_value other (eqSettings (setGain type value s)) = band_value other (eqSettings s)).
Proof.
  unfold setGain, applyEQSettings, updateEQValue. cbv zeta.
  repeat case_match; destruct type, other; cbn; done.
Qed.

(** The live filters: every one of them takes the setting of its band. *)
Lemma setGain_live (type band : Band) (value : Q) (s : State) :
  fully_populated (audioNodesRef s) →
  live_gain band (setGain type value s)
  = Some (band_value band (eqSettings (setGain type value s))).
Proof.
  intros (_ & [b Hb] & [m Hm] & [t Ht] & _).
  unfold setGain, applyEQSettings, live_gain. cbv zeta.
  replace (audioNodesRef (updateEQValue type value s)) with (audioNodesRef s)
    by (by destruct type).
  rewrite Hb, Hm, Ht. by destruct type, band.
Qed.

(** The frame property, from a state whose live gains agree with the
    settings. *)
Lemma setGain_frame (type other : Band) (value : Q) (s : State) :
  fully_populated (audioNodesRef s) →
  (∀ band, live_gain band s = Some (band_value band (eqSettings s))) →
  live_gain type (setGain type value s) = Some value ∧
  (other ≠ type → live_gain other (setGain type value s) = live_gain other s).
Proof.
  intros Hp Hsync. rewrite !setGain_live by done.
  destruct (setGain_settings type other value s) as [-> Hother]. split; [done|].
  intros Hne. by rewrite Hother, Hsync.
Qed.

(** C4, at the failing input.  The bass slider is set to 10 before the
    first playback; the live bass filter is created with gain 0 and keeps
    it, and the later update of the mid band to 5 changes the live bass gain
    from 0 to 10. *)
Theorem gain_update_after_early_slide :
  let s := (run Example.platform initial_state Example.slide_then_play).1 in
  let s' := (step Example.platform s (SliderChanged Mid 5)).1 in
  fully_populated (audioNodesRef s) ∧
  bass (eqSettings s) = 10%Q ∧ live_gain Bass s = Some 0%Q ∧
  mid (eqSettings s') = 5%Q ∧ live_gain Mid s' = Some 5%Q ∧
  live_gain Bass s' = Some 10%Q ∧
  live_gain Bass s' ≠ live_gain Bass s.
Proof.
  cbv zeta. split_and!.
  - vm_compute. repeat split; eexists; reflexivity.
  - by vm_compute.
  - by vm_compute.
  - by vm_compute.
  - by vm_compute.
  - by vm_compute.
  - by vm_compute.
Qed.

(** ** Blob URLs *)

(** C8. After any sequence of events no URL has been revoked twice; while
    the component is mounted the only URL not released is the one of the
    loaded file; loading a file while one is loaded revokes the previous URL
    (which was not revoked before) and only then creates the new one (which
    is fresh), so that the new URL is the only one not released; and the
    unmount leaves no URL unreleased. *)
Theorem object_url_lifecycle (platform : Platform) (evs : list Event) :
  let s := (run platform initial_state evs).1 in
  NoDup (revoked (urlLog s)) ∧
  (is_Some (audioRef s) → unreleased (urlLog s) = option_list (objectUrlRef s)) ∧
  (∀ (file : File) (previous : Url),
     is_Some (audioRef s) → objectUrlRef s = Some previous →
     let s' := (step platform s (FileChosen (Some file))).1 in
     urlLog s' = urlLog s ++ [Revoked previous; Created (nextUrl s)] ∧
     (previous ∉ revoked (urlLog s)) ∧ (nextUrl s ∉ created (urlLog s)) ∧
     objectUrlRef s' = Some (nextUrl s) ∧
     unreleased (urlLog s') = [nextUrl s]) ∧
  unreleased (urlLog (step platform s Unmounted).1) = [].
Proof.
  cbv zeta. set (s := (run platform initial_state evs).1).
  assert (Hs : reachable platform s) by (by exists evs).
  pose proof (reachable_url_inv platform s Hs) as Hinv.
  pose proof Hinv as [(Hc & Hr & Hlt & Hsub) Hun].
  split_and!.
  - done.
  - intros [el Hel]. by rewrite Hel in Hun.
  - intros file previous Hel Hprev.
    destruct (handleFileUpload_urls file s Hinv Hel) as (_ & Hlog & Hobj & Hun').
    rewrite Hprev in Hlog.
    assert (Hstep : (step platform s (FileChosen (Some file))).1
                    = handleFileUpload (Some file) s).
    { unfold step. destruct Hel as [el Hel]. by rewrite Hel. }
    rewrite Hstep. split_and!; try done.
    + destruct Hel as [el Hel]. rewrite Hel, Hprev in Hun. cbn in Hun.
      assert (Hin : previous ∈ unreleased (urlLog s)) by (rewrite Hun; by left).
      apply unreleased_created in Hin. by destruct Hin.
    + intros Hin. apply Hlt in Hin. lia.
  - unfold step. destruct (audioRef s) as [el|] eqn:Hel; [|done].
    cbn [fst]. apply unmount_urls; [done | by rewrite Hel].
Qed.

Lemma object_url_lifecycle_witness :
  let s := (run Example.platform initial_state [FileChosen (Some Example.file)]).1 in
  let s' := (step Example.platform s (FileChosen (Some Example.file))).1 in
  urlLog s' = urlLog s ++ [Revoked 0%nat; Created (nextUrl s)] ∧
  (0%nat ∉ revoked (urlLog s)) ∧ (nextUrl s ∉ created (urlLog s)) ∧
  objectUrlRef s' = Some (nextUrl s) ∧
  unreleased (urlLog s') = [nextUrl s].
Proof.
  apply (proj1 (proj2 (proj2
           (object_url_lifecycle Example.platform [FileChosen (Some Example.file)])))
           Example.file 0%nat).
  - vm_compute. eexists. reflexivity.
  - reflexivity.
Defined.

(** ** Export failures *)

Lemma saveAudio_guard (platform : Platform) (s : State) :
  audioRef s = None ∨ context (audioNodesRef s) = None →
  saveAudio platform s = (s, [Alert load_first]).
Proof.
  unfold saveAudio. intros [-> | ->]; [done|]. by destruct (audioRef s).
Qed.

Lemma saveAudio_catch (platform : Platform) (s : State)
    (el : HTMLAudioElement) (audioContext : AudioContext) :
  audioRef s = Some el → context (audioNodesRef s) = Some audioContext →
  export_fails platform (eqSettings s) audioContext el →
  saveAudio platform s = (s, [Alert save_failed]).
Proof.
  intros Hel Hctx Hfail. unfold saveAudio. rewrite Hel, Hctx.
  destruct Hfail as [H1 | oc H1 H2 | oc bytes H1 H2 H3 | oc bytes buf H1 H2 H3 H4
                    | rendered H1 H2].
  - unfold renderOffline. by rewrite H1.
  - unfold renderOffline. rewrite H1. cbn [mbind option_bind]. by rewrite H2.
  - unfold renderOffline. rewrite H1. cbn [mbind option_bind].
    rewrite H2. cbn [mbind option_bind]. by rewrite H3.
  - unfold renderOffline. rewrite H1. cbn [mbind option_bind].
    rewrite H2. cbn [mbind option_bind]. rewrite H3. cbn [mbind option_bind].
    by rewrite H4.
  - rewrite H1. cbn [mbind option_bind]. by rewrite H2.
Qed.

(** What [saveAudio] shows: one alert and the state as it was, or one
    download of a completely serialised render. *)
Lemma saveAudio_outcome (platform : Platform) (s : State) :
  (∃ message, saveAudio platform s = (s, [Alert message])) ∨
  (∃ el audioContext renderedBuffer audioBlob,
     audioRef s = Some el ∧ context (audioNodesRef s) = Some audioContext ∧
     renderOffline platform (eqSettings s) audioContext el = Some renderedBuffer ∧
     audioBufferToCompressedAudio (allocates platform) renderedBuffer = Some audioBlob ∧
     (saveAudio platform s).2 = [Download ("processed_" +:+ currentFile s) audioBlob]).
Proof.
  unfold saveAudio.
  destruct (audioRef s) as [el|] eqn:Hel; [|left; by eexists].
  destruct (context (audioNodesRef s)) as [c|] eqn:Hc; [|left; by eexists].
  destruct (renderOffline platform (eqSettings s) c el) as [rendered|] eqn:Hr;
    [|left; by eexists].
  cbn [mbind option_bind].
  destruct (audioBufferToCompressedAudio (allocates platform) rendered) as [blob|] eqn:Hb;
    [|left; by eexists].
  right. exists el, c, rendered, blob. split_and!; done.
Qed.

(** The one exception of the serialisation is the [RangeError] of
    [new ArrayBuffer]. *)
Lemma serialisation_fails (allocates : Z → bool) (buffer : AudioBuffer.t) :
  0 ≤ AudioBuffer.length buffer → 0 ≤ AudioBuffer.numberOfChannels buffer →
  audioBufferToCompressedAudio allocates buffer = None
  ↔ ArrayBuffer allocates (file_size buffer) = None.
Proof.
  intros HL HC. rewrite audioBufferToCompressedAudio_layout by done.
  by destruct (ArrayBuffer allocates (file_size buffer)).
Qed.

(** C7. With no audio element or no audio context [saveAudio] shows the
    "load a file first" alert and changes nothing, and that is the case in
    every reachable state in which the media element has no source; an
    exception in the offline constructor, [fetch], [decodeAudioData],
    [startRendering] or the serialisation gives the one "error saving" alert
    and changes nothing, the exception of the serialisation being the
    [RangeError] of a refused allocation and no other; and whatever
    happens, [saveAudio] shows either one alert or one download of a
    completely serialised render, and leaves the settings, the bypass flag,
    the live nodes and connections, the media element and the play state as
    they were. *)
Theorem save_failure_modes (platform : Platform) (s : State) :
  (audioRef s = None ∨ context (audioNodesRef s) = None →
   saveAudio platform s = (s, [Alert load_first])) ∧
  (reachable platform s → (∀ el, audioRef s = Some el → src el = None) →
   saveAudio platform s = (s, [Alert load_first])) ∧
  (∀ el audioContext,
     audioRef s = Some el → context (audioNodesRef s) = Some audioContext →
     export_fails platform (eqSettings s) audioContext el →
     saveAudio platform s = (s, [Alert save_failed])) ∧
  (∀ el audioContext renderedBuffer,
     audioRef s = Some el → context (audioNodesRef s) = Some audioContext →
     renderOffline platform (eqSettings s) audioContext el = Some renderedBuffer →
     ArrayBuffer (allocates platform) (file_size renderedBuffer) = None →
     saveAudio platform s = (s, [Alert save_failed])) ∧
  (∀ buffer : AudioBuffer.t,
     0 ≤ AudioBuffer.length buffer → 0 ≤ AudioBuffer.numberOfChannels buffer →
     audioBufferToCompressedAudio (allocates platform) buffer = None
     ↔ ArrayBuffer (allocates platform) (file_size buffer) = None) ∧
  ((∃ message, saveAudio platform s = (s, [Alert message])) ∨
   (∃ el audioContext renderedBuffer audioBlob,
      audioRef s = Some el ∧ context (audioNodesRef s) = Some audioContext ∧
      renderOffline platform (eqSettings s) audioContext el = Some renderedBuffer ∧
      audioBufferToCompressedAudio (allocates platform) renderedBuffer = Some audioBlob ∧
      (saveAudio platform s).2
      = [Download ("processed_" +:+ currentFile s) audioBlob])) ∧
  session_untouched s (saveAudio platform s).1.
Proof.
  split_and!.
  - apply saveAudio_guard.
  - intros Hs Hsrc. apply saveAudio_guard.
    destruct (audioRef s) as [el|] eqn:Hel; [right | by left].
    destruct (reachable_file_inv platform s Hs) as (_ & Hctx & Hsrc').
    specialize (Hsrc el eq_refl). rewrite (Hsrc' el Hel) in Hsrc.
    apply eq_None_not_Some. intros H. apply Hctx in H. rewrite Hsrc in H.
    by destruct H.
  - apply saveAudio_catch.
  - intros el c rb Hel Hc Hr Ha. apply (saveAudio_catch platform s el c); [done..|].
    apply (serialisation_throws _ _ _ _ rb); [done|].
    unfold audioBufferToCompressedAudio. unfold file_size in Ha. by rewrite Ha.
  - intros buffer. apply serialisation_fails.
  - apply saveAudio_outcome.
  - apply saveAudio_session.
Qed.

Lemma save_failure_modes_witness :
  saveAudio Example.platform initial_state = (initial_state, [Alert load_first]) ∧
  saveAudio Example.offline_platform Example.playing
  = (Example.playing, [Alert save_failed]) ∧
  saveAudio Example.cramped_platform Example.playing
  = (Example.playing, [Alert save_failed]).
Proof.
  split_and!.
  - apply (proj1 (save_failure_modes Example.platform initial_state)).
    right. reflexivity.
  - apply (proj1 (proj2 (proj2
             (save_failure_modes Example.offline_platform Example.playing)))
             Example.element Example.audioContext).
    + by vm_compute.
    + by vm_compute.
    + apply (fetch_throws _ _ _ _
               {| OfflineAudioContext.numberOfChannels := 2;
                  OfflineAudioContext.length := 96000;
                  OfflineAudioContext.sampleRate := 48000 |}).
      * by vm_compute.
      * reflexivity.
  - apply (proj1 (proj2 (proj2 (proj2
             (save_failure_modes Example.cramped_platform Example.playing))))
             Example.element Example.audioContext Example.rendered).
    + by vm_compute.
    + by vm_compute.
    + reflexivity.
    + reflexivity.
Defined.

(** ** Independence of the bypass flag *)

(** C10. What [saveAudio] shows, and so the bytes it offers for download,
    does not depend on the bypass flag or on how the live graph is wired:
    the offline graph it renders is always the full chain. *)
Theorem export_ignores_bypass (platform : Platform) (s : State)
    (bypass : bool) (g : Connections) :
  (saveAudio platform (set_connections g (set_bypass bypass s))).2
  = (saveAudio platform s).2 ∧
  ∀ offlineContext audioBuffer,
    Offline.connections (offlineGraph offlineContext (eqSettings s) audioBuffer)
    = full_chain.
Proof.
  split.
  - unfold saveAudio. cbn.
    destruct (audioRef s) as [el|]; [|done].
    destruct (context (audioNodesRef s)) as [c|]; [|done].
    by case_match.
  - intros offlineContext audioBuffer. apply offlineGraph_chain.
Qed.

(** ** The size of the render *)

Lemma Qtrunc_floor (x : Q) :
  (0 <= x)%Q →
  (inject_Z (Qtrunc x) <= x)%Q ∧ (x < inject_Z (Qtrunc x + 1))%Q.
Proof.
  destruct x as [n d]. unfold Qle, Qlt, Qtrunc, inject_Z. cbn [Qnum Qden].
  intros Hn. rewrite Z.quot_div_nonneg by lia.
  pose proof (Z.div_mod n (Z.pos d) ltac:(lia)) as Hdm.
  pose proof (Z.mod_pos_bound n (Z.pos d) ltac:(lia)) as Hm.
  split; nia.
Qed.

Lemma offlineContextFor_dimensions (platform : Platform)
    (audioContext : AudioContext) (el : HTMLAudioElement)
    (offlineContext : OfflineAudioContext.t) :
  offlineContextFor platform audioContext el = Some offlineContext →
  offlineContext
  = {| OfflineAudioContext.numberOfChannels := destinationChannelCount audioContext;
       OfflineAudioContext.length :=
         ToUint32 (double_mul (Num (inject_Z (sampleRate audioContext))) (duration el));
       OfflineAudioContext.sampleRate := sampleRate audioContext |}.
Proof.
  unfold offlineContextFor, newOfflineAudioContext. cbv zeta.
  repeat case_match; congruence.
Qed.

Lemma renderOffline_dimensions (platform : Platform) (eqSettings : EQSettings)
    (audioContext : AudioContext) (el : HTMLAudioElement)
    (renderedBuffer : AudioBuffer.t) :
  renderOffline platform eqSettings audioContext el = Some renderedBuffer →
  ∃ offlineContext,
    offlineContextFor platform audioContext el = Some offlineContext ∧
    AudioBuffer.numberOfChannels renderedBuffer
    = OfflineAudioContext.numberOfChannels offlineContext ∧
    AudioBuffer.length renderedBuffer = OfflineAudioContext.length offlineContext ∧
    AudioBuffer.sampleRate renderedBuffer
    = OfflineAudioContext.sampleRate offlineContext.
Proof.
  unfold renderOffline. cbv zeta.
  destruct (offlineContextFor platform audioContext el) as [oc|]; [|done].
  cbn [mbind option_bind].
  destruct (fetch platform (src el)) as [response|]; [|done].
  cbn [mbind option_bind].
  destruct (decodeAudioData platform _ response) as [audioBuffer|]; [|done].
  cbn [mbind option_bind].
  destruct (startRendering platform oc _) as [samples|]; [|done].
  cbn [mbind option_bind]. intros [= <-]. by exists oc.
Qed.

(** C3, as stated, fails: the browser of the example decodes the file to
    one channel, and the offline context has the two channels of the
    destination of the live context. *)
Lemma offline_context_not_sized_by_decode :
  ¬ ∀ (platform : Platform) (audioContext : AudioContext) (el : HTMLAudioElement)
      (offlineContext : OfflineAudioContext.t) (response : Bytes)
      (decoded : AudioBuffer.t),
      offlineContextFor platform audioContext el = Some offlineContext →
      fetch platform (src el) = Some response →
      decodeAudioData platform (OfflineAudioContext.sampleRate offlineContext) response
      = Some decoded →
      matches_decode offlineContext decoded.
Proof.
  intros H.
  specialize (H Example.platform Example.audioContext Example.element
                {| OfflineAudioContext.numberOfChannels := 2;
                   OfflineAudioContext.length := 96000;
                   OfflineAudioContext.sampleRate := 48000 |}
                (content Example.file) (Example.decoded 48000)
                eq_refl eq_refl eq_refl).
  destruct H as [H _]. cbn in H. discriminate.
Qed.

(** The frames of a double [r] below [2 ^ 32]. *)
Lemma ToUint32_floor (r : Q) :
  (0 <= r)%Q → (r < inject_Z (2 ^ 32))%Q →
  (inject_Z (ToUint32 (Num r)) <= r)%Q ∧ (r < inject_Z (ToUint32 (Num r) + 1))%Q.
Proof.
  intros H0 Hlt. unfold ToUint32, ToIntegerOrZero.
  destruct (Qtrunc_floor r H0) as [Hlo Hhi].
  assert (0 ≤ Qtrunc r < 2 ^ 32) as Hrange.
  { destruct (Qtrunc_bounds 0 (2 ^ 32) r) as [Hb1 Hb2];
      [split; [done | by apply Qlt_le_weak]|].
    split; [done|].
    destruct (decide (Qtrunc r = 2 ^ 32)) as [Heq|]; [|lia].
    rewrite Heq in Hlo. exfalso. apply (Qlt_irrefl r).
    eapply Qlt_le_trans; [exact Hlt | exact Hlo]. }
  rewrite Z.mod_small by done. done.
Qed.

(** C3, amended.  The offline context is instantiated, before the file is
    decoded, with the channel count of the destination of the live context,
    the sample rate [R] of the live context, and as length the double
    product of [R] and the duration of the media element, converted to an
    unsigned 32-bit integer; the rendered buffer has these dimensions.  For
    a duration of [D] seconds with [0 <= R * D <= 2 ^ 32 - 1] the buffer has
    [R * D] frames within rounding at the boundary sample: its length [L]
    satisfies [R * D - 1 - 2 ^ -22 < L <= R * D + 2 ^ -22], and [L] is
    [R * D] when that is a whole number. *)
Theorem offline_render_dimensions (platform : Platform) (eqSettings : EQSettings)
    (audioContext : AudioContext) (el : HTMLAudioElement)
    (renderedBuffer : AudioBuffer.t) :
  renderOffline platform eqSettings audioContext el = Some renderedBuffer →
  AudioBuffer.numberOfChannels renderedBuffer = destinationChannelCount audioContext ∧
  AudioBuffer.sampleRate renderedBuffer = sampleRate audioContext ∧
  AudioBuffer.length renderedBuffer
  = ToUint32 (double_mul (Num (inject_Z (sampleRate audioContext))) (duration el)) ∧
  offlineContextFor platform audioContext el
  = Some {| OfflineAudioContext.numberOfChannels :=
              AudioBuffer.numberOfChannels renderedBuffer;
            OfflineAudioContext.length := AudioBuffer.length renderedBuffer;
            OfflineAudioContext.sampleRate := AudioBuffer.sampleRate renderedBuffer |} ∧
  (∀ D : Q,
     duration el = Num D →
     (0 <= inject_Z (sampleRate audioContext) * D)%Q →
     (inject_Z (sampleRate audioContext) * D <= inject_Z (2 ^ 32 - 1))%Q →
     (inject_Z (AudioBuffer.length renderedBuffer)
        <= inject_Z (sampleRate audioContext) * D + (1 # 4194304))%Q ∧
     (inject_Z (sampleRate audioContext) * D - (1 # 4194304)
        < inject_Z (AudioBuffer.length renderedBuffer + 1))%Q) ∧
  (∀ (D : Q) (frames : Z),
     duration el = Num D → 0 ≤ frames < 2 ^ 32 →
     (inject_Z (sampleRate audioContext) * D == inject_Z frames)%Q →
     AudioBuffer.length renderedBuffer = frames).
Proof.
  intros Hr.
  destruct (renderOffline_dimensions _ _ _ _ _ Hr) as (oc & Hoc & Hc & Hl & Hs).
  pose proof (offlineContextFor_dimensions _ _ _ _ Hoc) as Hdim.
  rewrite Hdim in Hc, Hl, Hs. cbn in Hc, Hl, Hs.
  split_and!; [done..| | |].
  - rewrite Hoc, Hdim, Hc, Hl, Hs. reflexivity.
  - intros D HD H0 Hmax. rewrite Hl, HD. cbn [double_mul js_mul].
    set (x := (inject_Z (sampleRate audioContext) * D)%Q) in *.
    assert (x < inject_Z (2 ^ 32))%Q as Hlt.
    { eapply Qle_lt_trans; [exact Hmax|]. by vm_compute. }
    destruct (round_double_near x H0 Hlt) as (r & -> & Hr0 & Hhi & Hlo).
    destruct (ToUint32_floor r Hr0) as [Hfl Hce].
    { eapply Qle_lt_trans; [exact Hhi|].
      eapply Qle_lt_trans; [apply Qplus_le_l, Hmax|]. by vm_compute. }
    split.
    + eapply Qle_trans; [exact Hfl | exact Hhi].
    + eapply Qle_lt_trans; [exact Hlo | exact Hce].
  - intros D frames HD Hf Hx. rewrite Hl, HD. cbn [double_mul js_mul].
    destruct (round_double_whole _ frames Hf Hx) as (r & -> & Hr').
    unfold ToUint32, ToIntegerOrZero.
    assert (Qtrunc r = frames) as ->; [|by apply Z.mod_small].
    destruct r as [n d]. unfold Qeq, inject_Z in Hr'. cbn [Qnum Qden] in Hr'.
    unfold Qtrunc. rewrite Z.mul_1_r in Hr'. rewrite Hr'.
    apply Z.quot_mul. lia.
Qed.

Lemma offline_render_dimensions_witness :
  (AudioBuffer.numberOfChannels Example.rendered = 2 ∧
   AudioBuffer.sampleRate Example.rendered = 48000 ∧
   AudioBuffer.length Example.rendered = 96000) ∧
  ∃ renderedBuffer,
    renderOffline Example.platform Example.flat Example.audioContext Example.brief
    = Some renderedBuffer ∧
    AudioBuffer.length renderedBuffer = 14400.
Proof.
  split.
  - destruct (offline_render_dimensions Example.platform Example.flat
                Example.audioContext Example.element Example.rendered)
      as (Hc & Hs & Hl & _).
    + reflexivity.
    + split_and!; [exact Hc | exact Hs | exact Hl].
  - destruct (renderOffline Example.platform Example.flat Example.audioContext
                Example.brief) as [renderedBuffer|] eqn:Hr; [|by vm_compute in Hr].
    exists renderedBuffer. split; [reflexivity|].
    destruct (offline_render_dimensions Example.platform Example.flat
                Example.audioContext Example.brief renderedBuffer Hr)
      as (_ & _ & Hl & _).
    rewrite Hl. by vm_compute.
Defined.

(** ** The exported file *)

Lemma string_bytes_range (s : string) : Forall (fun b => 0 ≤ b < 256) (string_bytes s).
Proof.
  unfold string_bytes. induction s as [|c s IH]; cbn; constructor; [|done].
  unfold charCode. pose proof (N_ascii_bounded c). lia.
Qed.

Lemma Forall_flat_map {A B : Type} (P : B → Prop) (f : A → list B) (l : list A) :
  (∀ x, Forall P (f x)) → Forall P (flat_map f l).
Proof.
  intros H. induction l as [|x l IH]; cbn; [constructor|].
  apply Forall_app. auto.
Qed.

Lemma wav_header_range (l c r : Z) : Forall (fun b => 0 ≤ b < 256) (wav_header l c r).
Proof.
  unfold wav_header.
  repeat (apply Forall_app; split);
    first [apply string_bytes_range | apply le_bytes_range].
Qed.

Lemma pcm_data_range (buffer : AudioBuffer.t) :
  Forall (fun b => 0 ≤ b < 256) (pcm_data buffer).
Proof.
  unfold pcm_data, pcm_frame.
  apply Forall_flat_map. intros i. apply Forall_flat_map. intros c.
  apply le_bytes_range.
Qed.

(** The bytes of the file, for every buffer. *)
Lemma wav_bytes_layout (buffer : AudioBuffer.t) :
  0 ≤ AudioBuffer.length buffer →
  0 ≤ AudioBuffer.numberOfChannels buffer →
  wav_layout buffer
    (wav_header (AudioBuffer.length buffer) (AudioBuffer.numberOfChannels buffer)
       (AudioBuffer.sampleRate buffer) ++ pcm_data buffer).
Proof.
  intros HL HC. unfold wav_layout. cbv zeta.
  set (L := AudioBuffer.length buffer) in *.
  set (C := AudioBuffer.numberOfChannels buffer) in *.
  set (R := AudioBuffer.sampleRate buffer) in *.
  assert (Hfield : ∀ off n, 0 ≤ off → (Z.to_nat off + n ≤ 44)%nat →
            field off n (wav_header L C R ++ pcm_data buffer)
            = field off n (wav_header L C R)).
  { intros off n Hoff Hn. apply field_header; [done|].
    by rewrite length_wav_header. }
  split_and!.
  - rewrite length_app, length_wav_header, length_pcm_data. fold L C.
    rewrite Nat2Z.inj_add, !Nat2Z.inj_mul, !Z2Nat.id by lia.
    change (Z.of_nat 44) with 44. change (Z.of_nat 2) with 2. ring.
  - apply Forall_app. split; [apply wav_header_range | apply pcm_data_range].
  - rewrite Hfield by (cbn; lia). reflexivity.
  - rewrite Hfield by (cbn; lia). reflexivity.
  - rewrite Hfield by (cbn; lia). reflexivity.
  - rewrite Hfield by (cbn; lia). reflexivity.
  - rewrite Hfield by (cbn; lia). change (field 20 2 (wav_header L C R)) with (le_bytes 2 1).
    reflexivity.
  - rewrite Hfield by (cbn; lia). change (field 22 2 (wav_header L C R)) with (le_bytes 2 C).
    apply le_decode_le_bytes.
  - rewrite Hfield by (cbn; lia). change (field 24 4 (wav_header L C R)) with (le_bytes 4 R).
    apply le_decode_le_bytes.
  - rewrite Hfield by (cbn; lia).
    change (field 28 4 (wav_header L C R)) with (le_bytes 4 (R * C * 2)).
    apply le_decode_le_bytes.
  - rewrite Hfield by (cbn; lia).
    change (field 32 2 (wav_header L C R)) with (le_bytes 2 (C * 2)).
    apply le_decode_le_bytes.
  - rewrite Hfield by (cbn; lia). change (field 34 2 (wav_header L C R)) with (le_bytes 2 16).
    reflexivity.
  - rewrite Hfield by (cbn; lia).
    change (field 40 4 (wav_header L C R)) with (le_bytes 4 (L * C * 2)).
    apply le_decode_le_bytes.
  - intros i channel Hi Hc. subst L C R.
    rewrite field_sample by (done || apply length_wav_header).
    apply int16_decode_le_bytes. apply ToInt16_range.
Qed.

(** With header values that fit their fields the layout is the file of
    section 4.4. *)
Lemma wav_layout_fits (buffer : AudioBuffer.t) (bytes : Bytes) :
  0 ≤ AudioBuffer.length buffer →
  0 ≤ AudioBuffer.numberOfChannels buffer →
  header_fits buffer → wav_layout buffer bytes → wav_file buffer bytes.
Proof.
  intros HL HC (HR & HC2 & HRC & HLC).
  intros (Hlen & Hrange & H0 & H8 & H12 & H36 & H20 & H22 & H24 & H28 & H32 & H34
          & H40 & Hs).
  unfold wav_file. cbv zeta.
  rewrite Z.mod_small in H22 by lia. rewrite Z.mod_small in H24 by lia.
  rewrite Z.mod_small in H28 by nia. rewrite Z.mod_small in H32 by lia.
  rewrite Z.mod_small in H40 by nia.
  split_and!; done.
Qed.

(** C2, as stated, fails: for 4 GiB of samples either the allocation of
    the file is refused and the function throws, or it is granted and the
    data length does not fit its 32-bit field, which then reads 0. *)
Lemma wav_data_length_wraps :
  ¬ ∃ (allocates : Z → bool) (bytes : Bytes),
      audioBufferToCompressedAudio allocates Example.long_buffer = Some bytes ∧
      wav_file Example.long_buffer bytes.
Proof.
  intros (allocates & bytes & Hbytes & Hwav).
  rewrite audioBufferToCompressedAudio_layout in Hbytes by (cbn; lia).
  destruct (ArrayBuffer allocates (file_size Example.long_buffer)); [|done].
  apply (inj Some) in Hbytes.
  destruct Hwav as (_ & _ & _ & _ & _ & _ & _ & _ & _ & _ & _ & _ & Hlen & _).
  rewrite <- Hbytes in Hlen. clear Hbytes.
  rewrite field_header in Hlen by (rewrite ?length_wav_header; lia).
  revert Hlen. generalize (pcm_data Example.long_buffer). intros _.
  vm_compute. discriminate.
Qed.

(** C2, amended.  For a buffer of [L] frames, [C] channels and sample
    rate [R], the function throws when the allocation of the [44 + L * C * 2]
    bytes of the file is refused, and otherwise returns that many bytes: the
    RIFF/WAVE header with the markers and fields of section 4.4, each
    numeric field holding its value modulo the width of the field, then the
    samples, interleaved by channel, as signed 16-bit little-endian
    numbers.  When the header values fit their fields ([C * 2 < 2 ^ 16], and
    [R], [R * C * 2] and [L * C * 2] below [2 ^ 32]) the fields hold the
    values themselves.  A sample is clamped to [-1, 1], scaled by 32768 if
    negative and by 32767 otherwise, and truncated; this takes an infinite
    sample to 32767 or -32768, and a NaN sample is stored as 0. *)
Theorem wav_serialisation (allocates : Z → bool) (buffer : AudioBuffer.t) :
  0 ≤ AudioBuffer.length buffer →
  0 ≤ AudioBuffer.numberOfChannels buffer →
  (ArrayBuffer allocates (file_size buffer) = None →
   audioBufferToCompressedAudio allocates buffer = None) ∧
  (is_Some (ArrayBuffer allocates (file_size buffer)) →
   ∃ bytes, audioBufferToCompressedAudio allocates buffer = Some bytes ∧
            wav_layout buffer bytes ∧
            (header_fits buffer → wav_file buffer bytes)) ∧
  (∀ x : Q, pcm16 (Num x) = Qtrunc (scale (clamp x))) ∧
  pcm16 Infinity = Qtrunc (scale 1) ∧
  pcm16 NegInfinity = Qtrunc (scale (-1)) ∧
  pcm16 NaN = 0.
Proof.
  intros HL HC. rewrite audioBufferToCompressedAudio_layout by done.
  split_and!; [by intros -> | | apply pcm16_finite | done..].
  intros [view ->]. eexists. split; [reflexivity|].
  pose proof (wav_bytes_layout buffer HL HC) as Hlayout.
  split; [done|]. intros Hfits. by apply wav_layout_fits.
Qed.

Lemma wav_serialisation_witness :
  ∃ bytes,
    audioBufferToCompressedAudio (fun _ => true) Example.small_buffer = Some bytes ∧
    wav_layout Example.small_buffer bytes ∧
    wav_file Example.small_buffer bytes.
Proof.
  destruct (wav_serialisation (fun _ => true) Example.small_buffer)
    as (_ & Hbytes & _); [cbn; lia..|].
  destruct Hbytes as (bytes & Hb & Hlayout & Hfile); [vm_compute; by eexists|].
  exists bytes. split_and!; [exact Hb | exact Hlayout |].
  apply Hfile. unfold header_fits. cbn. lia.
Defined.

(** * Playback, the controls and the export as a whole *)

(** ** Playback *)

Section Playback.

Context (platform : Platform).

(** What [initializeAudioContext], [resume()], [play()] and [pause()]
    preserve, a click on the play button preserves. *)
Lemma togglePlayPause_preserves (P : State → Prop) (o : PlayOracle) (s : State) :
  (∀ s, P s → P (initializeAudioContext (newContext o) s)) →
  (∀ ok s s', resume ok s = Some s' → P s → P s') →
  (∀ ok s s', play ok s = Some s' → P s → P s') →
  (∀ s, P s → P (pause s)) →
  P s → P (togglePlayPause o s).
Proof.
  intros Hinit Hresume Hplay Hpause H0. unfold togglePlayPause.
  destruct (audioRef s); [|done].
  specialize (Hinit s H0). revert Hinit.
  generalize (initializeAudioContext (newContext o) s). intros s1 H1.
  unfold try_bind, attempt, default.
  repeat case_match; simplify_eq; eauto.
Qed.

Lemma initializeAudioContext_playback (fresh : option AudioContext) (s : State) :
  audioRef (initializeAudioContext fresh s) = audioRef s ∧
  isPlaying (initializeAudioContext fresh s) = isPlaying s ∧
  audioContextSuspended (initializeAudioContext fresh s) = audioContextSuspended s.
Proof.
  unfold initializeAudioContext, connectAudioGraph.
  repeat case_match; simplify_eq; done.
Qed.

Lemma connectAudioGraph_playback (b : bool) (s : State) :
  audioRef (connectAudioGraph b s) = audioRef s ∧
  isPlaying (connectAudioGraph b s) = isPlaying s ∧
  audioContextSuspended (connectAudioGraph b s) = audioContextSuspended s ∧
  eqSettings (connectAudioGraph b s) = eqSettings s ∧
  bypass (connectAudioGraph b s) = bypass s.
Proof. unfold connectAudioGraph. repeat case_match; simplify_eq; done. Qed.

Lemma applyEQSettings_playback (e : EQSettings) (s : State) :
  audioRef (applyEQSettings e s) = audioRef s ∧
  isPlaying (applyEQSettings e s) = isPlaying s ∧
  audioContextSuspended (applyEQSettings e s) = audioContextSuspended s ∧
  eqSettings (applyEQSettings e s) = eqSettings s ∧
  bypass (applyEQSettings e s) = bypass s ∧
  connections (applyEQSettings e s) = connections s.
Proof. unfold applyEQSettings. repeat case_match; simplify_eq; done. Qed.

Lemma saveAudio_playback (s : State) :
  audioRef (saveAudio platform s).1 = audioRef s ∧
  isPlaying (saveAudio platform s).1 = isPlaying s ∧
  audioContextSuspended (saveAudio platform s).1 = audioContextSuspended s.
Proof.
  unfold saveAudio, createObjectURL, revokeObjectURL.
  repeat case_match; simplify_eq; done.
Qed.

(** *** The play button and the media element *)

Lemma playing_inv_frame (s s' : State) :
  audioRef s' = audioRef s → isPlaying s' = isPlaying s →
  playing_inv s → playing_inv s'.
Proof. unfold playing_inv. intros -> ->. done. Qed.

Lemma playing_inv_togglePlayPause (o : PlayOracle) (s : State) :
  playing_inv s → playing_inv (togglePlayPause o s).
Proof.
  apply togglePlayPause_preserves.
  - intros s0. destruct (initializeAudioContext_playback (newContext o) s0) as (? & ? & _).
    by apply playing_inv_frame.
  - intros ok s0 s' Hr. unfold resume in Hr. destruct ok; simplify_eq.
    by apply playing_inv_frame.
  - intros ok s0 s' Hp _. unfold play in Hp. destruct ok; simplify_eq.
    intros el. cbn. destruct (audioRef s0); cbn; intros ?; by simplify_eq.
  - intros s0 _ el. unfold pause. cbn. destruct (audioRef s0); cbn; intros ?; by simplify_eq.
Qed.

Lemma playing_inv_step (s : State) (ev : Event) :
  playing_inv s → playing_inv (step platform s ev).1.
Proof.
  intros H. unfold step.
  destruct (audioRef s) as [el|] eqn:Hel; [|done].
  destruct ev; cbn [fst];
    try (destruct (decide (currentFile s = "")); cbn [fst]; [done|]).
  - unfold handleFileUpload, createObjectURL, revokeObjectURL.
    destruct file as [file|]; [|done]. rewrite Hel.
    intros el'. repeat case_match; simplify_eq; cbn; rewrite ?Hel; cbn;
      intros; by simplify_eq.
  - by apply playing_inv_togglePlayPause.
  - unfold stopAudio. rewrite Hel. intros el'. cbn. intros ?; by simplify_eq.
  - unfold toggleBypass. cbv zeta.
    destruct (connectAudioGraph_playback (negb (bypass s)) (set_bypass (negb (bypass s)) s))
      as (? & ? & _).
    eapply playing_inv_frame; [..|exact H]; done.
  - unfold resumeAudio, resume, default.
    repeat case_match; simplify_eq; cbn [fst]; by eapply playing_inv_frame.
  - destruct (saveAudio_playback s) as (? & ? & _). by eapply playing_inv_frame.
  - unfold setGain. cbv zeta.
    destruct (applyEQSettings_playback (eqSettings (updateEQValue type value s))
                (updateEQValue type value s)) as (? & ? & _).
    eapply playing_inv_frame; [..|exact H]; done.
  - unfold reset. cbv zeta.
    destruct (applyEQSettings_playback (eqSettings (resetEQ s)) (resetEQ s)) as (? & ? & _).
    eapply playing_inv_frame; [..|exact H]; done.
  - destruct (paused el) eqn:Hp; cbn [fst]; [done|].
    intros el'. unfold pause. cbn. rewrite Hel. cbn. intros; by simplify_eq.
  - by case_match.
  - unfold unmount, revokeObjectURL. intros el'. by case_match.
Qed.

Lemma reachable_playing_inv (s : State) : reachable platform s → playing_inv s.
Proof.
  apply reachable_ind.
  - intros el. cbn. intros; by simplify_eq.
  - intros. by apply playing_inv_step.
Qed.

(** *** The flag behind the resume button *)

Lemma not_suspended_togglePlayPause (o : PlayOracle) (s : State) :
  audioContextSuspended s = false → audioContextSuspended (togglePlayPause o s) = false.
Proof.
  apply (togglePlayPause_preserves (fun s => audioContextSuspended s = false)).
  - intros s0. by destruct (initializeAudioContext_playback (newContext o) s0) as (_ & _ & ->).
  - intros ok s0 s' Hr. unfold resume in Hr. by destruct ok; simplify_eq.
  - intros ok s0 s' Hp. unfold play in Hp. by destruct ok; simplify_eq.
  - done.
Qed.

Lemma not_suspended_step (s : State) (ev : Event) :
  audioContextSuspended s = false → audioContextSuspended (step platform s ev).1 = false.
Proof.
  intros H. unfold step.
  destruct (audioRef s) as [el|] eqn:Hel; [|done].
  destruct ev; cbn [fst];
    try (destruct (decide (currentFile s = "")); cbn [fst]; [done|]).
  - unfold handleFileUpload, createObjectURL, revokeObjectURL.
    repeat case_match; simplify_eq; done.
  - by apply not_suspended_togglePlayPause.
  - unfold stopAudio. by rewrite Hel.
  - unfold toggleBypass. cbv zeta.
    by rewrite (proj1 (proj2 (proj2 (connectAudioGraph_playback _ _)))).
  - by rewrite H.
  - by destruct (saveAudio_playback s) as (_ & _ & ->).
  - unfold setGain. cbv zeta.
    by rewrite (proj1 (proj2 (proj2 (applyEQSettings_playback _ _)))).
  - unfold reset. cbv zeta.
    by rewrite (proj1 (proj2 (proj2 (applyEQSettings_playback _ _)))).
  - by destruct (paused el).
  - by case_match.
  - unfold unmount, revokeObjectURL. by case_match.
Qed.

End Playback.

(** ** What the user sees of playback *)

(** X1. In every reachable state [isPlaying], which decides whether the
    play button reads "Play" or "Pause", is set exactly when the media
    element is not paused. *)
Theorem play_button_follows_element (platform : Platform) (s : State) (el : HTMLAudioElement) :
  reachable platform s → audioRef s = Some el → isPlaying s = negb (paused el).
Proof. intros Hr. by apply (reachable_playing_inv platform). Qed.

Lemma play_button_follows_element_witness :
  isPlaying Example.playing = negb (paused Example.element).
Proof.
  apply (play_button_follows_element Example.platform Example.playing Example.element).
  - exists [FileChosen (Some Example.file); PlayPauseClicked Example.oracle].
    unfold Example.playing. reflexivity.
  - by vm_compute.
Defined.


(** X2. [audioContextSuspended] is false in every reachable state: the
    code only ever writes [false] to it.  The resume button, rendered only
    while the flag is set, is therefore never shown, and [resumeAudio]
    never runs. *)
Theorem resume_button_never_shown (platform : Platform) (s : State) :
  reachable platform s →
  audioContextSuspended s = false ∧
  ∀ ok, step platform s (ResumeClicked ok) = (s, []).
Proof.
  intros Hr.
  assert (H : audioContextSuspended s = false).
  { revert s Hr. apply reachable_ind; [done|].
    intros s ev _. apply not_suspended_step. }
  split; [done|]. intros ok. unfold step. rewrite H.
  by repeat case_match.
Qed.

Lemma resume_button_never_shown_witness :
  audioContextSuspended Example.playing = false ∧
  ∀ ok, step Example.platform Example.playing (ResumeClicked ok) = (Example.playing, []).
Proof.
  apply (resume_button_never_shown Example.platform Example.playing).
  exists [FileChosen (Some Example.file); PlayPauseClicked Example.oracle].
  unfold Example.playing. reflexivity.
Defined.


(** X3. What a click on the play button does to playback.  If no promise
    the click awaits is rejected, a paused element plays and a playing one
    is paused, and [isPlaying] follows; if [resume()] or [play()] is
    rejected, the handler does nothing more to the element, which stays as
    it was ([play] takes a rejected [play()] to leave the element paused),
    and so does [isPlaying].  In particular a playing element is not
    paused by a click during which a suspended context cannot be
    resumed. *)
Theorem click_toggles_or_keeps (o : PlayOracle) (s : State) (el : HTMLAudioElement) :
  audioRef s = Some el →
  audioRef (togglePlayPause o s)
  = Some (if click_goes_through o s el then set_paused (negb (paused el)) el else el) ∧
  isPlaying (togglePlayPause o s)
  = if click_goes_through o s el then paused el else isPlaying s.
Proof.
  intros Hel. unfold click_goes_through, togglePlayPause. rewrite Hel.
  destruct (initializeAudioContext_playback (newContext o) s) as (Ha & Hp & _).
  rewrite Hel in Ha. revert Ha Hp.
  generalize (initializeAudioContext (newContext o) s). intros s1 Ha Hp.
  unfold try_bind, attempt, resume, play, pause, default.
  destruct el as [src0 dur0 [] time0];
    destruct (context_suspended s1), (resumeOk o), (playOk o); cbn;
    rewrite ?Ha; cbn; repeat case_match; simplify_eq; cbn; rewrite ?Ha; done.
Qed.

Lemma click_toggles_or_keeps_witness :
  audioRef (togglePlayPause Example.oracle Scenario.loaded) = Some Example.element ∧
  isPlaying (togglePlayPause Example.oracle Scenario.loaded) = true.
Proof.
  apply (click_toggles_or_keeps Example.oracle Scenario.loaded Scenario.loadedElement).
  by vm_compute.
Defined.


(** X4. After a click on the play button the context is not suspended,
    as soon as one of the two [resume()] calls of the click is not
    rejected, whether or not playback could be started. *)
Theorem click_resumes_context (o : PlayOracle) (s : State) :
  is_Some (audioRef s) → resumeOk o = true ∨ resumeAgainOk o = true →
  context_suspended (togglePlayPause o s) = false.
Proof.
  intros [el Hel] Hok. unfold togglePlayPause. rewrite Hel.
  destruct (initializeAudioContext_playback (newContext o) s) as (Ha & _).
  rewrite Hel in Ha. revert Ha.
  generalize (initializeAudioContext (newContext o) s). intros s1 Ha.
  assert (Hrun : ∀ s0, context_suspended
                         (set_audioContextSuspended false (set_context_state running s0))
                       = false).
  { intros s0. unfold context_suspended, set_context_state. cbn.
    by destruct (context (audioNodesRef s0)). }
  assert (Hframe : ∀ b a s0, context_suspended (set_isPlaying b (set_audioRef a s0))
                             = context_suspended s0) by reflexivity.
  unfold try_bind, attempt, resume, play, pause, default.
  destruct (context_suspended s1) eqn:Hs, (resumeOk o) eqn:Hr1,
    (resumeAgainOk o) eqn:Hr2; try (by destruct Hok);
    cbn; rewrite ?Ha; cbn;
    repeat case_match; simplify_eq; rewrite ?Hframe, ?Hrun, ?Hs; done.
Qed.

Lemma click_resumes_context_witness :
  context_suspended (togglePlayPause Scenario.stubborn Scenario.loaded) = false.
Proof.
  apply (click_resumes_context Scenario.stubborn Scenario.loaded).
  - vm_compute. eexists. reflexivity.
  - right. reflexivity.
Defined.


(** X5. Once the graph exists and its context runs, starting playback,
    letting it run to any [position] short of the end, and pausing it
    gives back the state before the two clicks with the element at that
    position: the pause keeps the position playback has reached, and the
    two clicks change nothing else, neither the settings nor the graph nor
    its wiring. *)
Theorem play_pause_round_trip (o o' : PlayOracle) (s : State) (el : HTMLAudioElement)
    (position : Q) :
  audioRef s = Some el → paused el = true → isPlaying s = false →
  is_Some (context (audioNodesRef s)) → context_suspended s = false →
  playOk o = true →
  togglePlayPause o' (playback_reaches position (togglePlayPause o s))
  = playback_reaches position s.
Proof.
  intros Hel Hp Hi Hc Hs Hok.
  assert (H1 : togglePlayPause o s
               = set_isPlaying true (set_audioRef (Some (set_paused false el)) s)).
  { unfold togglePlayPause. rewrite Hel, initializeAudioContext_noop by done.
    unfold try_bind, attempt, play. by rewrite Hs, Hel, Hp, Hok. }
  rewrite H1. unfold playback_reaches, togglePlayPause.
  cbn [audioRef set_isPlaying set_audioRef fmap option_fmap option_map].
  rewrite initializeAudioContext_noop by done.
  unfold try_bind, attempt, pause.
  replace (context_suspended
             (set_audioRef (Some (set_currentTime position (set_paused false el)))
                (set_isPlaying true (set_audioRef (Some (set_paused false el)) s))))
    with (context_suspended s) by reflexivity.
  rewrite Hs, Hel. cbn. destruct s, el. cbn in *. by simplify_eq.
Qed.

Lemma play_pause_round_trip_witness :
  togglePlayPause Example.oracle
    (playback_reaches (1 # 3) (togglePlayPause Example.oracle Scenario.paused_again))
  = playback_reaches (1 # 3) Scenario.paused_again.
Proof.
  apply (play_pause_round_trip Example.oracle Example.oracle Scenario.paused_again
           Scenario.loadedElement).
  - by vm_compute.
  - reflexivity.
  - by vm_compute.
  - vm_compute. eexists. reflexivity.
  - by vm_compute.
  - reflexivity.
Defined.


(** X6. The stop button pauses the element and rewinds it to position 0,
    whatever it was doing, and clears [isPlaying]; it leaves the source,
    the file, the settings, the bypass flag, the graph and the blob URLs
    alone; a second click changes nothing more; and once the graph exists
    and its context runs, it makes a preceding click on the play button
    irrelevant, whether that click started playback, paused it or
    failed. *)
Theorem stop_rewinds (s : State) (el : HTMLAudioElement) :
  audioRef s = Some el →
  audioRef (stopAudio s)
  = Some {| src := src el; duration := duration el; paused := true; currentTime := 0 |} ∧
  isPlaying (stopAudio s) = false ∧
  kept s (stopAudio s) ∧
  audioNodesRef (stopAudio s) = audioNodesRef s ∧
  connections (stopAudio s) = connections s ∧
  stopAudio (stopAudio s) = stopAudio s ∧
  (is_Some (context (audioNodesRef s)) → context_suspended s = false →
   ∀ o, stopAudio (togglePlayPause o s) = stopAudio s).
Proof.
  intros Hel. split_and!.
  - unfold stopAudio. by rewrite Hel.
  - unfold stopAudio. by rewrite Hel.
  - unfold stopAudio, kept. by rewrite Hel.
  - unfold stopAudio. by rewrite Hel.
  - unfold stopAudio. by rewrite Hel.
  - unfold stopAudio. by rewrite Hel.
  - intros Hc Hs o. unfold togglePlayPause.
    rewrite Hel, initializeAudioContext_noop by done.
    unfold try_bind, attempt, play, pause. rewrite Hs, Hel.
    unfold stopAudio.
    destruct (paused el), (playOk o); cbn; rewrite ?Hs, ?Hel; cbn; rewrite ?Hel; done.
Qed.

Lemma stop_rewinds_witness :
  audioRef (stopAudio Example.playing) = Some Scenario.loadedElement ∧
  isPlaying (stopAudio Example.playing) = false ∧
  kept Example.playing (stopAudio Example.playing) ∧
  audioNodesRef (stopAudio Example.playing) = audioNodesRef Example.playing ∧
  connections (stopAudio Example.playing) = connections Example.playing ∧
  stopAudio (stopAudio Example.playing) = stopAudio Example.playing ∧
  (is_Some (context (audioNodesRef Example.playing)) →
   context_suspended Example.playing = false →
   ∀ o, stopAudio (togglePlayPause o Example.playing) = stopAudio Example.playing).
Proof.
  apply (stop_rewinds Example.playing Example.element). by vm_compute.
Defined.

(** X7. Before a file is chosen nothing can be done and nothing is
    shown: as long as the file input has not reported a file and the
    component is mounted, every event leaves the initial state as it is. *)
Theorem inert_until_file_chosen (platform : Platform) (evs : list Event) :
  Forall (fun ev => loads_file ev = false ∧ is_unmount ev = false) evs →
  run platform initial_state evs = (initial_state, []).
Proof.
  induction 1 as [|ev evs [Hl Hu] _ IH]; [done|].
  cbn [run].
  assert (Hstep : step platform initial_state ev = (initial_state, [])).
  { destruct ev as [[file|]| | | | | | | | | |]; try done. }
  by rewrite Hstep, IH.
Qed.

Lemma inert_until_file_chosen_witness :
  run Example.platform initial_state
    [PlayPauseClicked Example.oracle; SaveClicked; SliderChanged Bass 10; MediaError;
     FileChosen None]
  = (initial_state, []).
Proof. apply inert_until_file_chosen. repeat constructor. Defined.


(** ** The sliders and the live filters *)

Section Settings.

Context (platform : Platform).

Lemma live_gain_frame (band : Band) (s s' : State) :
  audioNodesRef s' = audioNodesRef s → live_gain band s' = live_gain band s.
Proof. unfold live_gain. by intros ->. Qed.

Lemma live_gain_set_context_state (band : Band) (v : AudioContextState) (s : State) :
  live_gain band (set_context_state v s) = live_gain band s.
Proof. by destruct band. Qed.

Lemma live_gain_connectAudioGraph (band : Band) (b : bool) (s : State) :
  live_gain band (connectAudioGraph b s) = live_gain band s.
Proof. apply live_gain_frame. symmetry. apply connectAudioGraph_nodes. Qed.

Lemma live_gain_initializeAudioContext (band : Band) (fresh : option AudioContext)
    (s : State) :
  is_Some (context (audioNodesRef s)) →
  live_gain band (initializeAudioContext fresh s) = live_gain band s.
Proof. intros H. by rewrite initializeAudioContext_noop. Qed.

(** The three filters exist as soon as each has a gain. *)
Lemma live_gain_filters (s : State) :
  (∀ band, is_Some (live_gain band s)) →
  ∃ b m t, bassFilter (audioNodesRef s) = Some b ∧ midFilter (audioNodesRef s) = Some m ∧
           trebleFilter (audioNodesRef s) = Some t.
Proof.
  intros H. pose proof (H Bass) as Hb. pose proof (H Mid) as Hm.
  pose proof (H Treble) as Ht. unfold live_gain in *.
  apply fmap_is_Some in Hb as [b ->]. apply fmap_is_Some in Hm as [m ->].
  apply fmap_is_Some in Ht as [t ->]. by eexists _, _, _.
Qed.

(** [applyEQSettings] gives the three filters the gains it is called with. *)
Lemma applyEQSettings_live (e : EQSettings) (band : Band) (s : State) :
  (∀ band, is_Some (live_gain band s)) →
  live_gain band (applyEQSettings e s) = Some (band_value band e).
Proof.
  intros H. destruct (live_gain_filters s H) as (b & m & t & Hb & Hm & Ht).
  unfold applyEQSettings, live_gain. rewrite Hb, Hm, Ht. by destruct band.
Qed.

Lemma gains_applied_filters (s : State) :
  gains_applied s → ∀ band, is_Some (live_gain band s).
Proof. intros H band. rewrite H. eauto. Qed.

Lemma gains_flat_filters (s : State) :
  gains_flat s → ∀ band, is_Some (live_gain band s).
Proof. intros H band. rewrite H. eauto. Qed.

Lemma gains_applied_frame (s s' : State) :
  (∀ band, live_gain band s' = live_gain band s) → eqSettings s' = eqSettings s →
  gains_applied s → gains_applied s'.
Proof. intros Hg He H band. by rewrite Hg, He. Qed.

Lemma gains_flat_frame (s s' : State) :
  (∀ band, live_gain band s' = live_gain band s) → gains_flat s → gains_flat s'.
Proof. intros Hg H band. by rewrite Hg. Qed.

Lemma gains_applied_setGain (type : Band) (value : Q) (s : State) :
  (∀ band, is_Some (live_gain band s)) → gains_applied (setGain type value s).
Proof.
  intros H band. unfold setGain. cbv zeta.
  rewrite applyEQSettings_live; [|done].
  by rewrite (proj1 (proj2 (proj2 (proj2 (applyEQSettings_playback _ _))))).
Qed.

Lemma gains_applied_reset (s : State) :
  (∀ band, is_Some (live_gain band s)) → gains_applied (reset s).
Proof.
  intros H band. unfold reset. cbv zeta.
  rewrite applyEQSettings_live; [|done].
  by rewrite (proj1 (proj2 (proj2 (proj2 (applyEQSettings_playback _ _))))).
Qed.

(** What a click on the play button does to the gains and the settings
    once a context exists: nothing. *)
Lemma togglePlayPause_gains (o : PlayOracle) (s : State) :
  is_Some (context (audioNodesRef s)) →
  (∀ band, live_gain band (togglePlayPause o s) = live_gain band s) ∧
  eqSettings (togglePlayPause o s) = eqSettings s.
Proof.
  intros Hc. split; [|apply togglePlayPause_frame].
  intros band.
  apply (togglePlayPause_preserves
           (fun s' => is_Some (context (audioNodesRef s')) ∧
                      live_gain band s' = live_gain band s)); [..|done].
  - intros s0 [H0 <-]. by rewrite initializeAudioContext_noop.
  - intros ok s0 s' Hr [H0 <-]. unfold resume in Hr. destruct ok; simplify_eq.
    split; [|apply live_gain_set_context_state].
    cbn. destruct H0 as [c ->]. cbn. eauto.
  - intros ok s0 s' Hp [H0 <-]. unfold play in Hp. by destruct ok; simplify_eq.
  - intros s0 [H0 <-]. done.
Qed.

Lemma gains_step_frame (s : State) (ev : Event) :
  is_Some (context (audioNodesRef s)) →
  (∀ type value, ev ≠ SliderChanged type value) → ev ≠ ResetClicked →
  (∀ band, live_gain band (step platform s ev).1 = live_gain band s) ∧
  eqSettings (step platform s ev).1 = eqSettings s.
Proof.
  intros Hc Hs Hr. unfold step.
  destruct (audioRef s) as [el|] eqn:Hel; [|done].
  destruct ev; cbn [fst];
    try (destruct (decide (currentFile s = "")); cbn [fst]; [done|]).
  - unfold handleFileUpload, createObjectURL, revokeObjectURL.
    repeat case_match; simplify_eq; done.
  - destruct (togglePlayPause_gains o s Hc) as [? ?].
    split; [|done]. by apply (proj1 (togglePlayPause_gains o s Hc)).
  - unfold stopAudio. by rewrite Hel.
  - unfold toggleBypass. cbv zeta. split.
    + intros band. by rewrite live_gain_connectAudioGraph.
    + by rewrite (proj1 (proj2 (proj2 (proj2 (connectAudioGraph_playback _ _))))).
  - unfold resumeAudio, resume, default.
    repeat case_match; simplify_eq; cbn [fst]; split; try done;
      intros band; apply live_gain_set_context_state.
  - destruct (saveAudio_session platform s) as (-> & _ & Hn & _).
    split; [|done]. intros band. by apply live_gain_frame.
  - by destruct (Hs type value).
  - done.
  - by destruct (paused el).
  - by case_match.
  - unfold unmount, revokeObjectURL. by case_match.
Qed.

Lemma gains_applied_step (s : State) (ev : Event) :
  is_Some (context (audioNodesRef s)) → gains_applied s →
  gains_applied (step platform s ev).1.
Proof.
  intros Hc H.
  assert (Hother : (∀ type value, ev ≠ SliderChanged type value) → ev ≠ ResetClicked →
                   gains_applied (step platform s ev).1).
  { intros Hs Hr. destruct (gains_step_frame s ev Hc Hs Hr) as [Hg He].
    by apply (gains_applied_frame s). }
  destruct ev; try (by apply Hother).
  - unfold step. repeat case_match; cbn [fst]; try done.
    by apply gains_applied_setGain, gains_applied_filters.
  - unfold step. repeat case_match; cbn [fst]; try done.
    by apply gains_applied_reset, gains_applied_filters.
Qed.

Lemma gains_applied_run (s : State) (evs : list Event) :
  is_Some (context (audioNodesRef s)) → gains_applied s →
  gains_applied (run platform s evs).1.
Proof.
  revert s. induction evs as [|ev evs IH]; intros s Hc H; [done|].
  cbn [run]. destruct (step platform s ev) as [s' shown] eqn:Hstep.
  destruct (run platform s' evs) as [s'' shown'] eqn:Hrun. cbn [fst].
  replace s'' with (run platform s' evs).1 by (by rewrite Hrun).
  replace s' with (step platform s ev).1 in * by (by rewrite Hstep).
  apply IH; [|by apply gains_applied_step].
  apply (has_context_run platform s [ev]) in Hc. cbn [run] in Hc.
  by rewrite Hstep in Hc.
Qed.

(** A step from a state with flat live gains: they stay flat, or a slider
    or the reset button has made them follow the settings. *)
Lemma gains_flat_step (s : State) (ev : Event) :
  is_Some (context (audioNodesRef s)) → gains_flat s →
  gains_applied (step platform s ev).1 ∨ gains_flat (step platform s ev).1.
Proof.
  intros Hc H.
  assert (Hother : (∀ type value, ev ≠ SliderChanged type value) → ev ≠ ResetClicked →
                   gains_flat (step platform s ev).1).
  { intros Hs Hr. destruct (gains_step_frame s ev Hc Hs Hr) as [Hg He].
    by apply (gains_flat_frame s). }
  destruct ev; try (by right; apply Hother).
  - unfold step. repeat case_match; cbn [fst]; try (by right).
    left. by apply gains_applied_setGain, gains_flat_filters.
  - unfold step. repeat case_match; cbn [fst]; try (by right).
    left. by apply gains_applied_reset, gains_flat_filters.
Qed.

(** The click that creates the graph leaves the live gains flat. *)
Lemma togglePlayPause_flat (o : PlayOracle) (s : State) :
  context (audioNodesRef s) = None →
  is_Some (context (audioNodesRef (togglePlayPause o s))) →
  gains_flat (togglePlayPause o s).
Proof.
  intros Hn.
  apply (togglePlayPause_preserves
           (fun s' => is_Some (context (audioNodesRef s')) → gains_flat s')).
  - intros s0 H0 Hc. unfold initializeAudioContext in *.
    destruct (audioRef s0); [|by apply H0].
    destruct (context (audioNodesRef s0)) eqn:Hc0; [by apply H0|].
    destruct (newContext o); [|by rewrite Hc0 in Hc; destruct Hc].
    intros band. rewrite live_gain_connectAudioGraph. by destruct band.
  - intros ok s0 s' Hr H0 Hc. unfold resume in Hr. destruct ok; simplify_eq.
    apply (gains_flat_frame s0); [intros band; apply live_gain_set_context_state|].
    apply H0. cbn in Hc. by apply fmap_is_Some in Hc.
  - intros ok s0 s' Hp H0 Hc. unfold play in Hp. destruct ok; simplify_eq. by apply H0.
  - intros s0 H0 Hc. by apply H0.
  - rewrite Hn. by intros [? ?].
Qed.

Lemma reachable_applied_or_flat (s : State) :
  reachable platform s → is_Some (context (audioNodesRef s)) →
  gains_applied s ∨ gains_flat s.
Proof.
  revert s.
  apply (reachable_ind platform
           (fun s => is_Some (context (audioNodesRef s)) → gains_applied s ∨ gains_flat s)).
  - by intros [? ?].
  - intros s ev Hr IH Hc.
    destruct (reachable_all_or_nothing platform s Hr) as [Hp|He].
    + apply fully_populated_context in Hp.
      destruct (IH Hp) as [H|H]; [left; by apply gains_applied_step|].
      by apply gains_flat_step.
    + destruct (step_creates platform s ev He Hc) as (o & c & -> & Ho & Ha & Hf).
      right. revert Hc. unfold step.
      destruct (audioRef s); [|by destruct Ha].
      destruct (decide (currentFile s = "")); [done|]. cbn [fst].
      apply togglePlayPause_flat. by apply fully_empty_no_context.
Qed.

End Settings.

(** X8. Once the graph exists, moving a slider or pressing the reset
    button makes the gains of the three live filters equal to the three
    settings, and from then on they stay equal, whatever happens next; a
    state in which they are equal is followed only by such states. *)
Theorem sliders_take_over_live_gains (platform : Platform) (s : State)
    (type : Band) (value : Q) (evs : list Event) :
  fully_populated (audioNodesRef s) → is_Some (audioRef s) → currentFile s ≠ "" →
  gains_applied (run platform s (SliderChanged type value :: evs)).1 ∧
  gains_applied (run platform s (ResetClicked :: evs)).1 ∧
  (gains_applied s → gains_applied (run platform s evs).1).
Proof.
  intros Hp [el Hel] Hf.
  assert (Hc := fully_populated_context _ Hp).
  assert (Hg : ∀ band, is_Some (live_gain band s)).
  { destruct Hp as (_ & [b Hb] & [m Hm] & [t Ht] & _).
    intros []; unfold live_gain; rewrite ?Hb, ?Hm, ?Ht; cbn; eauto. }
  assert (Hrun : ∀ ev, gains_applied (step platform s ev).1 →
                       gains_applied (run platform s (ev :: evs)).1).
  { intros ev H. change (ev :: evs) with ([ev] ++ evs).
    rewrite (run_app_state platform s [ev] evs).
    assert (Hs : (run platform s [ev]).1 = (step platform s ev).1).
    { cbn [run]. by destruct (step platform s ev). }
    rewrite Hs. apply gains_applied_run; [|done].
    rewrite <- Hs. by apply has_context_run. }
  split_and!.
  - apply Hrun. unfold step. rewrite Hel. destruct (decide (currentFile s = "")); [done|].
    by apply gains_applied_setGain.
  - apply Hrun. unfold step. rewrite Hel. destruct (decide (currentFile s = "")); [done|].
    by apply gains_applied_reset.
  - by apply gains_applied_run.
Qed.

Lemma sliders_take_over_live_gains_witness :
  let s := (run Example.platform initial_state Example.slide_then_play).1 in
  gains_applied (run Example.platform s [SliderChanged Mid 5; BypassClicked]).1 ∧
  gains_applied (run Example.platform s [ResetClicked; BypassClicked]).1 ∧
  (gains_applied s → gains_applied (run Example.platform s [BypassClicked]).1).
Proof.
  apply (sliders_take_over_live_gains Example.platform
           (run Example.platform initial_state Example.slide_then_play).1
           Mid 5 [BypassClicked]).
  - vm_compute. repeat split; eexists; reflexivity.
  - vm_compute. eexists. reflexivity.
  - by vm_compute.
Defined.

(** X9. In every reachable state with a graph, the gains of the live
    filters are those of the settings, or they are all still 0, the value
    the filters are created with: the filters never hold anything else. *)
Theorem live_gains_follow_or_flat (platform : Platform) (s : State) :
  reachable platform s → is_Some (context (audioNodesRef s)) →
  gains_applied s ∨ gains_flat s.
Proof. apply reachable_applied_or_flat. Qed.

Lemma live_gains_follow_or_flat_witness :
  let s := (run Example.platform initial_state Example.slide_then_play).1 in
  gains_applied s ∨ gains_flat s.
Proof.
  apply (live_gains_follow_or_flat Example.platform).
  - by exists Example.slide_then_play.
  - vm_compute. eexists. reflexivity.
Defined.

(** ** The bypass button and the wiring *)

Section Wiring.

Context (platform : Platform).

Lemma wired_applyEQSettings (e : EQSettings) (s : State) :
  wired s → wired (applyEQSettings e s).
Proof.
  intros [Hp Hw]. unfold wired, wired_as_flagged, applyEQSettings, fully_populated in *.
  destruct Hp as ([so ->] & [b ->] & [m ->] & [t ->] & [g ->] & [c ->] & [x ->]).
  cbn. split_and!; eauto.
Qed.

Lemma wired_toggleBypass (s : State) : wired s → wired (toggleBypass s).
Proof.
  intros [Hp Hw]. rewrite toggleBypass_populated by done. by split.
Qed.

Lemma wired_set_context_state (v : AudioContextState) (s : State) :
  wired s → wired (set_context_state v s).
Proof.
  intros [Hp Hw]. unfold wired, wired_as_flagged, set_context_state, fully_populated in *.
  destruct Hp as (? & ? & ? & ? & ? & ? & [x ->]). cbn. split_and!; eauto.
Qed.

Lemma wired_initializeAudioContext (fresh : option AudioContext) (s : State) :
  wired s → wired (initializeAudioContext fresh s).
Proof.
  intros H. rewrite initializeAudioContext_noop; [done|].
  by apply fully_populated_context, H.
Qed.

Lemma wired_run (s : State) (evs : list Event) :
  wired s → wired (run platform s evs).1.
Proof.
  apply (property_run platform wired).
  - intros s0 s' Hn Hc Hb [Hp Hw]. unfold wired, wired_as_flagged.
    by rewrite Hn, Hc, Hb.
  - apply wired_applyEQSettings.
  - apply wired_toggleBypass.
  - apply wired_set_context_state.
  - apply wired_initializeAudioContext.
Qed.

End Wiring.

(** X10. Once the graph exists, a click on the bypass button wires it as
    the new value of the flag says, and from then on the wiring and the
    flag agree, whatever happens next; a state in which they agree is
    followed only by such states.  In a reachable state they disagree in
    one way only: the flag is set and the full chain is connected. *)
Theorem bypass_button_takes_over_wiring (platform : Platform) (s : State)
    (evs : list Event) :
  fully_populated (audioNodesRef s) → is_Some (audioRef s) → currentFile s ≠ "" →
  wired_as_flagged (run platform s (BypassClicked :: evs)).1 ∧
  (wired_as_flagged s → wired_as_flagged (run platform s evs).1) ∧
  (reachable platform s →
   wired_as_flagged s ∨ (bypass s = true ∧ connections s = full_chain)).
Proof.
  intros Hp [el Hel] Hf. split_and!.
  - change (BypassClicked :: evs) with ([BypassClicked] ++ evs).
    rewrite run_app_state.
    apply wired_run. cbn [run]. unfold step. rewrite Hel.
    destruct (decide (currentFile s = "")); [done|]. cbn [fst].
    rewrite toggleBypass_populated by done. by split.
  - intros Hw. by apply wired_run.
  - intros Hr. destruct (bypass s) eqn:Hb.
    + destruct (reachable_graph_inv platform s Hr) as [[Hn _]|(_ & _ & [Hc|Hc])].
      * rewrite Hn in Hp. by destruct no_nodes_not_populated.
      * by right.
      * left. unfold wired_as_flagged. by rewrite Hb.
    + left. unfold wired_as_flagged. rewrite Hb.
      by apply (reachable_enhanced platform).
Qed.

Lemma bypass_button_takes_over_wiring_witness :
  let s := (run Example.platform initial_state Example.bypass_then_play).1 in
  wired_as_flagged (run Example.platform s [BypassClicked; SliderChanged Bass 3]).1 ∧
  (wired_as_flagged s → wired_as_flagged (run Example.platform s [SliderChanged Bass 3]).1) ∧
  (reachable Example.platform s →
   wired_as_flagged s ∨ (bypass s = true ∧ connections s = full_chain)).
Proof.
  apply (bypass_button_takes_over_wiring Example.platform
           (run Example.platform initial_state Example.bypass_then_play).1
           [SliderChanged Bass 3]).
  - vm_compute. repeat split; eexists; reflexivity.
  - vm_compute. eexists. reflexivity.
  - by vm_compute.
Defined.

(** ** The algebra of the controls *)

Lemma updateEQValue_fields (type : Band) (value : Q) (s : State) :
  updateEQValue type value s = set_eqSettings (with_band type value (eqSettings s)) s.
Proof. by destruct type. Qed.

Lemma applyEQSettings_fields (e : EQSettings) (s : State) :
  applyEQSettings e s = set_audioNodesRef (with_gains e (audioNodesRef s)) s.
Proof.
  unfold applyEQSettings, with_gains.
  destruct s as [ip cf e0 bp acs ar our [so [b|] [m|] [t|] g c x] cn nu ul]; reflexivity.
Qed.

Lemma connectAudioGraph_fields (b : bool) (s : State) :
  connectAudioGraph b s
  = set_connections (rewired b (audioNodesRef s) (connections s)) s.
Proof.
  unfold connectAudioGraph, rewired, populated, disconnect_all, connect_chain.
  destruct s as [ip cf e0 bp acs ar our [[so|] [bf|] [m|] [t|] [g|] [c|] [x|]] cn nu ul],
    b; reflexivity.
Qed.

Lemma setGain_fields (type : Band) (value : Q) (s : State) :
  setGain type value s
  = let e := with_band type value (eqSettings s) in
    set_audioNodesRef (with_gains e (audioNodesRef s)) (set_eqSettings e s).
Proof.
  unfold setGain. cbv zeta. by rewrite applyEQSettings_fields, updateEQValue_fields.
Qed.

Lemma reset_fields (s : State) :
  reset s
  = let e := {| bass := 0; mid := 0; treble := 0 |} in
    set_audioNodesRef (with_gains e (audioNodesRef s)) (set_eqSettings e s).
Proof. unfold reset. cbv zeta. by rewrite applyEQSettings_fields. Qed.

Lemma toggleBypass_fields (s : State) :
  toggleBypass s
  = let b := negb (bypass s) in
    set_connections (rewired b (audioNodesRef s) (connections s)) (set_bypass b s).
Proof. unfold toggleBypass. cbv zeta. by rewrite connectAudioGraph_fields. Qed.

Lemma populated_with_gains (e : EQSettings) (n : AudioNodes) :
  populated (with_gains e n) = populated n.
Proof. by destruct n as [[?|] [?|] [?|] [?|] [?|] [?|] [?|]]. Qed.

Lemma with_gains_twice (e e' : EQSettings) (n : AudioNodes) :
  with_gains e (with_gains e' n) = with_gains e n.
Proof. by destruct n as [? [?|] [?|] [?|] ? ? ?]. Qed.

Lemma with_band_twice (type : Band) (value value' : Q) (e : EQSettings) :
  with_band type value (with_band type value' e) = with_band type value e.
Proof. by destruct type. Qed.

Lemma with_band_comm (type type' : Band) (value value' : Q) (e : EQSettings) :
  type ≠ type' →
  with_band type value (with_band type' value' e)
  = with_band type' value' (with_band type value e).
Proof. by destruct type, type'. Qed.

(** X11. The reset button puts the three settings at 0 and, if the
    filters exist, their gains at 0 too; a second click changes nothing,
    and the reset wipes out whatever a slider did before it. *)
Theorem reset_flattens (s : State) :
  eqSettings (reset s) = {| bass := 0; mid := 0; treble := 0 |} ∧
  ((∀ band, is_Some (live_gain band s)) → gains_flat (reset s)) ∧
  reset (reset s) = reset s ∧
  ∀ type value, reset (setGain type value s) = reset s.
Proof.
  split_and!.
  - by rewrite reset_fields.
  - intros H band. unfold reset. cbv zeta. rewrite applyEQSettings_live by done.
    by destruct band.
  - rewrite !reset_fields. cbn. by rewrite with_gains_twice.
  - intros type value. rewrite !reset_fields, setGain_fields. cbn.
    by rewrite with_gains_twice.
Qed.

(** X12. Slider updates compose as assignments do: of two updates of the
    same band the later one wins, and updates of different bands can be
    made in either order. *)
Theorem slider_updates_compose (s : State) (type type' : Band) (value value' : Q) :
  setGain type value (setGain type value' s) = setGain type value s ∧
  (type ≠ type' →
   setGain type value (setGain type' value' s)
   = setGain type' value' (setGain type value s)).
Proof.
  split.
  - rewrite !setGain_fields. cbn. by rewrite with_gains_twice, with_band_twice.
  - intros Hne. rewrite !setGain_fields. cbn.
    by rewrite !with_gains_twice, (with_band_comm type type').
Qed.

(** X13. The equaliser and the bypass button do not interfere: a slider
    update or a reset and a click on the bypass button give the same state
    in either order, a slider update leaves the flag and the wiring alone,
    and a click on the bypass button leaves the settings and the gains
    alone. *)
Theorem equaliser_and_bypass_commute (s : State) (type : Band) (value : Q) :
  toggleBypass (setGain type value s) = setGain type value (toggleBypass s) ∧
  toggleBypass (reset s) = reset (toggleBypass s) ∧
  bypass (setGain type value s) = bypass s ∧
  connections (setGain type value s) = connections s ∧
  eqSettings (toggleBypass s) = eqSettings s ∧
  ∀ band, live_gain band (toggleBypass s) = live_gain band s.
Proof.
  split_and!.
  - rewrite !toggleBypass_fields, !setGain_fields. cbn.
    unfold rewired. by rewrite populated_with_gains.
  - rewrite !toggleBypass_fields, !reset_fields. cbn.
    unfold rewired. by rewrite populated_with_gains.
  - by rewrite setGain_fields.
  - by rewrite setGain_fields.
  - by rewrite toggleBypass_fields.
  - intros band. by rewrite toggleBypass_fields.
Qed.

(** ** The export *)

Section Exporting.

Context (platform : Platform).

Lemma initializeAudioContext_fails (s : State) : initializeAudioContext None s = s.
Proof. unfold initializeAudioContext. by repeat case_match. Qed.

(** Without a graph, a click on the play button during which no context
    can be constructed leaves the node record empty. *)
Lemma togglePlayPause_no_graph (o : PlayOracle) (s : State) :
  newContext o = None → audioNodesRef s = no_nodes → connections s = ∅ →
  audioNodesRef (togglePlayPause o s) = no_nodes ∧ connections (togglePlayPause o s) = ∅.
Proof.
  intros Ho Hn Hc.
  apply (togglePlayPause_preserves
           (fun s' => audioNodesRef s' = no_nodes ∧ connections s' = ∅)); [..|done].
  - intros s0 H0. by rewrite Ho, initializeAudioContext_fails.
  - intros ok s0 s' Hr [H0 H1]. unfold resume in Hr. destruct ok; simplify_eq.
    split; [|done]. by apply set_context_state_empty.
  - intros ok s0 s' Hp H0. unfold play in Hp. by destruct ok; simplify_eq.
  - done.
Qed.

Lemma no_graph_step (s : State) (ev : Event) :
  creates_context ev = false → audioNodesRef s = no_nodes → connections s = ∅ →
  (audioNodesRef (step platform s ev).1 = no_nodes ∧ connections (step platform s ev).1 = ∅) ∧
  Forall (fun e => e = Alert load_first ∨ e = Alert load_failed) (step platform s ev).2.
Proof.
  intros Hev Hn Hc. unfold step.
  destruct (audioRef s) as [el|] eqn:Hel; [|by split].
  destruct ev; cbn [fst snd];
    try (destruct (decide (currentFile s = "")); cbn [fst snd]; [by split|]).
  - split; [|done]. unfold handleFileUpload, createObjectURL, revokeObjectURL.
    repeat case_match; simplify_eq; done.
  - split; [|done]. apply togglePlayPause_no_graph; [|done..].
    cbn in Hev. apply bool_decide_eq_false in Hev.
    by apply eq_None_not_Some.
  - split; [|done]. unfold stopAudio. by rewrite Hel.
  - split; [|done]. unfold toggleBypass. cbv zeta.
    rewrite connectAudioGraph_empty; [done|]. cbn. by rewrite Hn.
  - unfold resumeAudio, context_suspended. rewrite Hn. cbn.
    by destruct (audioContextSuspended s).
  - rewrite saveAudio_guard; [|right; by rewrite Hn].
    split; [done|]. repeat constructor.
  - split; [|done]. unfold setGain. cbv zeta.
    rewrite applyEQSettings_empty; [done|]. by destruct type.
  - split; [|done]. unfold reset. cbv zeta. by rewrite applyEQSettings_empty.
  - split; [|by destruct (paused el)]. by destruct (paused el).
  - split; [by case_match|]. case_match; [|done].
    constructor; [by right | done].
  - split; [|done]. unfold unmount, revokeObjectURL. by case_match.
Qed.

Lemma no_graph_run (s : State) (evs : list Event) :
  Forall (fun ev => creates_context ev = false) evs →
  audioNodesRef s = no_nodes → connections s = ∅ →
  (audioNodesRef (run platform s evs).1 = no_nodes ∧ connections (run platform s evs).1 = ∅) ∧
  Forall (fun e => e = Alert load_first ∨ e = Alert load_failed) (run platform s evs).2.
Proof.
  intros Hevs. revert s. induction Hevs as [|ev evs Hev _ IH]; intros s Hn Hc; [done|].
  cbn [run]. destruct (no_graph_step s ev Hev Hn Hc) as [[Hn' Hc'] Hshown].
  destruct (step platform s ev) as [s' shown]. cbn [fst snd] in *.
  destruct (IH s' Hn' Hc') as [? Hshown'].
  destruct (run platform s' evs) as [s'' shown']. cbn [fst snd] in *.
  split; [done|]. by apply Forall_app.
Qed.

(** What [renderOffline] reads of the live context and the element. *)
Lemma renderOffline_reads (e : EQSettings) (c c' : AudioContext)
    (el el' : HTMLAudioElement) :
  sampleRate c = sampleRate c' →
  destinationChannelCount c = destinationChannelCount c' →
  src el = src el' → duration el = duration el' →
  renderOffline platform e c el = renderOffline platform e c' el'.
Proof.
  intros Hr Hd Hs Hu. unfold renderOffline, offlineContextFor.
  by rewrite Hr, Hd, Hs, Hu.
Qed.

Lemma offlineContextFor_empty (c : AudioContext) (el : HTMLAudioElement) :
  offline_length c el = 0 → offlineContextFor platform c el = None.
Proof.
  unfold offline_length, offlineContextFor, newOfflineAudioContext. cbv zeta.
  intros ->. by rewrite decide_True.
Qed.

Lemma Qtrunc_small (x : Q) : (0 <= x)%Q → (x < 1)%Q → Qtrunc x = 0.
Proof.
  destruct x as [n d]. unfold Qle, Qlt, Qtrunc. cbn [Qnum Qden].
  intros Hn Hd. rewrite Z.quot_div_nonneg by lia. apply Z.div_small. lia.
Qed.

(** The durations for which no frame is asked for. *)
Lemma offline_length_empty (c : AudioContext) (el : HTMLAudioElement) :
  duration el = NaN ∨ duration el = Infinity ∨ duration el = NegInfinity ∨
  (∃ product : Q,
     double_mul (Num (inject_Z (sampleRate c))) (duration el) = Num product ∧
     (0 <= product)%Q ∧ (product < 1)%Q) ∨
  (∃ D : Q, duration el = Num D ∧
     (0 <= inject_Z (sampleRate c) * D)%Q ∧
     (inject_Z (sampleRate c) * D < 1 - (1 # 4194304))%Q) →
  offline_length c el = 0.
Proof.
  unfold offline_length, ToUint32.
  intros [-> | [-> | [-> | [(p & -> & H0 & H1) | (D & -> & H0 & H1)]]]].
  - done.
  - unfold double_mul, js_mul. cbv beta iota zeta.
    by destruct (Qsign (inject_Z (sampleRate c))).
  - unfold double_mul, js_mul. cbv beta iota zeta.
    by destruct (Qsign (inject_Z (sampleRate c))).
  - cbn [ToIntegerOrZero]. by rewrite Qtrunc_small.
  - cbn [double_mul js_mul].
    set (x := (inject_Z (sampleRate c) * D)%Q) in *.
    assert (x < inject_Z (2 ^ 32))%Q as Hlt.
    { eapply Qlt_trans; [exact H1|]. by vm_compute. }
    destruct (round_double_near x H0 Hlt) as (r & -> & Hr0 & Hhi & _).
    cbn [ToIntegerOrZero]. rewrite Qtrunc_small; [done..|].
    eapply Qle_lt_trans; [exact Hhi|].
    apply (Qplus_lt_l _ _ (- (1 # 4194304))).
    rewrite <- Qplus_assoc, Qplus_opp_r, Qplus_0_r. exact H1.
Qed.

(** The name of the loaded file changes only when a file is chosen. *)
Lemma currentFile_step (s : State) (ev : Event) :
  currentFile (step platform s ev).1 = currentFile s ∨
  ∃ file, ev = FileChosen (Some file) ∧ currentFile (step platform s ev).1 = name file.
Proof.
  unfold step.
  destruct (audioRef s) as [el|] eqn:Hel; [|by left].
  destruct ev; cbn [fst];
    try (destruct (decide (currentFile s = "")); cbn [fst]; [by left|]).
  - destruct file as [file|]; [|by left]. right. exists file. split; [done|].
    unfold handleFileUpload. by rewrite Hel.
  - left. apply togglePlayPause_frame.
  - left. unfold stopAudio. by rewrite Hel.
  - left. unfold toggleBypass, connectAudioGraph. by repeat case_match.
  - left. unfold resumeAudio, resume, default. repeat case_match; by simplify_eq.
  - left. apply saveAudio_session.
  - left. unfold setGain, updateEQValue, applyEQSettings. by repeat case_match.
  - left. unfold reset, resetEQ, applyEQSettings. by repeat case_match.
  - left. by destruct (paused el).
  - left. by case_match.
  - left. unfold unmount, revokeObjectURL. by case_match.
Qed.

(** What one event shows: alerts, or the one download of [saveAudio],
    named after the loaded file. *)
Lemma step_shown (s : State) (ev : Event) (filename : string) (audioBlob : Bytes) :
  Download filename audioBlob ∈ (step platform s ev).2 →
  currentFile s ≠ "" ∧ filename = "processed_" +:+ currentFile s.
Proof.
  unfold step.
  destruct (audioRef s) as [el|] eqn:Hel; [|by intros ?%elem_of_nil].
  destruct ev; cbn [snd];
    try (destruct (decide (currentFile s = "")); cbn [snd];
         [by intros ?%elem_of_nil|]);
    try (by intros ?%elem_of_nil).
  - by destruct (audioContextSuspended s); intros ?%elem_of_nil.
  - destruct (saveAudio_outcome platform s) as [[m ->]|(? & ? & ? & blob & _ & _ & _ & _ & ->)].
    + cbn [snd]. intros [=]%list_elem_of_singleton.
    + intros [=]%list_elem_of_singleton. by subst.
  - by destruct (paused el); intros ?%elem_of_nil.
  - case_match; cbn [snd]; intros Hin;
      by first [apply elem_of_nil in Hin | apply list_elem_of_singleton in Hin].
Qed.

Lemma run_shown (pre evs : list Event) (s : State) :
  (currentFile s ≠ "" →
   ∃ file, FileChosen (Some file) ∈ pre ∧ currentFile s = name file) →
  Forall (fun e => match e with
                   | Download filename _ =>
                       ∃ file, FileChosen (Some file) ∈ pre ++ evs ∧
                               filename = "processed_" +:+ name file
                   | Alert _ => True
                   end) (run platform s evs).2.
Proof.
  revert pre s. induction evs as [|ev evs IH]; intros pre s Hs; [by constructor|].
  cbn [run].
  pose proof (step_shown s ev) as Hshown. pose proof (currentFile_step s ev) as Hfile.
  destruct (step platform s ev) as [s' shown]. cbn [fst snd] in *.
  specialize (IH (pre ++ [ev]) s').
  destruct (run platform s' evs) as [s'' shown']. cbn [fst snd] in *.
  apply Forall_app. split.
  - apply Forall_forall. intros [m|filename blob] He; [done|].
    destruct (Hshown filename blob He) as [Hne ->].
    destruct (Hs Hne) as (file & Hin & ->).
    exists file. split; [|done]. apply elem_of_app. by left.
  - rewrite <- app_assoc in IH. apply IH. intros Hne.
    destruct Hfile as [Heq | (file & -> & Heq)].
    + rewrite Heq in *. destruct (Hs Hne) as (file & Hin & ->).
      exists file. split; [|done]. apply elem_of_app. by left.
    + exists file. split; [|done]. apply elem_of_app. right. by apply list_elem_of_singleton.
Qed.

End Exporting.

(** X14. Nothing can be exported before playback has been started once:
    as long as no click on the play button has constructed the context,
    there is no graph, nothing is connected, and all a run shows are the
    "load a file first" alert of the save button and the alert of a media
    error, also while a file is loaded. *)
Theorem no_export_before_first_play (platform : Platform) (evs : list Event) :
  Forall (fun ev => creates_context ev = false) evs →
  audioNodesRef (run platform initial_state evs).1 = no_nodes ∧
  connections (run platform initial_state evs).1 = ∅ ∧
  Forall (fun e => e = Alert load_first ∨ e = Alert load_failed)
    (run platform initial_state evs).2.
Proof.
  intros Hevs.
  destruct (no_graph_run platform initial_state evs Hevs) as [[? ?] ?]; done.
Qed.

Lemma no_export_before_first_play_witness :
  let evs := [FileChosen (Some Example.file); SaveClicked;
              PlayPauseClicked Scenario.noContext; SliderChanged Bass 10; SaveClicked] in
  audioNodesRef (run Example.platform initial_state evs).1 = no_nodes ∧
  connections (run Example.platform initial_state evs).1 = ∅ ∧
  Forall (fun e => e = Alert load_first ∨ e = Alert load_failed)
    (run Example.platform initial_state evs).2.
Proof.
  apply (no_export_before_first_play Example.platform). repeat constructor.
Defined.

(** X15. What the save button offers depends on the state only through
    the source and the duration of the media element, the sample rate and
    the channel count of the live context, the settings and the name of
    the file: not on the playback position, on whether the element plays,
    on the gains of the live filters, or on the bypass flag. *)
Theorem export_reads (platform : Platform) (s s' : State) :
  export_inputs s = export_inputs s' →
  (saveAudio platform s).2 = (saveAudio platform s').2.
Proof.
  unfold export_inputs. intros [= Hel Hc He Hf]. unfold saveAudio.
  destruct (audioRef s) as [el|], (audioRef s') as [el'|]; simplify_eq/=; [|done].
  destruct (context (audioNodesRef s)) as [c|], (context (audioNodesRef s')) as [c'|];
    simplify_eq/=; [|done].
  rewrite He, (renderOffline_reads platform _ c c' el el') by done.
  destruct (renderOffline platform (eqSettings s') c' el'
            ≫= audioBufferToCompressedAudio (allocates platform));
    [|done].
  cbn. by rewrite Hf.
Qed.

Lemma export_reads_witness :
  (saveAudio Example.platform Example.playing).2
  = (saveAudio Example.platform
       (run Example.platform Example.playing [BypassClicked; StopClicked]).1).2.
Proof.
  apply (export_reads Example.platform). unfold Example.playing. by vm_compute.
Defined.

(** X16. If the media element reports no usable duration ([NaN], as
    for a file that cannot be played, an infinite one, or one whose double
    product with the sample rate of the context is less than one sample, as
    it is whenever the exact product is below [1 - 2 ^ -22]), the offline
    context is asked for 0 frames, its constructor throws, and the save
    button answers with the "error saving" alert and nothing else. *)
Theorem export_needs_duration (platform : Platform) (s : State)
    (el : HTMLAudioElement) (audioContext : AudioContext) :
  audioRef s = Some el → context (audioNodesRef s) = Some audioContext →
  duration el = NaN ∨ duration el = Infinity ∨ duration el = NegInfinity ∨
  (∃ product : Q,
     double_mul (Num (inject_Z (sampleRate audioContext))) (duration el) = Num product ∧
     (0 <= product)%Q ∧ (product < 1)%Q) ∨
  (∃ D : Q, duration el = Num D ∧
     (0 <= inject_Z (sampleRate audioContext) * D)%Q ∧
     (inject_Z (sampleRate audioContext) * D < 1 - (1 # 4194304))%Q) →
  offlineContextFor platform audioContext el = None ∧
  saveAudio platform s = (s, [Alert save_failed]).
Proof.
  intros Hel Hc Hd.
  assert (Hn : offlineContextFor platform audioContext el = None).
  { by apply offlineContextFor_empty, offline_length_empty. }
  split; [done|].
  apply (saveAudio_catch platform s el audioContext); [done..|].
  by apply constructor_throws.
Qed.

Lemma export_needs_duration_witness :
  offlineContextFor Example.platform Example.audioContext Scenario.brokenElement = None ∧
  saveAudio Example.platform Scenario.brokenLoaded
  = (Scenario.brokenLoaded, [Alert save_failed]).
Proof.
  apply (export_needs_duration Example.platform Scenario.brokenLoaded
           Scenario.brokenElement Example.audioContext).
  - by vm_compute.
  - by vm_compute.
  - by left.
Defined.

(** X17. If the constructor of the offline context, [fetch],
    [decodeAudioData] and [startRendering] all succeed and the allocation
    of the file is granted, the save button shows no alert and offers
    exactly one download: it is named "processed_" followed by the name of
    the loaded file, and it holds the 44-byte header and the samples of the
    rendered buffer, whose length is the one the offline context was
    constructed with.  The blob URL made for the download is revoked at
    once, and nothing else changes. *)
Theorem export_succeeds (platform : Platform) (s : State)
    (el : HTMLAudioElement) (audioContext : AudioContext)
    (offlineContext : OfflineAudioContext.t) (response : Bytes)
    (audioBuffer : AudioBuffer.t) (samples : Z → Z → number) :
  audioRef s = Some el → context (audioNodesRef s) = Some audioContext →
  0 ≤ destinationChannelCount audioContext →
  offlineContextFor platform audioContext el = Some offlineContext →
  fetch platform (src el) = Some response →
  decodeAudioData platform (OfflineAudioContext.sampleRate offlineContext) response
  = Some audioBuffer →
  startRendering platform offlineContext
    (offlineGraph offlineContext (eqSettings s) audioBuffer)
  = Some samples →
  is_Some (ArrayBuffer (allocates platform)
             (file_size (rendering offlineContext samples))) →
  (saveAudio platform s).2
  = [Download ("processed_" +:+ currentFile s)
       (wav_header (OfflineAudioContext.length offlineContext)
          (OfflineAudioContext.numberOfChannels offlineContext)
          (OfflineAudioContext.sampleRate offlineContext)
        ++ pcm_data (rendering offlineContext samples))] ∧
  OfflineAudioContext.length offlineContext = offline_length audioContext el ∧
  urlLog (saveAudio platform s).1
  = urlLog s ++ [Created (nextUrl s); Revoked (nextUrl s)] ∧
  session_untouched s (saveAudio platform s).1.
Proof.
  intros Hel Hc Hch Ho Hf Hd Hr [view Ha].
  assert (Hrender : renderOffline platform (eqSettings s) audioContext el
                    = Some (rendering offlineContext samples)).
  { unfold renderOffline. rewrite Ho. cbn. rewrite Hf. cbn. rewrite Hd. cbn.
    by rewrite Hr. }
  pose proof (offlineContextFor_dimensions _ _ _ _ Ho) as Hdim.
  assert (Hbytes : audioBufferToCompressedAudio (allocates platform)
                     (rendering offlineContext samples)
                   = Some (wav_header (OfflineAudioContext.length offlineContext)
                             (OfflineAudioContext.numberOfChannels offlineContext)
                             (OfflineAudioContext.sampleRate offlineContext)
                           ++ pcm_data (rendering offlineContext samples))).
  { rewrite audioBufferToCompressedAudio_layout, Ha; [done|..].
    - rewrite Hdim. cbn. unfold ToUint32. apply Z.mod_pos_bound. lia.
    - by rewrite Hdim. }
  split_and!; [..|apply saveAudio_session].
  - unfold saveAudio. rewrite Hel, Hc, Hrender. cbn [mbind option_bind].
    by rewrite Hbytes.
  - by rewrite Hdim.
  - unfold saveAudio. rewrite Hel, Hc, Hrender. cbn [mbind option_bind].
    rewrite Hbytes. cbn. by rewrite <- app_assoc.
Qed.

Lemma export_succeeds_witness :
  (saveAudio Scenario.platform Scenario.clickPlaying).2
  = [Download ("processed_" +:+ currentFile Scenario.clickPlaying)
       (wav_header (OfflineAudioContext.length Scenario.clickOffline)
          (OfflineAudioContext.numberOfChannels Scenario.clickOffline)
          (OfflineAudioContext.sampleRate Scenario.clickOffline)
        ++ pcm_data (rendering Scenario.clickOffline Scenario.silence))] ∧
  OfflineAudioContext.length Scenario.clickOffline
  = offline_length Scenario.slowContext Scenario.clickElement ∧
  urlLog (saveAudio Scenario.platform Scenario.clickPlaying).1
  = urlLog Scenario.clickPlaying
    ++ [Created (nextUrl Scenario.clickPlaying); Revoked (nextUrl Scenario.clickPlaying)] ∧
  session_untouched Scenario.clickPlaying
    (saveAudio Scenario.platform Scenario.clickPlaying).1.
Proof.
  apply (export_succeeds Scenario.platform Scenario.clickPlaying Scenario.clickElement
           Scenario.slowContext Scenario.clickOffline (content Scenario.click)
           Scenario.decodedClick Scenario.silence).
  - by vm_compute.
  - by vm_compute.
  - by vm_compute.
  - by vm_compute.
  - reflexivity.
  - reflexivity.
  - reflexivity.
  - vm_compute. by eexists.
Defined.

(** X18. Every download a run offers is named "processed_" followed by
    the name of a file that was chosen earlier in the run. *)
Theorem downloads_named_after_chosen_file (platform : Platform) (evs : list Event) :
  Forall (fun e => match e with
                   | Download filename _ =>
                       ∃ file, FileChosen (Some file) ∈ evs ∧
                               filename = "processed_" +:+ name file
                   | Alert _ => True
                   end) (run platform initial_state evs).2.
Proof. by apply (run_shown platform [] evs initial_state). Qed.

(** ** The samples and the header of the exported file *)

Section Samples.

Lemma Qle_bool_false (a b : Q) : Qle_bool a b = false → (b < a)%Q.
Proof.
  intros H. apply Qnot_le_lt. intros Hle. apply Qle_bool_iff in Hle. congruence.
Qed.

Lemma clamp_high (x : Q) : (1 <= x)%Q → clamp x = 1%Q.
Proof.
  intros H. unfold clamp.
  destruct (Qle_bool x (-1)) eqn:H1.
  - apply Qle_bool_true in H1. exfalso. apply (Qle_not_lt _ _ (Qle_trans _ _ _ H H1)).
    reflexivity.
  - destruct (Qle_bool 1 x) eqn:H2; [done|].
    apply Qle_bool_false in H2. by apply Qle_not_lt in H.
Qed.

Lemma clamp_low (x : Q) : (x <= -1)%Q → clamp x = (-1)%Q.
Proof.
  intros H. unfold clamp. apply Qle_bool_iff in H. by rewrite H.
Qed.

Lemma Qtrunc_mono (x y : Q) : (x <= y)%Q → Qtrunc x ≤ Qtrunc y.
Proof.
  destruct x as [a b], y as [c d]. unfold Qle, Qtrunc. cbn [Qnum Qden]. intros H.
  rewrite <- (Z.quot_mul_cancel_r a (Z.pos b) (Z.pos d)) by lia.
  rewrite <- (Z.quot_mul_cancel_r c (Z.pos d) (Z.pos b)) by lia.
  rewrite (Z.mul_comm (Z.pos d) (Z.pos b)).
  apply Z.quot_le_mono; [nia | lia].
Qed.

Lemma clamp_mono (x y : Q) : (x <= y)%Q → (clamp x <= clamp y)%Q.
Proof.
  intros H. pose proof (clamp_range y) as [Hy1 Hy2]. unfold clamp in *.
  destruct (Qle_bool x (-1)) eqn:Hx1; [done|].
  apply Qle_bool_false in Hx1.
  destruct (Qle_bool 1 x) eqn:Hx2.
  - apply Qle_bool_true in Hx2.
    assert (Hy : Qle_bool 1 y = true) by (apply Qle_bool_iff; by eapply Qle_trans).
    assert (Hy' : Qle_bool y (-1) = false).
    { destruct (Qle_bool y (-1)) eqn:E; [|done]. apply Qle_bool_true in E.
      exfalso. apply (Qle_not_lt _ _ (Qle_trans _ _ _ Hx2 (Qle_trans _ _ _ H E))).
      reflexivity. }
    rewrite Hy', Hy. apply Qle_refl.
  - destruct (Qle_bool y (-1)) eqn:Hy3.
    + apply Qle_bool_true in Hy3. exfalso.
      apply (Qle_not_lt _ _ (Qle_trans _ _ _ H Hy3)). done.
    + destruct (Qle_bool 1 y) eqn:Hy4; [|done].
      apply Qle_bool_false in Hx2. by apply Qlt_le_weak.
Qed.

Lemma scale_mono (x y : Q) : (x <= y)%Q → (scale x <= scale y)%Q.
Proof.
  destruct x as [a b], y as [c d]. unfold scale, Qltb, Qle_bool, Qle.
  cbn [Qnum Qden]. intros H.
  repeat case_match; unfold Qmult; cbn [negb Qnum Qden] in *;
    repeat match goal with
           | E : negb _ = true |- _ => apply negb_true_iff in E
           | E : negb _ = false |- _ => apply negb_false_iff in E
           | E : (_ <=? _) = true |- _ => apply Z.leb_le in E
           | E : (_ <=? _) = false |- _ => apply Z.leb_gt in E
           end; nia.
Qed.

(** The conversion to 16 bits does not wrap: clamping keeps the scaled
    sample within the signed 16-bit range. *)
Lemma pcm16_no_wrap (x : number) : pcm16 x = ToIntegerOrZero (sample_value x).
Proof.
  assert (H : - 2 ^ 15 ≤ ToIntegerOrZero (sample_value x) < 2 ^ 15).
  { destruct x as [q| | |]; [|by vm_compute..].
    rewrite sample_value_finite. cbn [ToIntegerOrZero].
    pose proof (Qtrunc_bounds (-32768) 32767 _ (scale_clamp_range q)). lia. }
  unfold pcm16, ToInt16. cbv zeta.
  revert H. generalize (ToIntegerOrZero (sample_value x)). intros T H.
  destruct (decide (0 ≤ T)).
  - rewrite Z.mod_small by lia. rewrite decide_True by lia. done.
  - replace (T mod 2 ^ 16) with (T + 2 ^ 16).
    + rewrite decide_False by lia. lia.
    + apply (Z.mod_unique _ _ (-1)); lia.
Qed.

End Samples.

(** X19. The sample that is stored for every possible float sample.
    Nothing wraps around: the stored 16-bit number is the scaled sample
    itself, truncated.  A sample of 1 or more is stored as 32767, a sample
    of -1 or less as -32768, the infinities likewise, and [NaN] as 0. *)
Theorem samples_saturate :
  (∀ x : number, pcm16 x = ToIntegerOrZero (sample_value x)) ∧
  (∀ x : Q, (1 <= x)%Q → pcm16 (Num x) = 32767) ∧
  (∀ x : Q, (x <= -1)%Q → pcm16 (Num x) = -32768) ∧
  pcm16 Infinity = 32767 ∧ pcm16 NegInfinity = -32768 ∧ pcm16 NaN = 0.
Proof.
  split_and!; [apply pcm16_no_wrap | | | done..].
  - intros x H. by rewrite pcm16_finite, clamp_high.
  - intros x H. by rewrite pcm16_finite, clamp_low.
Qed.

(** X20. The stored sample grows with the float sample: a louder sample
    is never stored as a smaller number, across the change of scale at 0
    and across the clamping. *)
Theorem samples_keep_order (x y : Q) :
  (x <= y)%Q → pcm16 (Num x) ≤ pcm16 (Num y).
Proof.
  intros H. rewrite !pcm16_finite. by apply Qtrunc_mono, scale_mono, clamp_mono.
Qed.

Lemma samples_keep_order_witness :
  pcm16 (Num (-0.25)) ≤ pcm16 (Num 0.5).
Proof. apply (samples_keep_order (-0.25) 0.5). by vm_compute. Defined.

(** X21. The writer never leaves the buffer it has allocated: the one
    way it throws is a refused allocation of the [44 + L * C * 2] bytes of
    the file, and when the allocation is granted it returns a file of that
    many bytes.  The size field of the RIFF chunk holds the size of the
    file less 8 and the size field of the format chunk holds 16; like the
    other numeric fields they hold their value modulo the width of the
    field. *)
Theorem wav_writes_in_bounds (allocates : Z → bool) (buffer : AudioBuffer.t) :
  let L := AudioBuffer.length buffer in
  let C := AudioBuffer.numberOfChannels buffer in
  let R := AudioBuffer.sampleRate buffer in
  0 ≤ L → 0 ≤ C →
  (audioBufferToCompressedAudio allocates buffer = None
   ↔ ArrayBuffer allocates (44 + L * C * 2) = None) ∧
  (is_Some (ArrayBuffer allocates (44 + L * C * 2)) →
   ∃ bytes,
     audioBufferToCompressedAudio allocates buffer = Some bytes ∧
     Z.of_nat (length bytes) = 44 + L * C * 2 ∧
     Forall (fun b => 0 ≤ b < 256) bytes ∧
     le_decode (field 4 4 bytes) = (Z.of_nat (length bytes) - 8) mod 2 ^ 32 ∧
     le_decode (field 16 4 bytes) = 16 ∧
     le_decode (field 22 2 bytes) = C mod 2 ^ 16 ∧
     le_decode (field 24 4 bytes) = R mod 2 ^ 32 ∧
     le_decode (field 28 4 bytes) = (R * C * 2) mod 2 ^ 32 ∧
     le_decode (field 32 2 bytes) = (C * 2) mod 2 ^ 16 ∧
     le_decode (field 40 4 bytes) = (L * C * 2) mod 2 ^ 32).
Proof.
  intros L C R HL HC.
  rewrite audioBufferToCompressedAudio_layout by done.
  change (file_size buffer) with (44 + L * C * 2).
  split; [by destruct (ArrayBuffer allocates (44 + L * C * 2))|].
  intros [view ->].
  exists (wav_header L C R ++ pcm_data buffer).
  assert (Hfield : ∀ off n, 0 ≤ off → (Z.to_nat off + n ≤ 44)%nat →
            field off n (wav_header L C R ++ pcm_data buffer)
            = field off n (wav_header L C R)).
  { intros off n Hoff Hn. apply field_header; [done|].
    by rewrite length_wav_header. }
  assert (Hlen : Z.of_nat (length (wav_header L C R ++ pcm_data buffer)) = 44 + L * C * 2).
  { rewrite length_app, length_wav_header, length_pcm_data. fold L C.
    rewrite Nat2Z.inj_add, !Nat2Z.inj_mul, !Z2Nat.id by lia.
    change (Z.of_nat 44) with 44. change (Z.of_nat 2) with 2. ring. }
  split_and!.
  - done.
  - done.
  - apply Forall_app. split; [apply wav_header_range | apply pcm_data_range].
  - rewrite Hlen, Hfield by (cbn; lia).
    change (field 4 4 (wav_header L C R)) with (le_bytes 4 (36 + L * C * 2)).
    rewrite le_decode_le_bytes. f_equal. lia.
  - rewrite Hfield by (cbn; lia). reflexivity.
  - rewrite Hfield by (cbn; lia). change (field 22 2 (wav_header L C R)) with (le_bytes 2 C).
    by rewrite le_decode_le_bytes.
  - rewrite Hfield by (cbn; lia). change (field 24 4 (wav_header L C R)) with (le_bytes 4 R).
    by rewrite le_decode_le_bytes.
  - rewrite Hfield by (cbn; lia).
    change (field 28 4 (wav_header L C R)) with (le_bytes 4 (R * C * 2)).
    by rewrite le_decode_le_bytes.
  - rewrite Hfield by (cbn; lia).
    change (field 32 2 (wav_header L C R)) with (le_bytes 2 (C * 2)).
    by rewrite le_decode_le_bytes.
  - rewrite Hfield by (cbn; lia).
    change (field 40 4 (wav_header L C R)) with (le_bytes 4 (L * C * 2)).
    by rewrite le_decode_le_bytes.
Qed.

Lemma wav_writes_in_bounds_witness :
  ∃ bytes,
    audioBufferToCompressedAudio (fun _ => true) Example.small_buffer = Some bytes ∧
    Z.of_nat (length bytes) = 44 + 2 * 2 * 2 ∧
    Forall (fun b => 0 ≤ b < 256) bytes ∧
    le_decode (field 4 4 bytes) = (Z.of_nat (length bytes) - 8) mod 2 ^ 32 ∧
    le_decode (field 16 4 bytes) = 16 ∧
    le_decode (field 22 2 bytes) = 2 mod 2 ^ 16 ∧
    le_decode (field 24 4 bytes) = 44100 mod 2 ^ 32 ∧
    le_decode (field 28 4 bytes) = (44100 * 2 * 2) mod 2 ^ 32 ∧
    le_decode (field 32 2 bytes) = (2 * 2) mod 2 ^ 16 ∧
    le_decode (field 40 4 bytes) = (2 * 2 * 2) mod 2 ^ 32.
Proof.
  apply (wav_writes_in_bounds (fun _ => true) Example.small_buffer).
  - by vm_compute.
  - by vm_compute.
  - vm_compute. by eexists.
Defined.
